(** * gustaf: mutation-tracked arrays, the dependency-tracked cache and
      [unique_rows]

    A shallow embedding of [gustaf/helpers/data.py] ([TrackedArray],
    [make_tracked_array], [DataHolder], [ComputedData.depends_on]) and of
    [unique_rows] from [gustaf/utils/arr.py].

    Python objects live in an explicit store: array objects and the buffers
    they share are kept apart, so that a view aliases the storage of its
    parent and flags set through one name are seen through every other.
    Code runs in a state-and-exception monad in which the store survives a
    raised exception, as it does in Python. *)

From Stdlib Require Import ZArith Lia.
From stdpp Require Import gmap strings list fin_maps sorting.

Local Open Scope Z_scope.

(** ** Python values, exceptions and the object store *)

Abbreviation loc := nat (only parsing).

(** The exceptions the modelled code can raise.  [SystemError] stands for a
    dangling reference, which no Python program can produce. *)
Inductive exn :=
| ValueError | KeyError | IndexError | TypeError | AttributeError
| NotImplementedError | OverflowError | AssertionError | SystemError.

Inductive result (A : Type) :=
| Ok (a : A)
| Raise (e : exn).
Arguments Ok {A} a.
Arguments Raise {A} e.

Inductive value :=
| VNone
| VInt (z : Z)
| VRef (l : loc).

#[global] Instance value_eq_dec : EqDecision value.
Proof. solve_decision. Defined.

(** [__slots__ = ("_modified", "_source")].  [_source = int(0)] is [None];
    otherwise [_source] refers to another array object. *)
Record slots := { _modified : bool; _source : option loc }.

(** An array object.  [tracked = None] is a plain [np.ndarray], which has
    no [_modified] and no [_source]; [tracked = Some s] is an instance of
    [TrackedArray].  The elements are the [product shape] cells of buffer
    [buffer] starting at [offset]: every array of the model is
    C-contiguous. *)
Record ndarray := {
  tracked : option slots;
  writeable : bool;
  shape : list nat;
  buffer : loc;
  offset : nat
}.

(** The world of one helpee: the object store, the helpee's attributes
    ([getattr(self, name)]) and the [_saved] dict of its [_computed]
    holder. *)
Record World := {
  arrays : list ndarray;
  buffers : list (list Z);
  attrs : gmap string value;
  _saved : gmap string value
}.

Definition with_arrays (f : list ndarray -> list ndarray) (w : World) : World :=
  {| arrays := f (arrays w); buffers := buffers w;
     attrs := attrs w; _saved := _saved w |}.

Definition with_buffers (f : list (list Z) -> list (list Z)) (w : World) : World :=
  {| arrays := arrays w; buffers := f (buffers w);
     attrs := attrs w; _saved := _saved w |}.

Definition with_saved (f : gmap string value -> gmap string value) (w : World) : World :=
  {| arrays := arrays w; buffers := buffers w;
     attrs := attrs w; _saved := f (_saved w) |}.

Definition with_attrs (f : gmap string value -> gmap string value) (w : World) : World :=
  {| arrays := arrays w; buffers := buffers w;
     attrs := f (attrs w); _saved := _saved w |}.

(** ** The monad

    A computation maps a world to a result, the world it leaves behind and
    the names of the registered computations it invoked, in order.  The
    third component is the call counter of the cache: only
    [compute_or_return_saved] writes to it, at the point where it calls the
    wrapped function. *)
Record outcome (A : Type) := Out {
  res : result A;
  final : World;
  calls : list string
}.
Arguments Out {A} res final calls.
Arguments res {A} o.
Arguments final {A} o.
Arguments calls {A} o.

Definition py (A : Type) : Type := World -> outcome A.

Definition ret {A} (a : A) : py A := fun w => Out (Ok a) w [].

Definition raise {A} (e : exn) : py A := fun w => Out (Raise e) w [].

Definition bind {A B} (c : py A) (k : A -> py B) : py B := fun w =>
  match c w with
  | Out (Ok a) w1 t1 =>
      let o := k a w1 in Out (res o) (final o) (t1 ++ calls o)
  | Out (Raise e) w1 t1 => Out (Raise e) w1 t1
  end.

Declare Scope py_scope.
Delimit Scope py_scope with py.
Notation "x <- c ;; k" := (bind c (fun x => k))
  (at level 100, c at next level, right associativity) : py_scope.
Notation "c ;; k" := (bind c (fun _ => k))
  (at level 100, right associativity) : py_scope.
Local Open Scope py_scope.

Definition gets {A} (f : World -> A) : py A := fun w => Out (Ok (f w)) w [].

Definition modify (f : World -> World) : py unit := fun w => Out (Ok tt) (f w) [].

(** [for x in l: body(x)] *)
Fixpoint for_each {A} (l : list A) (body : A -> py unit) : py unit :=
  match l with
  | [] => ret tt
  | x :: l' => body x ;; for_each l' body
  end.

(** ** numpy: the part of [np.ndarray] the source relies on *)

Definition product (s : list nat) : nat := foldr Nat.mul 1%nat s.

Definition get_array (l : loc) : py ndarray := fun w =>
  match arrays w !! l with
  | Some a => Out (Ok a) w []
  | None => Out (Raise SystemError) w []
  end.

Definition alloc_array (a : ndarray) : py loc := fun w =>
  Out (Ok (length (arrays w))) (with_arrays (fun h => h ++ [a]) w) [].

Definition alloc_buffer (d : list Z) : py loc := fun w =>
  Out (Ok (length (buffers w))) (with_buffers (fun h => h ++ [d]) w) [].

Definition set_slots (l : loc) (s : slots) : py unit :=
  modify (with_arrays (alter (fun a =>
    {| tracked := Some s; writeable := writeable a; shape := shape a;
       buffer := buffer a; offset := offset a |}) l)).

(** [a.flags.writeable = value] *)
Definition set_writeable (l : loc) (value : bool) : py unit :=
  modify (with_arrays (alter (fun a =>
    {| tracked := tracked a; writeable := value; shape := shape a;
       buffer := buffer a; offset := offset a |}) l)).

(** ** Observations on the store *)

(** The [_modified] flag of the array at [l], when it is a tracked array. *)
Definition modified_at (w : World) (l : loc) : option bool :=
  a ← arrays w !! l; s ← tracked a; Some (_modified s).

(** The [_source] of the array at [l], when it is a tracked array. *)
Definition source_at (w : World) (l : loc) : option (option loc) :=
  a ← arrays w !! l; s ← tracked a; Some (_source s).

Definition is_tracked (w : World) (l : loc) : Prop :=
  is_Some (modified_at w l).

Definition writeable_at (w : World) (l : loc) : option bool :=
  writeable <$> arrays w !! l.

#[global] Instance is_tracked_dec w l : Decision (is_tracked w l).
Proof. unfold is_tracked. apply _. Defined.

(** [isinstance(obj, TrackedArray)] for a slot that holds [int(0)] or an
    object. *)
Definition isinstance_TrackedArray (obj : option loc) : py bool :=
  gets (fun w => match obj with
                 | Some l => bool_decide (is_tracked w l)
                 | None => false
                 end).

(** [obj._modified = b]: the slot exists on tracked arrays only. *)
Definition assign_modified (b : bool) (a : ndarray) : ndarray :=
  {| tracked := (fun s => {| _modified := b; _source := _source s |}) <$> tracked a;
     writeable := writeable a; shape := shape a;
     buffer := buffer a; offset := offset a |}.

Definition set_modified (l : loc) (b : bool) : py unit :=
  a <- get_array l ;;
  match tracked a with
  | Some _ => modify (with_arrays (alter (assign_modified b) l))
  | None => raise AttributeError
  end.

(** The elements of an array: its window on the shared buffer. *)
Definition elements_of (a : ndarray) (w : World) : list Z :=
  take (product (shape a)) (drop (offset a) (default [] (buffers w !! buffer a))).

Definition write_range (start : nat) (new : list Z) (buf : list Z) : list Z :=
  take start buf ++ new ++ drop (start + length new) buf.

Definition store_elements (a : ndarray) (start : nat) (new : list Z) : py unit :=
  modify (with_buffers (alter (write_range (offset a + start) new) (buffer a))).

(** The in-place operators of Python 3 that [np.ndarray] implements. *)
Inductive inplace_op :=
| Iadd | Isub | Imul | Itruediv | Imatmul | Ipow | Imod | Ifloordiv
| Ilshift | Irshift | Iand | Ixor | Ior.

(** The element arithmetic of numpy is not part of the repository: it is an
    interface, and every statement below holds for each implementation of
    it.  An operator may reject its operand (a cast that is not allowed, a
    shape that does not broadcast). *)
Class Ufuncs := {
  elementwise : inplace_op -> Z -> list Z -> result (list Z)
}.

(** Keys of [a[key]]: an integer (negative counts from the end) or a slice
    [start:stop] with non-negative bounds, both along the first axis. *)
Inductive index :=
| Idx (i : Z)
| Slice (start stop : nat).

Definition normalise (n : nat) (i : Z) : option nat :=
  if (0 <=? i) && (i <? Z.of_nat n) then Some (Z.to_nat i)
  else if (- Z.of_nat n <=? i) && (i <? 0) then Some (Z.to_nat (i + Z.of_nat n))
  else None.

Module nd.

(** A new array object on the storage of [self], of the class of [self];
    the writeable flag is inherited.  The class hook [finalize new self]
    runs when the new object is an instance of the subclass. *)
Definition new_view (finalize : loc -> loc -> py unit)
    (self : loc) (shp : list nat) (off : nat) : py loc :=
  a <- get_array self ;;
  new <- alloc_array
    {| tracked := match tracked a with
                  | Some _ => Some {| _modified := false; _source := None |}
                  | None => None
                  end;
       writeable := writeable a; shape := shp;
       buffer := buffer a; offset := off |} ;;
  match tracked a with
  | Some _ => finalize new self
  | None => ret tt
  end ;;
  ret new.

(** [np.array(self, copy=True)]: a plain array on storage of its own. *)
Definition copy (self : loc) : py loc :=
  a <- get_array self ;;
  d <- gets (elements_of a) ;;
  b <- alloc_buffer d ;;
  alloc_array {| tracked := None; writeable := true; shape := shape a;
                 buffer := b; offset := 0 |}.

(** [ndarray.__setitem__]: the write protection is checked first. *)
Definition __setitem__ (self : loc) (key : index) (v : Z) : py unit :=
  a <- get_array self ;;
  if negb (writeable a) then raise ValueError
  else match shape a with
       | [] => raise IndexError
       | n :: rest =>
           let row := product rest in
           match key with
           | Idx i =>
               match normalise n i with
               | Some k => store_elements a (k * row) (replicate row v)
               | None => raise IndexError
               end
           | Slice start stop =>
               let lo := Nat.min start n in
               let hi := Nat.min stop n in
               store_elements a (lo * row) (replicate ((hi - lo) * row) v)
           end
       end.

(** [ndarray.__getitem__]: an integer key on a one-dimensional array
    reads a scalar; every other key yields a view. *)
Definition __getitem__ (finalize : loc -> loc -> py unit)
    (self : loc) (key : index) : py value :=
  a <- get_array self ;;
  match shape a with
  | [] => raise IndexError
  | n :: rest =>
      let row := product rest in
      match key with
      | Idx i =>
          match normalise n i with
          | Some k =>
              match rest with
              | [] =>
                  d <- gets (elements_of a) ;;
                  ret (VInt (default 0 (d !! k)))
              | _ =>
                  v <- new_view finalize self rest (offset a + k * row) ;;
                  ret (VRef v)
              end
          | None => raise IndexError
          end
      | Slice start stop =>
          let lo := Nat.min start n in
          let hi := Nat.min stop n in
          v <- new_view finalize self ((hi - lo)%nat :: rest)
                 (offset a + lo * row) ;;
          ret (VRef v)
      end
  end.

(** An in-place operator [self op= other] with a scalar operand. *)
Definition inplace `{Ufuncs} (op : inplace_op) (self : loc) (other : Z) : py unit :=
  a <- get_array self ;;
  if negb (writeable a) then raise ValueError
  else
    d <- gets (elements_of a) ;;
    match elementwise op other d with
    | Ok d' => store_elements a 0 (take (length d) d')
    | Raise e => raise e
    end.

End nd.

(** ** [class TrackedArray(np.ndarray)] *)

Module TrackedArray.

(** [__array_finalize__(self, obj)]: a new instance starts modified; its
    source is [obj] when [obj] is a tracked array without a source, and the
    source of [obj] when it has one. *)
Definition __array_finalize__ (self obj : loc) : py unit :=
  set_slots self {| _modified := true; _source := None |} ;;
  o <- get_array obj ;;
  match tracked o with
  | Some so =>
      match _source so with
      | None => set_slots self {| _modified := true; _source := Some obj |}
      | Some src => set_slots self {| _modified := true; _source := Some src |}
      end
  | None => ret tt
  end.


Definition set_mutable (self : loc) (value : bool) : py unit :=
  set_writeable self value.

(** [_set_modified]: flag this array and, when [_source] is a tracked
    array, the source. *)
Definition _set_modified (self : loc) : py unit :=
  set_modified self true ;;
  a <- get_array self ;;
  let source := tracked a ≫= _source in
  is_ours <- isinstance_TrackedArray source ;;
  match source with
  | Some src => if is_ours then set_modified src true else ret tt
  | None => ret tt
  end.

(** [copy] gives a plain [np.ndarray]: no more tracking. *)
Definition copy (self : loc) : py loc := nd.copy self.

(** [view]: the view of the base class, then write-protected. *)
Definition view (self : loc) : py loc :=
  a <- get_array self ;;
  v <- nd.new_view __array_finalize__ self (shape a) (offset a) ;;
  set_writeable v false ;;
  ret v.

(** [__iadd__], [__isub__], ... : flag, then the operator of the base
    class. *)
Definition inplace `{Ufuncs} (op : inplace_op) (self : loc) (other : Z) : py unit :=
  _set_modified self ;;
  nd.inplace op self other.

Definition __iadd__ `{Ufuncs} := inplace Iadd.
Definition __isub__ `{Ufuncs} := inplace Isub.
Definition __imul__ `{Ufuncs} := inplace Imul.
Definition __itruediv__ `{Ufuncs} := inplace Itruediv.
Definition __imatmul__ `{Ufuncs} := inplace Imatmul.
Definition __ipow__ `{Ufuncs} := inplace Ipow.
Definition __imod__ `{Ufuncs} := inplace Imod.
Definition __ifloordiv__ `{Ufuncs} := inplace Ifloordiv.
Definition __ilshift__ `{Ufuncs} := inplace Ilshift.
Definition __irshift__ `{Ufuncs} := inplace Irshift.
Definition __iand__ `{Ufuncs} := inplace Iand.
Definition __ixor__ `{Ufuncs} := inplace Ixor.
Definition __ior__ `{Ufuncs} := inplace Ior.

(** [__idiv__] and [__setslice__] are hooks of Python 2.  The source is
    Python 3 (it uses f-strings), where [np.ndarray] has neither: the
    lookup on the base class fails after the flags are set. *)
Definition __idiv__ (self : loc) (other : Z) : py unit :=
  _set_modified self ;;
  raise AttributeError.

Definition __setslice__ (self : loc) (start stop : nat) (v : Z) : py unit :=
  _set_modified self ;;
  raise AttributeError.

Definition __setitem__ (self : loc) (key : index) (v : Z) : py unit :=
  _set_modified self ;;
  nd.__setitem__ self key v.

(** [__getslice__]: flags the array, reads through [__getitem__] of the
    base class and write-protects the result when it is an array. *)
Definition __getslice__ (self : loc) (key : index) : py value :=
  _set_modified self ;;
  slices <- nd.__getitem__ __array_finalize__ self key ;;
  match slices with
  | VRef l => set_writeable l false
  | _ => ret tt
  end ;;
  ret slices.

(** [a[key]] in Python 3: the class does not define [__getitem__], so the
    read is the one of the base class; [__getslice__] is not consulted. *)
Definition subscript (self : loc) (key : index) : py value :=
  nd.__getitem__ __array_finalize__ self key.

End TrackedArray.

(** Every in-place mutator of the class, with its arguments. *)
Inductive mutator :=
| MInplace (op : inplace_op) (other : Z)
| MIdiv (other : Z)
| MSetitem (key : index) (v : Z)
| MSetslice (start stop : nat) (v : Z).

Definition mutate `{Ufuncs} (m : mutator) (self : loc) : py unit :=
  match m with
  | MInplace op other => TrackedArray.inplace op self other
  | MIdiv other => TrackedArray.__idiv__ self other
  | MSetitem key v => TrackedArray.__setitem__ self key v
  | MSetslice start stop v => TrackedArray.__setslice__ self start stop v
  end.

(** [a[key] = v] on an array of either class: the [__setitem__] of the
    class of the array at [l]. *)
Definition assign_item (l : loc) (key : index) (v : Z) : py unit :=
  a <- get_array l ;;
  match tracked a with
  | Some _ => TrackedArray.__setitem__ l key v
  | None => nd.__setitem__ l key v
  end.

(** ** numpy: versions, integer dtypes and array-like input *)

(** The major version of numpy at hand; numpy 1 stands for its releases
    from 1.24 on, which refuse ragged input as numpy 2 does.  Two things
    the code relies on changed with version 2: what the conversion of a
    Python integer does when the dtype cannot hold it, and the shape of
    the inverse that [np.unique] returns. *)
Class Numpy := { numpy2 : bool }.

Definition numpy_1 : Numpy := {| numpy2 := false |}.
Definition numpy_2 : Numpy := {| numpy2 := true |}.

(** An integer dtype is represented by its item size in bytes.  The bytes
    of an element are its two's complement, least significant byte first. *)
Definition in_range (itemsize : nat) (z : Z) : bool :=
  (- 2 ^ (8 * Z.of_nat itemsize - 1) <=? z) && (z <? 2 ^ (8 * Z.of_nat itemsize - 1)).

(** The number of the dtype with the low bytes of [z]: what a cast in C
    leaves. *)
Definition wrap (itemsize : nat) (z : Z) : Z :=
  let m := 2 ^ (8 * Z.of_nat itemsize) in
  let r := z mod m in
  if 2 * r <? m then r else r - m.

(** Array-like Python objects: [None], a number, or a (nested) list. *)
#[warnings="-register-all"]
Inductive array_like :=
| ANone
| ANum (z : Z)
| ASeq (l : list array_like).

(** What is passed where an array is expected: an array-like object, or an
    integer [np.ndarray] (C-contiguous, of any integer dtype), given by its
    elements. *)
Inductive array_arg :=
| AObj (a : array_like)
| AArr (a : array_like).

Coercion AObj : array_like >-> array_arg.

(** Stacking the coerced items of a list: all of one shape, or the input
    is ragged. *)
Fixpoint stack (items : list (result (list nat * list (option Z))))
    : result (option (list nat) * list (option Z)) :=
  match items with
  | [] => Ok (None, [])
  | Raise e :: _ => Raise e
  | Ok (s, d) :: rest =>
      match stack rest with
      | Raise e => Raise e
      | Ok (None, _) => Ok (Some s, d)
      | Ok (Some s', d') =>
          if decide (s = s') then Ok (Some s, d ++ d') else Raise ValueError
      end
  end.

(** Shape and cells of array-like input, as numpy discovers them: a number
    is a cell, and so is [None] (the cell [None] of an object array). *)
Fixpoint coerce (a : array_like) : result (list nat * list (option Z)) :=
  match a with
  | ANone => Ok ([], [None])
  | ANum z => Ok ([], [Some z])
  | ASeq l =>
      match stack (map coerce l) with
      | Raise e => Raise e
      | Ok (None, _) => Ok ([0%nat], [])
      | Ok (Some s, d) => Ok (length l :: s, d)
      end
  end.

(** The conversion of one cell to the integer dtype of [itemsize] bytes.
    [None] is no number.  A number the dtype cannot hold is cast as in C
    when it comes from an integer array ([from_array]); a Python integer
    is refused by numpy 2, and by numpy 1 cast when it fits a C [long]
    (8 bytes) and refused otherwise. *)
Definition convert `{Numpy} (from_array : bool) (itemsize : nat) (c : option Z)
    : result Z :=
  match c with
  | None => Raise TypeError
  | Some z =>
      if in_range itemsize z then Ok z
      else if from_array then Ok (wrap itemsize z)
      else if numpy2 then Raise OverflowError
      else if in_range 8 z then Ok (wrap itemsize z)
      else Raise OverflowError
  end.

(** The cells are converted in order; the first that fails ends the
    conversion. *)
Fixpoint convert_all `{Numpy} (from_array : bool) (itemsize : nat)
    (cells : list (option Z)) : result (list Z) :=
  match cells with
  | [] => Ok []
  | c :: rest =>
      match convert from_array itemsize c with
      | Raise e => Raise e
      | Ok z =>
          match convert_all from_array itemsize rest with
          | Raise e => Raise e
          | Ok d => Ok (z :: d)
          end
      end
  end.

(** The elements of the array numpy builds from the cells.  Without a
    dtype the numbers are kept as they are; a cell [None] then makes an
    object array, whose cell [None] the store of this model, which holds
    numbers, shows as [0]. *)
Definition astype `{Numpy} (from_array : bool) (dtype : option nat)
    (cells : list (option Z)) : result (list Z) :=
  match dtype with
  | None => Ok (default 0 <$> cells)
  | Some itemsize => convert_all from_array itemsize cells
  end.

(** Shape and elements of [np.ascontiguousarray(array, dtype)] for an
    array-like object: at least one dimension, and the elements converted
    to the dtype. *)
Definition np_ascontiguousarray `{Numpy} (array : array_like) (dtype : option nat)
    : result (list nat * list Z) :=
  match coerce array with
  | Raise e => Raise e
  | Ok (s, cells) =>
      match astype false dtype cells with
      | Raise e => Raise e
      | Ok d => Ok (match s with [] => [1%nat] | _ => s end, d)
      end
  end.

(** ** [make_tracked_array] *)

(** [np.ascontiguousarray(array, dtype)] in the store: a new plain array. *)
Definition ascontiguousarray `{Numpy} (array : array_like) (dtype : option nat)
    : py loc :=
  match np_ascontiguousarray array dtype with
  | Raise e => raise e
  | Ok (s, d) =>
      b <- alloc_buffer d ;;
      alloc_array {| tracked := None; writeable := true; shape := s;
                     buffer := b; offset := 0 |}
  end.

(** [tracked.copy().view(TrackedArray)] on a plain array: the copy of the
    base class, then a view of it as an instance of the subclass. *)
Definition view_as_TrackedArray (obj : loc) : py loc :=
  a <- get_array obj ;;
  new <- alloc_array {| tracked := Some {| _modified := false; _source := None |};
                        writeable := writeable a; shape := shape a;
                        buffer := buffer a; offset := offset a |} ;;
  TrackedArray.__array_finalize__ new obj ;;
  ret new.

Definition make_tracked_array `{Numpy} (array : array_like) (dtype : option nat)
    (copy : bool) : py loc :=
  let array := match array with ANone => ASeq [] | _ => array end in
  tracked <- ascontiguousarray array dtype ;;
  tracked <- (if copy
              then c <- nd.copy tracked ;; view_as_TrackedArray c
              else ret tracked) ;;
  (* assert tracked.flags['C_CONTIGUOUS']: every array here is contiguous *)
  ret tracked.

(** ** [class DataHolder] *)

Module DataHolder.

(** [__setitem__] raises, whatever the key, the value and the state. *)
Definition __setitem__ (key : string) (v : value) : py unit :=
  raise NotImplementedError.

Definition __getitem__ (key : string) : py value :=
  saved <- gets _saved ;;
  match saved !! key with
  | Some v => ret v
  | None => raise KeyError
  end.

Definition get (key : string) (default_values : value) : py value :=
  saved <- gets _saved ;;
  ret (default default_values (saved !! key)).

(** [keys()], [values()] and [items()] as the entries they range over; the
    insertion order of the dict is not modelled. *)
Definition keys : py (gset string) := gets (fun w => dom (_saved w)).

Definition items : py (list (string * value)) :=
  gets (fun w => map_to_list (_saved w)).

Definition values : py (list value) :=
  gets (fun w => (map_to_list (_saved w)).*2).

End DataHolder.

(** ** [class ComputedData(DataHolder)] *)

(** The class attributes [_depends] and [_inv_depends].  [None] and the
    empty dict are not told apart: both have no entry. *)
Record registry := {
  _depends : gmap string (list string);
  _inv_depends : gmap string (list string)
}.

Definition no_registry : registry := {| _depends := ∅; _inv_depends := ∅ |}.

(** The registration part of the decorator [depends_on(var_names)] applied
    to the function named [func_name]. *)
Definition depends_on (var_names : list string) (func_name : string)
    (cls : registry) : registry :=
  {| _depends :=
       <[func_name := default [] (_depends cls !! func_name) ++ var_names]>
         (_depends cls);
     _inv_depends :=
       foldl (fun inv vn => <[vn := default [] (inv !! vn) ++ [func_name]]> inv)
             (_inv_depends cls) var_names |}.

(** The wrapped function applied to the arguments of one call of the
    wrapper: it reads and may change the world, and returns or raises.
    The arguments, which the wrapper passes on unchanged, are fixed in it;
    [function] and [inner] below make the keyword arguments explicit. *)
Definition computation : Type := World -> result value * World.

(** The call of the wrapped function: the one place where the call counter
    moves. *)
Definition call (name : string) (func : computation) : py value := fun w =>
  let '(r, w') := func w in Out r w' [name].

(** [getattr(self, name)] *)
Definition getattr (name : string) : py value :=
  a <- gets attrs ;;
  match a !! name with
  | Some v => ret v
  | None => raise AttributeError
  end.

(** [dependee._modified] *)
Definition get_modified (dependee : value) : py bool :=
  match dependee with
  | VRef l =>
      a <- get_array l ;;
      match tracked a with
      | Some s => ret (_modified s)
      | None => raise AttributeError
      end
  | _ => raise AttributeError
  end.

(** [dependee._modified = False] *)
Definition clear_modified (dependee : value) : py unit :=
  match dependee with
  | VRef l => set_modified l false
  | _ => raise AttributeError
  end.

(** [cls._depends[name]] and [cls._inv_depends[name]] *)
Definition lookup_depends (cls : registry) (name : string) : py (list string) :=
  match _depends cls !! name with
  | Some l => ret l
  | None => raise KeyError
  end.

Definition lookup_inv_depends (cls : registry) (name : string) : py (list string) :=
  match _inv_depends cls !! name with
  | Some l => ret l
  | None => raise KeyError
  end.

(** [self._computed._saved[key] = v] *)
Definition save (key : string) (v : value) : py unit :=
  modify (with_saved (insert key v)).

Definition is_not_None (v : value) : bool :=
  match v with VNone => false | _ => true end.

(** The first loop of [compute_or_return_saved]: every modified dependee
    evicts all the operations that depend on it. *)
Definition sweep (cls : registry) (name : string) : py unit :=
  deps <- lookup_depends cls name ;;
  for_each deps (fun dependee_str =>
    dependee <- getattr dependee_str ;;
    m <- get_modified dependee ;;
    if m then
      invs <- lookup_inv_depends cls dependee_str ;;
      for_each invs (fun inv => save inv VNone)
    else ret tt).

(** The last loop: press the NOT-modified button on every dependee. *)
Definition press_not_modified (cls : registry) (name : string) : py unit :=
  deps <- lookup_depends cls name ;;
  for_each deps (fun dependee_str =>
    dependee <- getattr dependee_str ;;
    clear_modified dependee).

(** [self._computed._saved.get(key, None)] *)
Definition saved_get (key : string) : py value :=
  gets (fun w => default VNone (_saved w !! key)).

(** The body of the wrapper the decorator returns for the function named
    [name], in one call: [recompute] and [return_saved] are what it reads
    from the keyword arguments of the call, and [func] is the wrapped
    function applied to the arguments of the call.  The early [return] of
    the escape is the [Some] branch of [escape]. *)
Definition compute_or_return_saved (cls : registry) (name : string)
    (func : computation) (recompute return_saved : bool) : py value :=
  escape <- (if return_saved then
               saved <- saved_get name ;;
               ret (if is_not_None saved && negb recompute
                    then Some saved else None)
             else ret None) ;;
  match escape with
  | Some saved => ret saved
  | None =>
      sweep cls name ;;
      saved <- saved_get name ;;
      if is_not_None saved && negb recompute then ret saved
      else
        computed <- call name func ;;
        match computed with
        | VRef l => set_writeable l false
        | _ => ret tt
        end ;;
        save name computed ;;
        press_not_modified cls name ;;
        ret computed
  end.

(** The keyword arguments of a call that the wrapper reads; each of them
    is passed or is not.  The positional arguments and the other keyword
    arguments are part of the function called. *)
Record kwargs := { kw_recompute : option bool; kw_return_saved : option bool }.

(** A function under the decorator: it receives the keyword arguments of
    the call of the wrapper, [recompute] and [return_saved] among them. *)
Definition function : Type := kwargs -> computation.

(** What [inner(func)] returns for the function named [name]: the wrapper,
    called with keyword arguments.  It reads [recompute] and
    [return_saved] with [kwargs.get(key, False)] and calls [func] with the
    arguments it was called with. *)
Definition inner (cls : registry) (name : string) (func : function)
    (kw : kwargs) : py value :=
  compute_or_return_saved cls name (func kw)
    (default false (kw_recompute kw)) (default false (kw_return_saved kw)).

(** A function that has no keyword parameters, as [def f(self)]: called
    with a keyword argument it raises [TypeError] at once; and a function
    that takes any keyword arguments and does not look at them. *)
Definition without_keywords (c : computation) : function :=
  fun kw =>
    match kw_recompute kw, kw_return_saved kw with
    | None, None => c
    | _, _ => fun w => (Raise TypeError, w)
    end.

Definition with_keywords (c : computation) : function := fun _ => c.

(** ** [unique_rows] *)

(** The bytes of an element of an integer dtype: its two's complement,
    least significant byte first. *)
Fixpoint le_bytes (itemsize : nat) (z : Z) : list Z :=
  match itemsize with
  | O => []
  | S n => z mod 256 :: le_bytes n (z / 256)
  end.

(** The row as the byte string the view [|S{itemsize * shape[1]}] shows. *)
Definition row_bytes (itemsize : nat) (row : list Z) : list Z :=
  mjoin (le_bytes itemsize <$> row).

(** Byte strings of one width compare byte by byte. *)
Fixpoint bytes_leb (a b : list Z) : bool :=
  match a, b with
  | [], _ => true
  | _ :: _, [] => false
  | x :: a', y :: b' => (x <? y) || ((x =? y) && bytes_leb a' b')
  end.

Definition bytes_le (a b : list Z) : Prop := Is_true (bytes_leb a b).

#[global] Instance bytes_le_dec : RelDecision bytes_le.
Proof. intros a b. unfold bytes_le. apply _. Defined.

(** The position of the first element equal to [k]. *)
Definition first_index (k : list Z) (l : list (list Z)) : nat :=
  match list_find (fun x => x = k) l with
  | Some (i, _) => i
  | None => 0
  end.

(** [np.unique(ar, return_index=True, return_inverse=True,
    return_counts=True)] on the elements of [ar] in order, by its
    contract: the sorted distinct elements, for each of them the index of
    its first occurrence, for each element of [ar] its position among the
    distinct ones, and the number of times each distinct element occurs.
    The positions are returned as a flat array by numpy 1 and in the shape
    of [ar] by numpy 2; [unique_rows] below gives them their shape. *)
Definition np_unique (ar : list (list Z))
    : list (list Z) * list nat * list nat * list nat :=
  let uniq := merge_sort bytes_le (remove_dups ar) in
  (uniq,
   (fun k => first_index k ar) <$> uniq,
   (fun k => first_index k uniq) <$> ar,
   (fun k => length (filter (fun x => x = k) ar)) <$> uniq).

(** The arrays [unique_rows] handles: byte strings, integer rows,
    one-dimensional arrays of indices or counts, an array of indices of
    shape [(n, 1)], and a three-dimensional array of integers. *)
Inductive nparray :=
| Keys (k : list (list Z))
| Rows (r : list (list Z))
| Ints (v : list nat)
| Column (v : list nat)
| Blocks (b : list (list (list Z))).

(** [make_c_contiguous(array, dtype)].  [None] stays [None].  An integer
    array (C-contiguous) is returned as it is, or through [astype] when
    its dtype is another: its elements are cast, its shape stays.  Every
    other input goes to [np.ascontiguousarray], which converts the items
    of a list one by one. *)
Definition make_c_contiguous `{Numpy} (array : array_arg) (dtype : option nat)
    : result (option (list nat * list Z)) :=
  match array with
  | AObj ANone => Ok None
  | AArr a =>
      match coerce a with
      | Raise e => Raise e
      | Ok (s, cells) =>
          match astype true dtype cells with
          | Raise e => Raise e
          | Ok d => Ok (Some (s, d))
          end
      end
  | AObj a =>
      match np_ascontiguousarray a dtype with
      | Raise e => Raise e
      | Ok r => Ok (Some r)
      end
  end.

(** [in_arr[ids]]: the rows at the given indices. *)
Definition take_rows (rows : list (list Z)) (ids : list nat) : option (list (list Z)) :=
  mapM (fun i => rows !! i) ids.


(** [unique_rows]; [INT_DTYPE] is [settings.INT_DTYPE], which the
    repository defines outside the files at hand.  The view
    [in_arr_row_view] has the shape [(n, 1)], which is the shape numpy 2
    gives the inverse. *)
Definition unique_rows `{Numpy} (INT_DTYPE : nat) (in_arr : array_arg)
    (return_index return_inverse return_counts : bool)
    (dtype_name : option nat) : result (list nparray) :=
  let dtype_name := default INT_DTYPE dtype_name in
  match make_c_contiguous in_arr (Some dtype_name) with
  | Raise e => Raise e
  | Ok None => Raise AttributeError
  | Ok (Some (shp, data)) =>
      match shp with
      | [n; m] =>
          (* a byte-string view needs a width *)
          if (dtype_name * m =? 0)%nat then Raise ValueError
          else
            let rows := reshape (replicate n m) data in
            let in_arr_row_view := row_bytes dtype_name <$> rows in
            let '(uniq, ids, inverse, counts) := np_unique in_arr_row_view in
            let unique_stuff :=
              [Keys uniq; Ints ids]
                ++ (if return_inverse
                    then [if numpy2 then Column inverse else Ints inverse]
                    else [])
                ++ (if return_counts then [Ints counts] else []) in
            (* switch view to original *)
            let unique_stuff :=
              <[0%nat := Rows (default [] (take_rows rows ids))]> unique_stuff in
            Ok (if return_index then unique_stuff else delete 1%nat unique_stuff)
      | _ => Raise ValueError
      end
  end.

(** A list of rows as array-like input. *)
Definition rows_literal (rows : list (list Z)) : array_like :=
  ASeq ((fun r => ASeq (ANum <$> r)) <$> rows).

(** ** Conditions on worlds and registries, and the worlds of the examples *)

(** The helpee attribute [d] is a tracked array. *)
Definition resolves (w : World) (d : string) : Prop :=
  exists l, attrs w !! d = Some (VRef l) /\ is_tracked w l.

(** Every dependency of a registered operation has its inverse entry, and
    the operation is listed there: what [depends_on] establishes. *)
Definition registered (cls : registry) (name d : string) : Prop :=
  exists deps invs,
    _depends cls !! name = Some deps /\ d ∈ deps /\
    _inv_depends cls !! d = Some invs /\ name ∈ invs.

Definition well_registered (cls : registry) : Prop :=
  forall name deps d,
    _depends cls !! name = Some deps -> d ∈ deps -> registered cls name d.

(** All the declared dependencies of [name] are tracked arrays of the
    helpee. *)
Definition ready (cls : registry) (name : string) (w : World) : Prop :=
  exists deps, _depends cls !! name = Some deps /\ Forall (resolves w) deps.

(** A computation that returns, and leaves alone the cache, the helpee's
    attributes and the class of the arrays it finds.  It may allocate,
    write elements and flags. *)
Definition well_behaved (func : computation) : Prop :=
  forall w, exists v w',
    func w = (Ok v, w') /\ _saved w' = _saved w /\ attrs w' = attrs w /\
    forall l, is_tracked w l -> is_tracked w' l.

Definition new_world : World :=
  {| arrays := []; buffers := []; attrs := ∅; _saved := ∅ |}.

(** [self.name = v] on the helpee. *)
Definition setattr (name : string) (v : value) : py unit :=
  modify (with_attrs (insert name v)).

(** Integer arithmetic without overflow for the operators that have an
    integer result; the others refuse the operand. *)
Definition sample_ufuncs : Ufuncs :=
  {| elementwise op other d :=
       match op with
       | Iadd => Ok ((fun x => x + other) <$> d)
       | Isub => Ok ((fun x => x - other) <$> d)
       | Imul => Ok ((fun x => x * other) <$> d)
       | Iand => Ok ((fun x => Z.land x other) <$> d)
       | Ior => Ok ((fun x => Z.lor x other) <$> d)
       | Ixor => Ok ((fun x => Z.lxor x other) <$> d)
       | _ => Raise TypeError
       end |}.

(** A holder type with two operations that depend on the attribute [x]. *)
Definition cls_fg : registry :=
  depends_on ["x"] "g" (depends_on ["x"] "f" no_registry).

(** The elements of the helpee attribute [name]. *)
Definition attr_elements (name : string) (w : World) : list Z :=
  match attrs w !! name with
  | Some (VRef l) =>
      match arrays w !! l with
      | Some a => elements_of a w
      | None => []
      end
  | _ => []
  end.

(** Two computations on [x]: the sum and the number of its elements; and
    one that returns [None]. *)
Definition func_sum : computation :=
  fun w => (Ok (VInt (foldr Z.add 0 (attr_elements "x" w))), w).

Definition func_len : computation :=
  fun w => (Ok (VInt (Z.of_nat (length (attr_elements "x" w)))), w).

Definition func_none : computation := fun w => (Ok VNone, w).

(** A helpee whose [x] is the tracked array of [1, 2, 3]. *)
Definition helpee_123 : World :=
  final ((x <- make_tracked_array (H := numpy_1)
                  (ASeq [ANum 1; ANum 2; ANum 3]) None true ;;
          setattr "x" (VRef x)) new_world).

(** ** The effect of the flag updates, as functions on worlds *)

Definition flag (b : bool) (l : loc) (w : World) : World :=
  with_arrays (alter (assign_modified b) l) w.

(** What [_set_modified] leaves behind: the flag of [self] raised, then the
    flag of the source when the source is a tracked array. *)
Definition flag_source (src : option loc) (w : World) : World :=
  match src with
  | Some l => if decide (is_tracked w l) then flag true l w else w
  | None => w
  end.

(** A computation that writes elements only: the array objects, the
    attributes and the cache are as before, and no registered computation
    runs. *)
Definition only_buffers {A} (c : py A) : Prop :=
  forall w, arrays (final (c w)) = arrays w /\ attrs (final (c w)) = attrs w /\
            _saved (final (c w)) = _saved w /\ calls (c w) = [].

(** The object [view] creates from the tracked array [a] at [b]. *)
Definition view_of (b : loc) (a : ndarray) : ndarray :=
  {| tracked := Some {| _modified := true;
                        _source := Some (default b (tracked a ≫= _source)) |};
     writeable := false; shape := shape a;
     buffer := buffer a; offset := offset a |}.

(** The object the read [a[start:stop]] creates from the tracked array [a]
    at [self], whose first axis has length [n]: a view of the rows
    [start..stop), of the class and with the write permission of [a]. *)
Definition slice_of (self : loc) (a : ndarray) (n : nat) (rest : list nat)
    (start stop : nat) : ndarray :=
  {| tracked := Some {| _modified := true;
                        _source := Some (default self (tracked a ≫= _source)) |};
     writeable := writeable a;
     shape := (Nat.min stop n - Nat.min start n)%nat :: rest;
     buffer := buffer a;
     offset := (offset a + Nat.min start n * product rest)%nat |}.

(** ** The effect of the cache loops, as functions on worlds *)

(** Storing [None] under each of [keys]. *)
Definition evict (keys : list string) (m : gmap string value) : gmap string value :=
  foldl (fun m k => <[k := VNone]> m) m keys.

(** The array the attribute [d] of the helpee refers to. *)
Definition attr_loc (w : World) (d : string) : option loc :=
  match attrs w !! d with
  | Some (VRef l) => Some l
  | _ => None
  end.

(** The operations a dependee evicts: all that depend on it when it is
    modified, none otherwise. *)
Definition stale (cls : registry) (w : World) (d : string) : list string :=
  match attr_loc w d ≫= modified_at w with
  | Some true => default [] (_inv_depends cls !! d)
  | _ => []
  end.

Definition sweep_keys (cls : registry) (w : World) (deps : list string) : list string :=
  deps ≫= stale cls w.

(** The world after the sweep for the operation [name]. *)
Definition swept (cls : registry) (name : string) (w : World) : World :=
  with_saved (evict (sweep_keys cls w (default [] (_depends cls !! name)))) w.

(** The world after the NOT-modified button was pressed on [deps]. *)
Definition unflagged (deps : list string) (w : World) : World :=
  foldl (fun w d => match attr_loc w d with
                    | Some l => flag false l w
                    | None => w
                    end) w deps.

(** The write protection of a computed array. *)
Definition protect (computed : value) (w : World) : World :=
  match computed with
  | VRef l =>
      with_arrays (alter (fun a =>
        {| tracked := tracked a; writeable := false; shape := shape a;
           buffer := buffer a; offset := offset a |}) l) w
  | _ => w
  end.

(** ** Worlds of the examples, continued *)

(** The helpee after [f] was evaluated once. *)
Definition helpee_f_cached : World :=
  final (compute_or_return_saved cls_fg "f" func_sum false false helpee_123).

(** A helpee whose [x] is a view [b] of the tracked array [c], after [f]
    consumed it: [b] is not modified any more. *)
Definition helpee_view_consumed : World :=
  final ((b <- TrackedArray.view 2%nat ;;
          setattr "x" (VRef b) ;;
          compute_or_return_saved cls_fg "f" func_sum false false) helpee_123).

(** [n] calls in a row. *)
Fixpoint call_n (c : py value) (n : nat) : py unit :=
  match n with
  | O => ret tt
  | S n' => c ;; call_n c n'
  end.

(** A computation that always returns [None]. *)
Definition returns_None (func : computation) : Prop :=
  forall w, (func w).1 = Ok VNone.

(** ** [is_shape], [is_one_of_shapes] *)

(** [np.asanyarray(arr).shape]: the shape numpy derives, with [None] an
    element like any other (numpy makes an object array of it). *)
Fixpoint as_elements (a : array_like) : array_like :=
  match a with
  | ANone => ANum 0
  | ANum z => ANum z
  | ASeq l => ASeq (map as_elements l)
  end.

Definition asanyarray_shape (arr : array_like) : result (list nat) :=
  match coerce (as_elements arr) with
  | Ok (s, _) => Ok s
  | Raise e => Raise e
  end.

(** The loop of [is_shape] over [zip(arr.shape, shape)]. *)
Fixpoint is_shape_loop (pairs : list (nat * Z)) (strict : bool) : result bool :=
  match pairs with
  | [] => Ok true
  | (a, s) :: rest =>
      if s <? 0 then is_shape_loop rest strict
      else if negb (Z.of_nat a =? s)
           then (if strict then Raise ValueError else Ok false)
           else is_shape_loop rest strict
  end.

Definition is_shape (arr : array_like) (shape : list Z) (strict : bool) : result bool :=
  match asanyarray_shape arr with
  | Raise e => Raise e
  | Ok arr_shape =>
      if negb (length arr_shape =? length shape)%nat
      then (if strict then Raise ValueError else Ok false)
      else is_shape_loop (zip arr_shape shape) strict
  end.

(** The loop of [is_one_of_shapes]: every candidate is tried, none ends the
    loop. *)
Fixpoint is_one_of_shapes_loop (arr : array_like) (shapes : list (list Z))
    (matches : bool) : result bool :=
  match shapes with
  | [] => Ok matches
  | s :: rest =>
      match is_shape arr s false with
      | Raise e => Raise e
      | Ok m => is_one_of_shapes_loop arr rest (if m then true else matches)
      end
  end.

Definition is_one_of_shapes (arr : array_like) (shapes : list (list Z))
    (strict : bool) : result bool :=
  match asanyarray_shape arr with
  | Raise e => Raise e
  | Ok _ =>
      match is_one_of_shapes_loop arr shapes false with
      | Raise e => Raise e
      | Ok matches =>
          if negb matches
          then (if strict then Raise ValueError else Ok false)
          else Ok true
      end
  end.

(** A shape fits a pattern: as many axes, and each axis as long as the
    pattern says where the pattern is not negative. *)
Definition fits (arr_shape : list nat) (shape : list Z) : bool :=
  (length arr_shape =? length shape)%nat
  && forallb (fun p => (p.2 <? 0) || (Z.of_nat p.1 =? p.2)) (zip arr_shape shape).

(** ** [select_with_ranges] and [bounds]

    Both compare elements and do no arithmetic on them; the arrays are
    two-dimensional, given by the number of columns and the rows, with
    integer elements. *)

(** [arr[:, i]] *)
Definition column (ncols : nat) (rows : list (list Z)) (i : nat) : result (list Z) :=
  if (i <? ncols)%nat then Ok ((fun r => default 0 (r !! i)) <$> rows)
  else Raise IndexError.

(** The first loop of [select_with_ranges], from column [i] on: one mask
    for each range that is not [None]. *)
Fixpoint range_masks (ncols : nat) (rows : list (list Z)) (i : nat)
    (ranges : list (option (Z * Z))) : result (list (list bool)) :=
  match ranges with
  | [] => Ok []
  | None :: rest => range_masks ncols rows (S i) rest
  | Some (r0, r1) :: rest =>
      match column ncols rows i with
      | Raise e => Raise e
      | Ok col =>
          let lower := (fun x => r0 <? x) <$> col in
          let upper := (fun x => x <? r1) <$> col in
          let m := if r0 <? r1 then zip_with andb lower upper
                   else zip_with orb lower upper in
          match range_masks ncols rows (S i) rest with
          | Raise e => Raise e
          | Ok masks => Ok (m :: masks)
          end
      end
  end.

(** The second loop: the first mask is or-ed to the zeros, the others are
    and-ed. *)
Fixpoint fold_masks (i : nat) (mask : list bool) (masks : list (list bool)) : list bool :=
  match masks with
  | [] => mask
  | m :: rest =>
      fold_masks (S i)
        (if (i =? 0)%nat then zip_with orb mask m else zip_with andb mask m) rest
  end.

(** [np.arange(n)[mask]] *)
Definition where_true (mask : list bool) : list nat :=
  (filter (fun p => p.2 = true) (zip (seq 0 (length mask)) mask)).*1.

Definition select_with_ranges (ncols : nat) (rows : list (list Z))
    (ranges : list (option (Z * Z))) : result (list nat) :=
  match range_masks ncols rows 0 ranges with
  | Raise e => Raise e
  | Ok masks =>
      if (1 <? length masks)%nat
      then Ok (where_true (fold_masks 0 (replicate (length rows) false) masks))
      else match masks with
           | m :: _ => Ok (where_true m)
           | [] => Raise IndexError
           end
  end.

(** What a range asks of an element: strictly inside when the range is
    ascending, strictly outside the closed interval otherwise. *)
Definition in_window (r : Z * Z) (x : Z) : bool :=
  if r.1 <? r.2 then (r.1 <? x) && (x <? r.2) else (r.1 <? x) || (x <? r.2).

(** [bounds]: the minimum and the maximum of each column.  Rows of
    different lengths are no array, and a reduction over no rows has no
    value to return: [ValueError] in both cases. *)
Definition bounds (rows : list (list Z)) : result (list (list Z)) :=
  match rows with
  | [] => Raise ValueError
  | r :: rest =>
      if forallb (fun r' => (length r' =? length r)%nat) rest
      then Ok [foldl (zip_with Z.min) r rest; foldl (zip_with Z.max) r rest]
      else Raise ValueError
  end.

(** ** [unique_rows]: well-formed input *)

(** A two-dimensional integer input of the dtype: at least one row, rows of
    one positive length, numbers the dtype can hold. *)
Definition integer_rows (itemsize m : nat) (rows : list (list Z)) : Prop :=
  (0 < itemsize)%nat /\ (0 < m)%nat /\ rows <> [] /\
  Forall (fun r => length r = m /\ Forall (fun z => in_range itemsize z = true) r) rows.

(** The rows passed as a list of lists, or as an integer array. *)
Definition rows_input (in_arr : array_arg) (rows : list (list Z)) : Prop :=
  in_arr = AObj (rows_literal rows) \/ in_arr = AArr (rows_literal rows).

(** ** Further observations on worlds *)

(** The elements seen through the array object at [l]. *)
Definition elements_at (w : World) (l : loc) : option (list Z) :=
  (fun a => elements_of a w) <$> arrays w !! l.

(** Source chains have one hop: the source of a tracked array has no
    source of its own. *)
Definition roots_only (w : World) : Prop :=
  forall l src, source_at w l = Some (Some src) -> source_at w src = Some None.

(** A sequence of registrations, the first of the list first. *)
Definition register_all (regs : list (list string * string)) : registry :=
  foldl (fun cls reg => depends_on reg.1 reg.2 cls) no_registry regs.

(** A dependency the wrapper cannot read [_modified] from: the attribute
    is missing, is not an array, or is a plain [np.ndarray]. *)
Definition unreadable (w : World) (d : string) : Prop :=
  match attrs w !! d with
  | None | Some VNone | Some (VInt _) => True
  | Some (VRef l) =>
      match arrays w !! l with
      | Some a => tracked a = None
      | None => False
      end
  end.


(** A computation that returns the helpee's [x] itself, and one that
    raises. *)
Definition func_x : computation :=
  fun w => (Ok (default VNone (attrs w !! "x")), w).

Definition func_fails : computation := fun w => (Raise ValueError, w).

(** A computation for [g] that evaluates [f], as [return self.f()] does.
    What a function calls is part of that function: the trace of a call of
    a wrapper lists the functions which that wrapper invokes. *)
Definition func_g_evaluates_f : computation := fun w =>
  let o := compute_or_return_saved cls_fg "f" func_sum false false w in
  (res o, final o).

(** A helpee whose [x] was made with [copy=False]. *)
Definition helpee_plain : World :=
  final ((x <- make_tracked_array (H := numpy_1)
                  (ASeq [ANum 1; ANum 2; ANum 3]) None false ;;
          setattr "x" (VRef x)) new_world).

(** * Properties *)

(** ** The monad *)

Lemma bind_Ok {A B} (c : py A) (k : A -> py B) w a w1 t1 :
  c w = Out (Ok a) w1 t1 ->
  bind c k w = Out (res (k a w1)) (final (k a w1)) (t1 ++ calls (k a w1)).
Proof. intros E. unfold bind. by rewrite E. Qed.

Lemma bind_Raise {A B} (c : py A) (k : A -> py B) w e w1 t1 :
  c w = Out (Raise e) w1 t1 -> bind c k w = Out (Raise e) w1 t1.
Proof. intros E. unfold bind. by rewrite E. Qed.

Lemma bind_run {A B} (c : py A) (k : A -> py B) w a w1 t1 r w2 t2 :
  c w = Out (Ok a) w1 t1 -> k a w1 = Out r w2 t2 ->
  bind c k w = Out r w2 (t1 ++ t2).
Proof. intros E1 E2. unfold bind. by rewrite E1, E2. Qed.

Lemma get_array_Some l a w :
  arrays w !! l = Some a -> get_array l w = Out (Ok a) w [].
Proof. intros E. unfold get_array. by rewrite E. Qed.

(** ** Flags in the store *)

Lemma modified_at_flag_eq b l w :
  is_tracked w l -> modified_at (flag b l w) l = Some b.
Proof.
  intros [b' Hb]. unfold modified_at, flag in *. simpl.
  rewrite list_lookup_alter_eq.
  destruct (arrays w !! l) as [a|]; [|done]. simpl in *.
  destruct (tracked a); done.
Qed.

Lemma modified_at_flag_ne b l l' w :
  l <> l' -> modified_at (flag b l w) l' = modified_at w l'.
Proof.
  intros Hne. unfold modified_at, flag. simpl. by rewrite list_lookup_alter_ne.
Qed.

Lemma modified_at_flag_mono l l' w :
  modified_at w l' = Some true -> modified_at (flag true l w) l' = Some true.
Proof.
  intros H. destruct (decide (l = l')) as [->|Hne].
  - apply modified_at_flag_eq. by exists true.
  - by rewrite modified_at_flag_ne.
Qed.

Lemma is_tracked_flag b l l' w : is_tracked (flag b l w) l' <-> is_tracked w l'.
Proof.
  unfold is_tracked, modified_at, flag. simpl.
  destruct (decide (l = l')) as [->|Hne].
  - rewrite list_lookup_alter_eq. destruct (arrays w !! l') as [a|]; simpl; [|done].
    destruct (tracked a); simpl; split; intros [? ?]; eauto.
  - by rewrite list_lookup_alter_ne.
Qed.

Lemma source_at_flag b l l' w : source_at (flag b l w) l' = source_at w l'.
Proof.
  unfold source_at, flag. simpl.
  destruct (decide (l = l')) as [->|Hne].
  - rewrite list_lookup_alter_eq. destruct (arrays w !! l') as [a|]; simpl; [|done].
    by destruct (tracked a).
  - by rewrite list_lookup_alter_ne.
Qed.

Lemma writeable_at_flag b l l' w : writeable_at (flag b l w) l' = writeable_at w l'.
Proof.
  unfold writeable_at, flag. simpl.
  destruct (decide (l = l')) as [->|Hne].
  - rewrite list_lookup_alter_eq. by destruct (arrays w !! l').
  - by rewrite list_lookup_alter_ne.
Qed.

Lemma set_modified_tracked l b w :
  is_tracked w l -> set_modified l b w = Out (Ok tt) (flag b l w) [].
Proof.
  intros [b' Hb]. unfold set_modified, bind, get_array, modified_at in *.
  destruct (arrays w !! l) as [a|]; [|done]. simpl in *.
  destruct (tracked a); done.
Qed.


Lemma source_at_lookup w l a :
  arrays w !! l = Some a -> source_at w l = _source <$> tracked a.
Proof. intros E. unfold source_at. rewrite E. simpl. by destruct (tracked a). Qed.

Lemma is_tracked_lookup w l :
  is_tracked w l -> exists a s, arrays w !! l = Some a /\ tracked a = Some s.
Proof.
  intros [b Hb]. unfold modified_at in Hb.
  destruct (arrays w !! l) as [a|]; [|done]. simpl in Hb.
  destruct (tracked a) as [s|] eqn:E; [|done]. by exists a, s.
Qed.

(** [_set_modified] on a tracked array: it returns, and the store differs
    by the two flags only. *)
Lemma set_modified_run self w :
  is_tracked w self ->
  TrackedArray._set_modified self w
  = Out (Ok tt) (flag_source (default None (source_at w self)) (flag true self w)) [].
Proof.
  intros Ht. unfold TrackedArray._set_modified.
  eapply (bind_run _ _ _ _ _ []); [by apply set_modified_tracked|].
  pose proof (proj2 (is_tracked_flag true self self w) Ht) as Ht'.
  destruct (is_tracked_lookup _ _ Ht') as (a' & s' & Ha' & Hs').
  eapply (bind_run _ _ _ _ _ []); [by apply get_array_Some|].
  rewrite <- (source_at_flag true self self w), (source_at_lookup _ _ _ Ha'), Hs'.
  simpl. destruct (_source s') as [src|]; simpl.
  - unfold bind, isinstance_TrackedArray, gets. simpl.
    case_bool_decide as Hd.
    + rewrite decide_True by done. by rewrite set_modified_tracked.
    + by rewrite decide_False.
  - done.
Qed.

Lemma flag_source_frame src w :
  attrs (flag_source src w) = attrs w /\ _saved (flag_source src w) = _saved w /\
  buffers (flag_source src w) = buffers w.
Proof. destruct src as [l|]; simpl; [case_decide|]; done. Qed.

Lemma modified_at_flag_source_mono src w l :
  modified_at w l = Some true -> modified_at (flag_source src w) l = Some true.
Proof.
  intros H. destruct src as [l'|]; simpl; [|done].
  case_decide; [|done]. by apply modified_at_flag_mono.
Qed.

Lemma is_tracked_flag_source src w l :
  is_tracked (flag_source src w) l <-> is_tracked w l.
Proof.
  destruct src as [l'|]; simpl; [|done]. case_decide; [|done]. apply is_tracked_flag.
Qed.

Lemma writeable_at_flag_source src w l :
  writeable_at (flag_source src w) l = writeable_at w l.
Proof.
  destruct src as [l'|]; simpl; [|done]. case_decide; [|done]. apply writeable_at_flag.
Qed.

(** ** The operations of the base class write elements only *)

Lemma only_buffers_raise {A} e : only_buffers (@raise A e).
Proof. by intros w. Qed.

Lemma only_buffers_store a start new : only_buffers (store_elements a start new).
Proof. by intros w. Qed.

Lemma only_buffers_get_array_bind {A} l (k : ndarray -> py A) :
  (forall a, only_buffers (k a)) -> only_buffers (bind (get_array l) k).
Proof.
  intros Hk w. unfold bind, get_array.
  destruct (arrays w !! l) as [a|]; simpl; [|done].
  destruct (Hk a w) as (?&?&?&?). by rewrite H2.
Qed.

Lemma nd_setitem_only_buffers self key v : only_buffers (nd.__setitem__ self key v).
Proof.
  apply only_buffers_get_array_bind. intros a.
  destruct (writeable a); simpl; [|apply only_buffers_raise].
  destruct (shape a) as [|n rest]; [apply only_buffers_raise|].
  destruct key as [i|start stop].
  - destruct (normalise n i); [apply only_buffers_store|apply only_buffers_raise].
  - apply only_buffers_store.
Qed.

Lemma nd_inplace_only_buffers `{Ufuncs} op self other :
  only_buffers (nd.inplace op self other).
Proof.
  apply only_buffers_get_array_bind. intros a.
  destruct (writeable a); simpl; [|apply only_buffers_raise].
  intros w. unfold bind, gets. simpl.
  destruct (elementwise op other (elements_of a w)); done.
Qed.

Lemma nd_setitem_read_only self key v w :
  writeable_at w self = Some false ->
  nd.__setitem__ self key v w = Out (Raise ValueError) w [].
Proof.
  unfold writeable_at, nd.__setitem__, bind, get_array.
  destruct (arrays w !! self) as [a|]; simpl; [|done].
  intros [= ->]. done.
Qed.

(** Every mutator starts with [_set_modified]; what follows writes
    elements only, or raises. *)
Lemma mutate_shape `{Ufuncs} m self :
  exists rest : py unit, only_buffers rest /\
    mutate m self = bind (TrackedArray._set_modified self) (fun _ => rest).
Proof.
  destruct m as [op other|other|key v|start stop v]; simpl.
  - exists (nd.inplace op self other). split; [apply nd_inplace_only_buffers|done].
  - exists (raise AttributeError). split; [apply only_buffers_raise|done].
  - exists (nd.__setitem__ self key v). split; [apply nd_setitem_only_buffers|done].
  - exists (raise AttributeError). split; [apply only_buffers_raise|done].
Qed.

(** The world a mutator leaves: the flags of [_set_modified], and
    elements. *)
Lemma mutate_run `{Ufuncs} m self w :
  is_tracked w self ->
  let w1 := flag_source (default None (source_at w self)) (flag true self w) in
  exists r w', mutate m self w = Out r w' [] /\
    arrays w' = arrays w1 /\ attrs w' = attrs w /\ _saved w' = _saved w.
Proof.
  intros Ht w1. subst w1. destruct (mutate_shape m self) as (rest & Hrest & ->).
  set (w1 := flag_source (default None (source_at w self)) (flag true self w)).
  rewrite (bind_Ok _ _ _ _ _ _ (set_modified_run _ _ Ht)).
  fold w1. destruct (Hrest w1) as (Ha & Hat & Hs & Hc). rewrite Hc. simpl.
  eexists _, _. split; [done|]. rewrite Ha, Hat, Hs.
  destruct (flag_source_frame (default None (source_at w self)) (flag true self w))
    as (Hf1 & Hf2 & _). unfold w1. by rewrite Hf1, Hf2.
Qed.

Lemma modified_at_arrays w w' l :
  arrays w' = arrays w -> modified_at w' l = modified_at w l.
Proof. unfold modified_at. by intros ->. Qed.

Lemma is_tracked_arrays w w' l :
  arrays w' = arrays w -> is_tracked w' l <-> is_tracked w l.
Proof. unfold is_tracked. intros E. by rewrite (modified_at_arrays _ _ _ E). Qed.

(** A mutator flags the array it is applied to. *)
Lemma mutate_flags_self `{Ufuncs} m self w :
  is_tracked w self -> modified_at (final (mutate m self w)) self = Some true.
Proof.
  intros Ht. destruct (mutate_run m self w Ht) as (r & w' & -> & Ha & _). simpl.
  rewrite (modified_at_arrays _ _ _ Ha).
  apply modified_at_flag_source_mono. by apply modified_at_flag_eq.
Qed.

(** A mutator flags the source of the array it is applied to. *)
Lemma mutate_flags_source `{Ufuncs} m self src w :
  source_at w self = Some (Some src) -> is_tracked w src ->
  modified_at (final (mutate m self w)) src = Some true.
Proof.
  intros Hs Hsrc.
  assert (Ht : is_tracked w self).
  { unfold is_tracked, modified_at, source_at in *.
    destruct (arrays w !! self) as [a|]; [|done]. simpl in *.
    destruct (tracked a); [by eexists|done]. }
  destruct (mutate_run m self w Ht) as (r & w' & -> & Ha & _). simpl.
  rewrite (modified_at_arrays _ _ _ Ha), Hs. simpl.
  rewrite decide_True by by apply is_tracked_flag.
  apply modified_at_flag_eq. by apply is_tracked_flag.
Qed.

Lemma mutate_keeps_tracked `{Ufuncs} m self w l :
  is_tracked w self -> is_tracked (final (mutate m self w)) l <-> is_tracked w l.
Proof.
  intros Ht. destruct (mutate_run m self w Ht) as (r & w' & -> & Ha & _). simpl.
  rewrite (is_tracked_arrays _ _ _ Ha), is_tracked_flag_source. apply is_tracked_flag.
Qed.

(** ** Views *)

Lemma alter_new {A} (f : A -> A) (h : list A) (x : A) :
  alter f (length h) (h ++ [x]) = h ++ [f x].
Proof.
  replace (length h) with (length h + 0)%nat by lia.
  by rewrite alter_app_r.
Qed.

(** [view] of a tracked array allocates one object: modified,
    write-protected, on the same storage, with the root as its source. *)
Lemma view_run b a s w :
  arrays w !! b = Some a -> tracked a = Some s ->
  TrackedArray.view b w
  = Out (Ok (length (arrays w))) (with_arrays (fun h => h ++ [view_of b a]) w) [].
Proof.
  intros Ha Hs.
  unfold TrackedArray.view, nd.new_view, TrackedArray.__array_finalize__.
  unfold bind, get_array, alloc_array, set_slots, set_writeable, modify, ret.
  rewrite Ha. simpl. rewrite Ha. simpl. rewrite Hs. simpl.
  rewrite alter_new. simpl.
  rewrite (lookup_app_l_Some _ _ _ _ Ha). simpl. rewrite Hs. simpl.
  unfold view_of, with_arrays. rewrite Hs. simpl.
  destruct (_source s) as [src|]; simpl; rewrite !alter_new; simpl; done.
Qed.

(** ** The loops of the cache *)

Lemma evict_app k1 k2 m : evict (k1 ++ k2) m = evict k2 (evict k1 m).
Proof. unfold evict. by rewrite foldl_app. Qed.

Lemma evict_lookup_notin keys m k : k ∉ keys -> evict keys m !! k = m !! k.
Proof.
  revert m. induction keys as [|x keys IH]; intros m Hk; [done|].
  apply not_elem_of_cons in Hk as [Hne Hk].
  simpl. rewrite IH by done. by apply lookup_insert_ne.
Qed.

Lemma evict_lookup_in keys m k : k ∈ keys -> evict keys m !! k = Some VNone.
Proof.
  revert m. induction keys as [|x keys IH]; intros m Hk; [set_solver|].
  simpl. destruct (decide (k ∈ keys)) as [Hin|Hnin]; [by apply IH|].
  rewrite evict_lookup_notin by done.
  apply elem_of_cons in Hk as [->|Hk]; [|done]. apply lookup_insert_eq.
Qed.

(** An eviction never makes a value appear. *)
Lemma evict_None_stays keys m k :
  default VNone (m !! k) = VNone -> default VNone (evict keys m !! k) = VNone.
Proof.
  intros H. destruct (decide (k ∈ keys)).
  - by rewrite evict_lookup_in.
  - by rewrite evict_lookup_notin.
Qed.

Lemma for_each_save_None invs w :
  for_each invs (fun inv => save inv VNone) w
  = Out (Ok tt) (with_saved (evict invs) w) [].
Proof.
  revert w. induction invs as [|k invs IH]; intros w; simpl.
  - by destruct w.
  - eapply (bind_run _ _ _ _ _ []); [done|]. by rewrite IH.
Qed.

Lemma resolves_attr_loc w d :
  resolves w d <-> exists l, attr_loc w d = Some l /\ is_tracked w l.
Proof.
  unfold resolves, attr_loc. split.
  - intros (l & -> & Ht). eauto.
  - intros (l & Hl & Ht). exists l. split; [|done].
    destruct (attrs w !! d) as [[| |l']|]; naive_solver.
Qed.

Lemma getattr_run w d l :
  attr_loc w d = Some l -> getattr d w = Out (Ok (VRef l)) w [].
Proof.
  unfold attr_loc, getattr, bind, gets. simpl.
  destruct (attrs w !! d) as [[| |l']|]; naive_solver.
Qed.

Lemma get_modified_run w l b :
  modified_at w l = Some b -> get_modified (VRef l) w = Out (Ok b) w [].
Proof.
  unfold modified_at, get_modified, bind, get_array.
  destruct (arrays w !! l) as [a|]; [|done]. simpl.
  destruct (tracked a); naive_solver.
Qed.

(** One round of the first loop. *)
Lemma sweep_round cls w d :
  resolves w d -> is_Some (_inv_depends cls !! d) ->
  forall f,
    (dependee <- getattr d ;;
     m <- get_modified dependee ;;
     if m then
       invs <- lookup_inv_depends cls d ;;
       for_each invs (fun inv => save inv VNone)
     else ret tt) (with_saved f w)
    = Out (Ok tt) (with_saved (evict (stale cls w d)) (with_saved f w)) [].
Proof.
  intros Hr [invs Hinvs] f.
  apply resolves_attr_loc in Hr as (l & Hl & [b Hb]).
  eapply (bind_run _ _ _ _ _ []); [by apply getattr_run|].
  eapply (bind_run _ _ _ _ _ []); [by apply (get_modified_run _ _ b)|].
  unfold stale. rewrite Hl. simpl. rewrite Hb, Hinvs. simpl.
  destruct b; [|done].
  eapply (bind_run _ _ _ _ _ []).
  - unfold lookup_inv_depends. by rewrite Hinvs.
  - apply for_each_save_None.
Qed.

Lemma sweep_loop cls w deps :
  Forall (resolves w) deps ->
  Forall (fun d => is_Some (_inv_depends cls !! d)) deps ->
  forall f,
    for_each deps (fun d =>
      dependee <- getattr d ;;
      m <- get_modified dependee ;;
      if m then
        invs <- lookup_inv_depends cls d ;;
        for_each invs (fun inv => save inv VNone)
      else ret tt) (with_saved f w)
    = Out (Ok tt) (with_saved (evict (sweep_keys cls w deps)) (with_saved f w)) [].
Proof.
  induction 1 as [|d deps Hd Hdeps IH]; intros Hinv f; simpl.
  - by destruct w.
  - apply Forall_cons in Hinv as [Hi Hinv].
    eapply (bind_run _ _ _ _ _ []); [by apply sweep_round|].
    change (with_saved (evict (stale cls w d)) (with_saved f w))
      with (with_saved (evict (stale cls w d) ∘ f) w).
    rewrite (IH Hinv). unfold sweep_keys. simpl. unfold with_saved. simpl.
    by rewrite evict_app.
Qed.

Lemma with_saved_id w : with_saved id w = w.
Proof. by destruct w. Qed.

Lemma ready_inv cls name deps :
  well_registered cls -> _depends cls !! name = Some deps ->
  Forall (fun d => is_Some (_inv_depends cls !! d)) deps.
Proof.
  intros Hwr Hdeps. apply Forall_forall. intros d Hd.
  destruct (Hwr name deps d Hdeps Hd) as (deps' & invs & _ & _ & Hi & _). by exists invs.
Qed.

(** The first loop returns, and changes the cache only. *)
Lemma sweep_run cls name w :
  well_registered cls -> ready cls name w ->
  sweep cls name w = Out (Ok tt) (swept cls name w) [].
Proof.
  intros Hwr (deps & Hdeps & Hres). unfold sweep, swept.
  eapply (bind_run _ _ _ _ _ []).
  - unfold lookup_depends. by rewrite Hdeps.
  - rewrite Hdeps. simpl. rewrite <- (with_saved_id w) at 1.
    rewrite (sweep_loop cls w deps Hres (ready_inv cls name deps Hwr Hdeps)).
    by destruct w.
Qed.

Lemma unflagged_frame deps w :
  attrs (unflagged deps w) = attrs w /\ _saved (unflagged deps w) = _saved w /\
  buffers (unflagged deps w) = buffers w.
Proof.
  revert w. induction deps as [|d deps IH]; intros w; simpl; [done|].
  destruct (IH (match attr_loc w d with Some l => flag false l w | None => w end))
    as (-> & -> & ->).
  by destruct (attr_loc w d).
Qed.

Lemma is_tracked_unflagged deps w l :
  is_tracked (unflagged deps w) l <-> is_tracked w l.
Proof.
  revert w. induction deps as [|d deps IH]; intros w; simpl; [done|].
  rewrite IH. destruct (attr_loc w d); [apply is_tracked_flag|done].
Qed.

Lemma attr_loc_attrs w w' d : attrs w' = attrs w -> attr_loc w' d = attr_loc w d.
Proof. unfold attr_loc. by intros ->. Qed.

Lemma modified_at_unflagged_keeps deps w l :
  modified_at w l = Some false -> modified_at (unflagged deps w) l = Some false.
Proof.
  revert w. induction deps as [|d deps IH]; intros w H; simpl; [done|].
  apply IH. destruct (attr_loc w d) as [l'|]; [|done].
  destruct (decide (l' = l)) as [->|Hne].
  - apply modified_at_flag_eq. by exists false.
  - by rewrite modified_at_flag_ne.
Qed.

(** After the last loop every dependee that is a tracked array is not
    modified. *)
Lemma modified_at_unflagged deps w d l :
  d ∈ deps -> attr_loc w d = Some l -> is_tracked w l ->
  modified_at (unflagged deps w) l = Some false.
Proof.
  revert w. induction deps as [|d' deps IH]; intros w Hd Hl Ht; [by apply elem_of_nil in Hd|].
  simpl. destruct (decide (d = d')) as [<-|Hne].
  - rewrite Hl. apply modified_at_unflagged_keeps. by apply modified_at_flag_eq.
  - apply elem_of_cons in Hd as [?|Hd]; [done|].
    apply IH; [done| |].
    + destruct (attr_loc w d'); [|done]. by rewrite (attr_loc_attrs w).
    + destruct (attr_loc w d'); [|done]. by apply is_tracked_flag.
Qed.

Lemma resolves_keep w w' d :
  attrs w' = attrs w -> (forall l, is_tracked w l -> is_tracked w' l) ->
  resolves w d -> resolves w' d.
Proof. intros Ha Ht (l & Hl & Hx). exists l. rewrite Ha. auto. Qed.

Lemma press_loop deps w :
  Forall (resolves w) deps ->
  for_each deps (fun d => dependee <- getattr d ;; clear_modified dependee) w
  = Out (Ok tt) (unflagged deps w) [].
Proof.
  revert w. induction deps as [|d deps IH]; intros w Hres; simpl; [done|].
  apply Forall_cons in Hres as [Hd Hres].
  apply resolves_attr_loc in Hd as (l & Hl & Ht). rewrite Hl.
  eapply (bind_run _ _ _ _ _ []).
  - eapply (bind_run _ _ _ _ _ []); [by apply getattr_run|].
    simpl. by apply set_modified_tracked.
  - apply IH. eapply Forall_impl; [done|]. intros d'.
    apply resolves_keep; [done|]. intros l'. apply is_tracked_flag.
Qed.

(** The last loop returns, and lowers flags only. *)
Lemma press_run cls name w :
  ready cls name w ->
  press_not_modified cls name w
  = Out (Ok tt) (unflagged (default [] (_depends cls !! name)) w) [].
Proof.
  intros (deps & Hdeps & Hres). unfold press_not_modified.
  eapply (bind_run _ _ _ _ _ []).
  - unfold lookup_depends. by rewrite Hdeps.
  - rewrite Hdeps. by apply press_loop.
Qed.

Lemma is_tracked_protect v w l : is_tracked (protect v w) l <-> is_tracked w l.
Proof.
  destruct v as [| |l']; simpl; [done..|].
  unfold is_tracked, modified_at. simpl.
  destruct (decide (l' = l)) as [->|Hne].
  - rewrite list_lookup_alter_eq. by destruct (arrays w !! l).
  - by rewrite list_lookup_alter_ne.
Qed.

Lemma protect_run v w :
  match v with VRef l => set_writeable l false | _ => ret tt end w
  = Out (Ok tt) (protect v w) [].
Proof. by destruct v. Qed.

Lemma ready_keep cls name w w' :
  attrs w' = attrs w -> (forall l, is_tracked w l -> is_tracked w' l) ->
  ready cls name w -> ready cls name w'.
Proof.
  intros Ha Ht (deps & Hdeps & Hres). exists deps. split; [done|].
  eapply Forall_impl; [done|]. intros d. by apply resolves_keep.
Qed.

(** ** The wrapper *)

Lemma saved_get_run name w :
  saved_get name w = Out (Ok (default VNone (_saved w !! name))) w [].
Proof. done. Qed.

Lemma escape_run name (recompute return_saved : bool) w :
  (if return_saved then
     saved <- saved_get name ;;
     ret (if is_not_None saved && negb recompute then Some saved else None)
   else ret None : py (option value)) w
  = Out (Ok (if return_saved
               && (is_not_None (default VNone (_saved w !! name)) && negb recompute)
             then Some (default VNone (_saved w !! name)) else None)) w [].
Proof.
  destruct return_saved; [|done].
  unfold bind, saved_get, gets, ret. simpl.
  by destruct (is_not_None (default VNone (_saved w !! name)) && negb recompute).
Qed.

(** The wrapper when the escape is not taken and nothing usable is cached
    after the sweep: the function runs once on the swept world, its value
    is stored, and every dependee ends not modified. *)
Lemma compute_run cls name func recompute return_saved w :
  well_registered cls -> ready cls name w -> well_behaved func ->
  is_not_None (default VNone (_saved (swept cls name w) !! name)) && negb recompute = false ->
  (return_saved = true ->
   is_not_None (default VNone (_saved w !! name)) && negb recompute = false) ->
  exists v w1 w',
    func (swept cls name w) = (Ok v, w1) /\
    compute_or_return_saved cls name func recompute return_saved w
    = Out (Ok v) w' [name] /\
    _saved w' = <[name := v]> (_saved (swept cls name w)) /\
    attrs w' = attrs w /\
    (forall l, is_tracked w l -> is_tracked w' l) /\
    (forall d l, d ∈ default [] (_depends cls !! name) ->
                 attr_loc w d = Some l -> modified_at w' l = Some false).
Proof.
  intros Hwr Hready Hwb Hstale Hesc.
  destruct (Hwb (swept cls name w)) as (v & w1 & Hf & Hs1 & Ha1 & Ht1).
  set (w2 := with_saved (insert name v) (protect v w1)).
  assert (Ha2 : attrs w2 = attrs w) by (destruct v; simpl; by rewrite ?Ha1).
  assert (Ht2 : forall l, is_tracked w l -> is_tracked w2 l).
  { intros l Hl. unfold w2.
    assert (is_tracked (protect v w1) l) as H by (apply is_tracked_protect, Ht1, Hl).
    exact H. }
  assert (Hready2 : ready cls name w2) by (by apply (ready_keep cls name w)).
  exists v, w1, (unflagged (default [] (_depends cls !! name)) w2).
  split; [done|]. split; [|split; [|split; [|split]]].
  - unfold compute_or_return_saved.
    eapply (bind_run _ _ _ _ _ [] _ _ [name]); [apply escape_run|].
    replace (return_saved
             && (is_not_None (default VNone (_saved w !! name)) && negb recompute))
      with false by (destruct return_saved; [by rewrite Hesc|done]).
    eapply (bind_run _ _ _ _ _ []); [by apply sweep_run|].
    eapply (bind_run _ _ _ _ _ []); [apply saved_get_run|]. rewrite Hstale.
    eapply (bind_run _ _ _ _ _ [name] _ _ []).
    { unfold call. by rewrite Hf. }
    eapply (bind_run _ _ _ _ _ []); [apply protect_run|].
    eapply (bind_run _ _ _ _ _ []); [done|].
    eapply (bind_run _ _ _ _ _ []); [by apply press_run|]. done.
  - destruct (unflagged_frame (default [] (_depends cls !! name)) w2) as (_ & -> & _).
    unfold w2. destruct v; simpl; by rewrite Hs1.
  - destruct (unflagged_frame (default [] (_depends cls !! name)) w2) as (-> & _ & _). done.
  - intros l Hl. apply is_tracked_unflagged. auto.
  - intros d l Hd Hl. destruct Hready as (deps & Hdeps & Hres).
    rewrite Hdeps in *. simpl in *.
    apply modified_at_unflagged with d; [done|by rewrite (attr_loc_attrs w)|].
    apply Ht2. rewrite Forall_forall in Hres.
    destruct (proj1 (resolves_attr_loc w d) (Hres d Hd)) as (l' & Hl' & Ht').
    congruence.
Qed.

(** The wrapper when a value is cached after the sweep and [recompute] is
    not set: the value is returned and the function does not run. *)
Lemma cached_run cls name func return_saved w v :
  well_registered cls -> ready cls name w ->
  _saved (swept cls name w) !! name = Some v -> v <> VNone ->
  compute_or_return_saved cls name func false return_saved w
  = Out (Ok v) (if return_saved && is_not_None (default VNone (_saved w !! name))
                then w else swept cls name w) [].
Proof.
  intros Hwr Hready Hv Hnn.
  assert (Hsw : default VNone (_saved w !! name) <> VNone ->
                _saved w !! name = Some v).
  { intros Hw. rewrite <- Hv. unfold swept. simpl.
    destruct (decide (name ∈ sweep_keys cls w (default [] (_depends cls !! name)))) as [Hin|Hnin].
    - unfold swept in Hv. simpl in Hv. rewrite evict_lookup_in in Hv by done. congruence.
    - by rewrite evict_lookup_notin. }
  unfold compute_or_return_saved.
  eapply (bind_run _ _ _ _ _ []); [apply escape_run|].
  rewrite andb_true_r.
  destruct (return_saved && is_not_None (default VNone (_saved w !! name))) eqn:E.
  - apply andb_true_iff in E as [_ E]. rewrite Hsw; [done|].
    intros E'. by rewrite E' in E.
  - eapply (bind_run _ _ _ _ _ []); [by apply sweep_run|].
    eapply (bind_run _ _ _ _ _ []); [apply saved_get_run|]. rewrite Hv. simpl.
    by destruct v.
Qed.

(** The computing path for one run of the function: it is enough that the
    dependencies are still tracked arrays when the function has returned. *)
Lemma compute_stores cls name func recompute return_saved w v w1 :
  well_registered cls -> ready cls name w ->
  func (swept cls name w) = (Ok v, w1) -> ready cls name w1 ->
  is_not_None (default VNone (_saved (swept cls name w) !! name)) && negb recompute = false ->
  (return_saved = true ->
   is_not_None (default VNone (_saved w !! name)) && negb recompute = false) ->
  compute_or_return_saved cls name func recompute return_saved w
  = Out (Ok v) (unflagged (default [] (_depends cls !! name))
                  (with_saved (insert name v) (protect v w1))) [name].
Proof.
  intros Hwr Hready Hf Hready1 Hstale Hesc.
  set (w2 := with_saved (insert name v) (protect v w1)).
  assert (Hready2 : ready cls name w2).
  { apply (ready_keep cls name w1); [by destruct v| |done].
    intros l Hl. unfold w2.
    assert (is_tracked (protect v w1) l) as H by (by apply is_tracked_protect).
    exact H. }
  unfold compute_or_return_saved.
  eapply (bind_run _ _ _ _ _ [] _ _ [name]); [apply escape_run|].
  replace (return_saved
           && (is_not_None (default VNone (_saved w !! name)) && negb recompute))
    with false by (destruct return_saved; [by rewrite Hesc|done]).
  eapply (bind_run _ _ _ _ _ []); [by apply sweep_run|].
  eapply (bind_run _ _ _ _ _ []); [apply saved_get_run|]. rewrite Hstale.
  eapply (bind_run _ _ _ _ _ [name] _ _ []).
  { unfold call. by rewrite Hf. }
  eapply (bind_run _ _ _ _ _ []); [apply protect_run|].
  eapply (bind_run _ _ _ _ _ []); [done|].
  eapply (bind_run _ _ _ _ _ []); [by apply press_run|]. done.
Qed.

(** The computing path when the function raises: the exception leaves the
    wrapper right after the call. *)
Lemma compute_raises cls name func recompute return_saved w e w1 :
  well_registered cls -> ready cls name w ->
  func (swept cls name w) = (Raise e, w1) ->
  is_not_None (default VNone (_saved (swept cls name w) !! name)) && negb recompute = false ->
  (return_saved = true ->
   is_not_None (default VNone (_saved w !! name)) && negb recompute = false) ->
  compute_or_return_saved cls name func recompute return_saved w
  = Out (Raise e) w1 [name].
Proof.
  intros Hwr Hready Hf Hstale Hesc.
  unfold compute_or_return_saved.
  eapply (bind_run _ _ _ _ _ [] _ _ [name]); [apply escape_run|].
  replace (return_saved
           && (is_not_None (default VNone (_saved w !! name)) && negb recompute))
    with false by (destruct return_saved; [by rewrite Hesc|done]).
  eapply (bind_run _ _ _ _ _ [] _ _ [name]); [by apply sweep_run|].
  eapply (bind_run _ _ _ _ _ [] _ _ [name]); [apply saved_get_run|]. rewrite Hstale.
  apply bind_Raise. unfold call. by rewrite Hf.
Qed.

(** ** Registration *)

Lemma inv_depends_grows (name : string) (vars : list string)
    (inv : gmap string (list string)) (d : string) (l : list string) (x : string) :
  inv !! d = Some l -> x ∈ l ->
  exists l', foldl (fun inv vn => <[vn := default [] (inv !! vn) ++ [name]]> inv)
                   inv vars !! d = Some l' /\ x ∈ l'.
Proof.
  revert inv l. induction vars as [|vn vars IH]; intros inv l Hl Hx; simpl; [eauto|].
  destruct (decide (vn = d)) as [->|Hne].
  - eapply IH; [apply lookup_insert_eq|]. rewrite Hl. simpl. set_solver.
  - eapply IH; [|done]. by rewrite lookup_insert_ne.
Qed.

Lemma inv_depends_added (name : string) (vars : list string)
    (inv : gmap string (list string)) (d : string) :
  d ∈ vars ->
  exists l', foldl (fun inv vn => <[vn := default [] (inv !! vn) ++ [name]]> inv)
                   inv vars !! d = Some l' /\ name ∈ l'.
Proof.
  revert inv. induction vars as [|vn vars IH]; intros inv Hd; simpl; [by apply elem_of_nil in Hd|].
  destruct (decide (vn = d)) as [->|Hne].
  - eapply inv_depends_grows; [apply lookup_insert_eq|].
    apply elem_of_app. right. by apply list_elem_of_singleton.
  - apply IH. apply elem_of_cons in Hd as [?|?]; [congruence|done].
Qed.

Lemma no_registry_well_registered : well_registered no_registry.
Proof. intros name deps d H. simpl in H. by rewrite lookup_empty in H. Qed.

(** Registration keeps the two class attributes consistent. *)
Lemma depends_on_well_registered vars name cls :
  well_registered cls -> well_registered (depends_on vars name cls).
Proof.
  intros Hwr n deps d Hn Hd. unfold registered.
  exists deps. simpl in *. 
  destruct (decide (name = n)) as [->|Hne].
  - rewrite lookup_insert_eq in Hn. injection Hn as <-.
    apply elem_of_app in Hd as [Hd|Hd].
    + destruct (_depends cls !! n) as [old|] eqn:Hold; simpl in Hd; [|by apply elem_of_nil in Hd].
      destruct (Hwr n old d Hold Hd) as (? & invs & _ & _ & Hi & Hin).
      destruct (inv_depends_grows n vars _ d invs n Hi Hin) as (l' & Hl' & Hin').
      exists l'. rewrite lookup_insert_eq. simpl.
      split; [done|]. split; [|done]. apply elem_of_app. by left.
    + destruct (inv_depends_added n vars (_inv_depends cls) d Hd) as (l' & Hl' & Hin').
      exists l'. rewrite lookup_insert_eq.
      split; [done|]. split; [|done]. apply elem_of_app. by right.
  - rewrite lookup_insert_ne in Hn by done.
    destruct (Hwr n deps d Hn Hd) as (? & invs & _ & _ & Hi & Hin).
    destruct (inv_depends_grows name vars _ d invs n Hi Hin) as (l' & Hl' & Hin').
    exists l'. by rewrite lookup_insert_ne.
Qed.

(** After [depends_on(var_names)] the function depends on each of the
    names. *)
Lemma depends_on_registered vars name cls x :
  x ∈ vars -> registered (depends_on vars name cls) name x.
Proof.
  intros Hx. unfold registered. simpl.
  destruct (inv_depends_added name vars (_inv_depends cls) x Hx) as (l' & Hl' & Hin').
  eexists _, l'. rewrite lookup_insert_eq.
  split; [done|]. split; [|done]. apply elem_of_app. by right.
Qed.

Lemma registered_keeps vars name cls n x :
  well_registered cls -> registered cls n x -> registered (depends_on vars name cls) n x.
Proof.
  intros Hwr (deps & invs & Hd & Hx & _).
  apply (depends_on_well_registered vars name cls Hwr n
           (if decide (name = n) then deps ++ vars else deps)).
  - simpl. case_decide as E.
    + subst. rewrite lookup_insert_eq, Hd. done.
    + by rewrite lookup_insert_ne.
  - case_decide; [|done]. apply elem_of_app. by left.
Qed.

Lemma cls_fg_well_registered : well_registered cls_fg.
Proof. repeat apply depends_on_well_registered. apply no_registry_well_registered. Qed.

Lemma cls_fg_registered_g : registered cls_fg "g" "x".
Proof. apply depends_on_registered. by apply list_elem_of_singleton. Qed.

Lemma cls_fg_registered_f : registered cls_fg "f" "x".
Proof.
  apply registered_keeps; [apply depends_on_well_registered, no_registry_well_registered|].
  apply depends_on_registered. by apply list_elem_of_singleton.
Qed.

(** ** Calls of the wrapper *)

(** A modified dependee evicts every operation registered on it. *)
Lemma swept_evicts cls name x l h w :
  registered cls name x -> registered cls h x ->
  attr_loc w x = Some l -> modified_at w l = Some true ->
  _saved (swept cls name w) !! h = Some VNone.
Proof.
  intros (deps & invs & Hdeps & Hx & Hinv & _) (_ & invs' & _ & _ & Hinv' & Hh) Hl Hm.
  rewrite Hinv in Hinv'. injection Hinv' as <-.
  unfold swept. simpl. apply evict_lookup_in. rewrite Hdeps. simpl.
  unfold sweep_keys. apply list_elem_of_bind. exists x. split; [|done].
  unfold stale. rewrite Hl. simpl. by rewrite Hm, Hinv.
Qed.

Lemma swept_None_stays cls name w k :
  default VNone (_saved w !! k) = VNone ->
  default VNone (_saved (swept cls name w) !! k) = VNone.
Proof. apply evict_None_stays. Qed.

(** With dependencies that resolve and a well-behaved function the wrapper
    returns, and the helpee stays ready for the next call. *)
Lemma call_total cls name func recompute return_saved w :
  well_registered cls -> ready cls name w -> well_behaved func ->
  exists v w' t,
    compute_or_return_saved cls name func recompute return_saved w = Out (Ok v) w' t /\
    attrs w' = attrs w /\ (forall l, is_tracked w l -> is_tracked w' l).
Proof.
  intros Hwr Hready Hwb.
  destruct (is_not_None (default VNone (_saved (swept cls name w) !! name)) && negb recompute)
    eqn:E.
  - apply andb_true_iff in E as [E1 E2]. destruct recompute; [done|].
    destruct (_saved (swept cls name w) !! name) as [v|] eqn:Hv; [|done].
    assert (v <> VNone) by (by intros ->).
    rewrite (cached_run cls name func return_saved w v Hwr Hready Hv) by done.
    eexists _, _, _. split; [done|].
    by destruct (return_saved && is_not_None (default VNone (_saved w !! name))).
  - destruct (return_saved
              && (is_not_None (default VNone (_saved w !! name)) && negb recompute)) eqn:E'.
    + apply andb_true_iff in E' as [-> E']. unfold compute_or_return_saved.
      exists (default VNone (_saved w !! name)), w, [].
      split; [|done].
      eapply (bind_run _ _ _ _ _ []); [exact (escape_run name recompute true w)|].
      simpl. by rewrite E'.
    + destruct (compute_run cls name func recompute return_saved w Hwr Hready Hwb E)
        as (v & w1 & w' & _ & Hrun & _ & Ha & Ht & _).
      { intros ->. done. }
      eauto 10.
Qed.

(** ** The worlds of the examples *)

Lemma func_sum_well_behaved : well_behaved func_sum.
Proof. intros w. by eexists _, w. Qed.

Lemma func_len_well_behaved : well_behaved func_len.
Proof. intros w. by eexists _, w. Qed.

Lemma func_none_well_behaved : well_behaved func_none.
Proof. intros w. by eexists _, w. Qed.

Lemma helpee_123_ready name : name ∈ ["f"; "g"] -> ready cls_fg name helpee_123.
Proof.
  intros Hn. exists ["x"]. split.
  - apply elem_of_cons in Hn as [->|Hn]; [by vm_compute|].
    apply list_elem_of_singleton in Hn as ->. by vm_compute.
  - repeat constructor. exists 2%nat. split; [by vm_compute|]. exists true. by vm_compute.
Qed.

(** ** The claims on the cache *)

(** C1 (amended).  With [return_saved] set, a value that is cached (and is
    not [None]) is returned at once when [recompute] is not set: the world
    is untouched and the function does not run.  When nothing is cached, or
    [recompute] is set, the wrapper raises no error of its own: it sweeps
    and calls the function once, with the keyword arguments of the call,
    [return_saved] among them.  If the function raises, the exception
    leaves the wrapper with the world the function left; if it returns,
    and the dependencies are still tracked arrays, its value is stored and
    returned. *)
Theorem C1_return_saved_escapes_or_computes
    (cls : registry) (name : string) (func : function) (kw : kwargs) (w : World) :
  kw_return_saved kw = Some true ->
  let recompute := default false (kw_recompute kw) in
  (forall v, _saved w !! name = Some v -> v <> VNone -> recompute = false ->
     inner cls name func kw w = Out (Ok v) w []) /\
  (is_not_None (default VNone (_saved w !! name)) && negb recompute = false ->
   well_registered cls -> ready cls name w ->
   forall r w1, func kw (swept cls name w) = (r, w1) ->
     match r with
     | Raise e => inner cls name func kw w = Out (Raise e) w1 [name]
     | Ok v =>
         ready cls name w1 ->
         exists w', inner cls name func kw w = Out (Ok v) w' [name] /\
                    _saved w' !! name = Some v
     end).
Proof.
  intros Hrs recompute. unfold inner. rewrite Hrs. cbn [default]. fold recompute.
  split.
  - intros v Hv Hnn ->. unfold compute_or_return_saved.
    eapply (bind_run _ _ _ _ _ []); [exact (escape_run name false true w)|].
    rewrite Hv. simpl. by destruct v.
  - intros Hnone Hwr Hready r w1 Hf.
    assert (Hstale : is_not_None (default VNone (_saved (swept cls name w) !! name))
                     && negb recompute = false).
    { destruct recompute; [apply andb_false_r|]. rewrite andb_true_r in *.
      destruct (is_not_None (default VNone (_saved (swept cls name w) !! name))) eqn:E;
        [|done].
      rewrite swept_None_stays in E; [done|].
      by destruct (default VNone (_saved w !! name)). }
    destruct r as [v|e].
    + intros Hready1. eexists. split.
      * by apply (compute_stores cls name (func kw) recompute true w v w1).
      * rewrite (proj1 (proj2 (unflagged_frame _ _))).
        destruct v; simpl; apply lookup_insert_eq.
    + by apply (compute_raises cls name (func kw) recompute true w e w1).
Qed.

Lemma C1_witness :
  let kw := {| kw_recompute := None; kw_return_saved := Some true |} in
  (_saved helpee_f_cached !! "f" = Some (VInt 6) /\
   inner cls_fg "f" (without_keywords func_sum) kw helpee_f_cached
   = Out (Ok (VInt 6)) helpee_f_cached []) /\
  (_saved helpee_123 !! "f" = None /\
   inner cls_fg "f" (without_keywords func_sum) kw helpee_123
   = Out (Raise TypeError) (swept cls_fg "f" helpee_123) ["f"] /\
   exists w', inner cls_fg "f" (with_keywords func_sum) kw helpee_123
              = Out (Ok (VInt 6)) w' ["f"] /\ _saved w' !! "f" = Some (VInt 6)).
Proof.
  intros kw.
  assert (Hr : ready cls_fg "f" helpee_123)
    by (apply helpee_123_ready, elem_of_cons; by left).
  assert (Hr' : ready cls_fg "f" (swept cls_fg "f" helpee_123)).
  { apply (ready_keep cls_fg "f" helpee_123); [done| |exact Hr]. intros l Hl. exact Hl. }
  split.
  - split; [by vm_compute|].
    apply (proj1 (C1_return_saved_escapes_or_computes
                    cls_fg "f" (without_keywords func_sum) kw helpee_f_cached eq_refl));
      [by vm_compute|discriminate|reflexivity].
  - split; [by vm_compute|]. split.
    + exact (proj2 (C1_return_saved_escapes_or_computes
                      cls_fg "f" (without_keywords func_sum) kw helpee_123 eq_refl)
               eq_refl cls_fg_well_registered Hr (Raise TypeError) _ eq_refl).
    + exact (proj2 (C1_return_saved_escapes_or_computes
                      cls_fg "f" (with_keywords func_sum) kw helpee_123 eq_refl)
               eq_refl cls_fg_well_registered Hr (Ok (VInt 6)) _ eq_refl Hr').
Defined.

(** C1, as stated, fails: on a helpee with nothing cached, the call with
    [return_saved] set of a function that takes the keyword arguments
    raises nothing; it runs the function and returns its value. *)
Lemma C1_counterexample :
  _saved helpee_123 = ∅ /\
  inner cls_fg "f" (with_keywords func_sum)
    {| kw_recompute := None; kw_return_saved := Some true |} helpee_123
  = Out (Ok (VInt 6)) helpee_f_cached ["f"].
Proof. split; by vm_compute. Qed.

Lemma registered_resolves cls name x w :
  registered cls name x -> ready cls name w ->
  exists l, attr_loc w x = Some l /\ is_tracked w l.
Proof.
  intros (deps & invs & Hdeps & Hx & _) (deps' & Hdeps' & Hres).
  rewrite Hdeps in Hdeps'. injection Hdeps' as <-.
  rewrite Forall_forall in Hres. by apply resolves_attr_loc, Hres.
Qed.

(** C2 (amended).  Two operations [f] and [g] depend on the attribute [x],
    a tracked array of the helpee, and their functions return and leave
    alone the cache, the attributes of the helpee and the class of its
    arrays (so neither evaluates a cached operation).  After [f()], an
    in-place mutation of [x] and then [g()], the call of [g] runs the
    function of [g] (the sweep has stored [None] for [g] and for [f]), and
    the call of [f] that follows, with no mutation in between, runs the
    function of [f] again. *)
Theorem C2_mutate_g_f_recomputes_both `{Ufuncs}
    (cls : registry) (f g x : string) (func_f func_g : computation)
    (m : mutator) (w0 : World) :
  well_registered cls -> f <> g ->
  registered cls f x -> registered cls g x ->
  ready cls f w0 -> ready cls g w0 ->
  well_behaved func_f -> well_behaved func_g ->
  exists v1 w1 t1 lx r w2 v3 w3 v4 w4,
    compute_or_return_saved cls f func_f false false w0 = Out (Ok v1) w1 t1 /\
    attr_loc w1 x = Some lx /\
    mutate m lx w1 = Out r w2 [] /\
    compute_or_return_saved cls g func_g false false w2 = Out (Ok v3) w3 [g] /\
    _saved w3 !! f = Some VNone /\
    compute_or_return_saved cls f func_f false false w3 = Out (Ok v4) w4 [f].
Proof.
  intros Hwr Hfg Hrf Hrg Hready_f Hready_g Hwf Hwg.
  destruct (call_total cls f func_f false false w0 Hwr Hready_f Hwf)
    as (v1 & w1 & t1 & Hrun1 & Ha1 & Ht1).
  assert (Hf1 : ready cls f w1) by (by apply (ready_keep cls f w0)).
  assert (Hg1 : ready cls g w1) by (by apply (ready_keep cls g w0)).
  destruct (registered_resolves cls g x w1 Hrg Hg1) as (lx & Hlx & Htx).
  destruct (mutate_run m lx w1 Htx) as (r & w2 & Hmut & Harr2 & Ha2 & Hs2).
  assert (Ht2 : forall l, is_tracked w1 l -> is_tracked w2 l).
  { intros l Hl. pose proof (mutate_keeps_tracked m lx w1 l Htx) as Hk.
    rewrite Hmut in Hk. by apply Hk. }
  assert (Hm2 : modified_at w2 lx = Some true).
  { pose proof (mutate_flags_self m lx w1 Htx) as Hk. by rewrite Hmut in Hk. }
  assert (Hf2 : ready cls f w2) by (by apply (ready_keep cls f w1)).
  assert (Hg2 : ready cls g w2) by (by apply (ready_keep cls g w1)).
  assert (Hlx2 : attr_loc w2 x = Some lx) by (by rewrite (attr_loc_attrs w1)).
  pose proof (swept_evicts cls g x lx g w2 Hrg Hrg Hlx2 Hm2) as Hsg.
  pose proof (swept_evicts cls g x lx f w2 Hrg Hrf Hlx2 Hm2) as Hsf.
  destruct (compute_run cls g func_g false false w2 Hwr Hg2 Hwg)
    as (v3 & w2' & w3 & _ & Hrun3 & Hs3 & Ha3 & Ht3 & _);
    [by rewrite Hsg|done|].
  assert (Hf3 : _saved w3 !! f = Some VNone).
  { rewrite Hs3, lookup_insert_ne by done. exact Hsf. }
  assert (Hready3 : ready cls f w3) by (by apply (ready_keep cls f w2)).
  destruct (compute_run cls f func_f false false w3 Hwr Hready3 Hwf)
    as (v4 & w3' & w4 & _ & Hrun4 & _); [|done|].
  { rewrite swept_None_stays; [done|]. by rewrite Hf3. }
  exists v1, w1, t1, lx, r, w2, v3, w3, v4, w4. done.
Qed.

Lemma C2_witness :
  exists v1 w1 t1 lx r w2 v3 w3 v4 w4,
    compute_or_return_saved cls_fg "f" func_sum false false helpee_123
    = Out (Ok v1) w1 t1 /\
    attr_loc w1 "x" = Some lx /\
    mutate (H := sample_ufuncs) (MInplace Iadd 5) lx w1 = Out r w2 [] /\
    compute_or_return_saved cls_fg "g" func_len false false w2 = Out (Ok v3) w3 ["g"] /\
    _saved w3 !! "f" = Some VNone /\
    compute_or_return_saved cls_fg "f" func_sum false false w3 = Out (Ok v4) w4 ["f"].
Proof.
  apply (C2_mutate_g_f_recomputes_both (H := sample_ufuncs)
           cls_fg "f" "g" "x" func_sum func_len (MInplace Iadd 5) helpee_123).
  - apply cls_fg_well_registered.
  - discriminate.
  - apply cls_fg_registered_f.
  - apply cls_fg_registered_g.
  - apply helpee_123_ready. apply elem_of_cons. by left.
  - apply helpee_123_ready. apply elem_of_cons. right. by apply list_elem_of_singleton.
  - apply func_sum_well_behaved.
  - apply func_len_well_behaved.
Defined.

(** C2, as stated for every pair of operations, fails: when the function
    of [g] evaluates [f], it is inside the call of [g] that the function of
    [f] runs after the mutation; that call leaves [f] cached and [x] not
    modified, and the call of [f] that follows is served from the cache:
    the function of [f] does not run in it. *)
Lemma C2_counterexample :
  let w1 := final (compute_or_return_saved cls_fg "f" func_sum false false helpee_123) in
  let w2 := final (mutate (H := sample_ufuncs) (MInplace Iadd 5) 2%nat w1) in
  let inside := compute_or_return_saved cls_fg "f" func_sum false false
                  (swept cls_fg "g" w2) in
  let o3 := compute_or_return_saved cls_fg "g" func_g_evaluates_f false false w2 in
  let o4 := compute_or_return_saved cls_fg "f" func_sum false false (final o3) in
  attr_elements "x" w2 = [6; 7; 8] /\ modified_at w2 2%nat = Some true /\
  calls inside = ["f"] /\ res o3 = Ok (VInt 21) /\ calls o3 = ["g"] /\
  _saved (final o3) !! "f" = Some (VInt 21) /\
  modified_at (final o3) 2%nat = Some false /\
  res o4 = Ok (VInt 21) /\ calls o4 = [] /\ final o4 = final o3.
Proof. by vm_compute. Qed.

(** C4 (amended).  [_modified] is one flag on the array, shared by all the
    operations that depend on it.  Let [f] and [g] depend on [x], a tracked
    array of the helpee that is modified, and let their functions return
    and leave alone the cache, the attributes of the helpee and the class
    of its arrays (so neither evaluates a cached operation).  Then the
    evaluation of [f] stores [None] for both, runs and stores [f], and
    lowers the flag of [x]; [g] is left with the entry [None], so that its
    next call runs its function although [x] is not modified and nothing
    was mutated in between. *)
Theorem C4_consumer_lowers_flag_and_sibling_is_evicted
    (cls : registry) (f g x : string) (lx : loc) (func_f func_g : computation)
    (w : World) :
  well_registered cls -> f <> g ->
  registered cls f x -> registered cls g x ->
  ready cls f w -> ready cls g w ->
  well_behaved func_f -> well_behaved func_g ->
  attr_loc w x = Some lx -> modified_at w lx = Some true ->
  exists v w1,
    compute_or_return_saved cls f func_f false false w = Out (Ok v) w1 [f] /\
    modified_at w1 lx = Some false /\
    _saved w1 !! f = Some v /\
    _saved w1 !! g = Some VNone /\
    exists v' w2,
      compute_or_return_saved cls g func_g false false w1 = Out (Ok v') w2 [g].
Proof.
  intros Hwr Hfg Hrf Hrg Hready_f Hready_g Hwf Hwg Hlx Hm.
  pose proof (swept_evicts cls f x lx f w Hrf Hrf Hlx Hm) as Hsf.
  pose proof (swept_evicts cls f x lx g w Hrf Hrg Hlx Hm) as Hsg.
  destruct (compute_run cls f func_f false false w Hwr Hready_f Hwf)
    as (v & w' & w1 & _ & Hrun & Hs1 & Ha1 & Ht1 & Hclear);
    [by rewrite Hsf|done|].
  assert (Hg1 : _saved w1 !! g = Some VNone).
  { rewrite Hs1, lookup_insert_ne by done. exact Hsg. }
  assert (Hready1 : ready cls g w1) by (by apply (ready_keep cls g w)).
  destruct (compute_run cls g func_g false false w1 Hwr Hready1 Hwg)
    as (v' & w1' & w2 & _ & Hrun2 & _); [|done|].
  { rewrite swept_None_stays; [done|]. by rewrite Hg1. }
  exists v, w1. split; [done|]. split; [|split; [|split; [done|by eauto]]].
  - destruct Hrf as (deps & invs & Hdeps & Hx & _).
    apply (Hclear x lx); [|done]. by rewrite Hdeps.
  - rewrite Hs1. apply lookup_insert_eq.
Qed.

Lemma C4_witness :
  exists v w1,
    compute_or_return_saved cls_fg "f" func_sum false false helpee_123
    = Out (Ok v) w1 ["f"] /\
    modified_at w1 2%nat = Some false /\
    _saved w1 !! "f" = Some v /\
    _saved w1 !! "g" = Some VNone /\
    exists v' w2,
      compute_or_return_saved cls_fg "g" func_len false false w1 = Out (Ok v') w2 ["g"].
Proof.
  apply (C4_consumer_lowers_flag_and_sibling_is_evicted
           cls_fg "f" "g" "x" 2%nat func_sum func_len helpee_123).
  - apply cls_fg_well_registered.
  - discriminate.
  - apply cls_fg_registered_f.
  - apply cls_fg_registered_g.
  - apply helpee_123_ready. apply elem_of_cons. by left.
  - apply helpee_123_ready. apply elem_of_cons. right. by apply list_elem_of_singleton.
  - apply func_sum_well_behaved.
  - apply func_len_well_behaved.
  - by vm_compute.
  - by vm_compute.
Defined.

(** C4, as stated, fails: [f] and [g] depend on [x]; once [f] is
    evaluated the shared dependency is not flagged modified any more,
    although [g] was never evaluated. *)
Lemma C4_counterexample :
  let o := compute_or_return_saved cls_fg "f" func_sum false false helpee_123 in
  modified_at helpee_123 2%nat = Some true /\
  res o = Ok (VInt 6) /\ calls o = ["f"] /\
  attrs (final o) !! "x" = Some (VRef 2%nat) /\
  modified_at (final o) 2%nat = Some false.
Proof. by vm_compute. Qed.

(** C7.  Item assignment on a holder raises [NotImplementedError] for
    every key, value and state, and leaves the state alone; indexing with a
    key that is not stored raises [KeyError]. *)
Theorem C7_holder_rejects_writes_and_missing_keys
    (key : string) (v : value) (w : World) :
  DataHolder.__setitem__ key v w = Out (Raise NotImplementedError) w [] /\
  (key ∉ dom (_saved w) ->
   DataHolder.__getitem__ key w = Out (Raise KeyError) w []).
Proof.
  split; [done|]. intros Hk. apply not_elem_of_dom in Hk.
  unfold DataHolder.__getitem__, bind, gets. simpl. by rewrite Hk.
Qed.

Lemma C7_witness :
  ("f" ∉ dom (_saved helpee_123)) /\
  DataHolder.__setitem__ "f" (VInt 1) helpee_123
  = Out (Raise NotImplementedError) helpee_123 [] /\
  DataHolder.__getitem__ "f" helpee_123 = Out (Raise KeyError) helpee_123 [].
Proof.
  assert (Hk : "f" ∉ dom (_saved helpee_123)).
  { apply not_elem_of_dom. by vm_compute. }
  split; [exact Hk|].
  destruct (C7_holder_rejects_writes_and_missing_keys "f" (VInt 1) helpee_123)
    as [Hset Hget].
  split; [exact Hset|exact (Hget Hk)].
Defined.

Lemma call_n_S c n w a w1 t1 :
  c w = Out (Ok a) w1 t1 ->
  call_n c (S n) w
  = Out (res (call_n c n w1)) (final (call_n c n w1)) (t1 ++ calls (call_n c n w1)).
Proof. intros E. simpl. by rewrite (bind_Ok _ _ _ _ _ _ E). Qed.

(** A function that returns [None]: every call of the wrapper that finds
    nothing but [None] runs it, and leaves nothing but [None]. *)
Lemma None_call_runs cls f func recompute return_saved w :
  well_registered cls -> ready cls f w -> well_behaved func -> returns_None func ->
  default VNone (_saved w !! f) = VNone ->
  exists w1,
    compute_or_return_saved cls f func recompute return_saved w
    = Out (Ok VNone) w1 [f] /\
    _saved w1 !! f = Some VNone /\ ready cls f w1.
Proof.
  intros Hwr Hready Hwb Hnone Hsaved.
  destruct (compute_run cls f func recompute return_saved w Hwr Hready Hwb)
    as (v & w' & w1 & Hf & Hrun & Hs1 & Ha1 & Ht1 & _).
  - rewrite swept_None_stays; done.
  - intros _. by rewrite Hsaved.
  - pose proof (Hnone (swept cls f w)) as Hv. rewrite Hf in Hv. simpl in Hv.
    injection Hv as ->. exists w1. split; [done|]. split.
    + rewrite Hs1. apply lookup_insert_eq.
    + by apply (ready_keep cls f w).
Qed.

Lemma None_calls_run cls f func recompute return_saved n w :
  well_registered cls -> ready cls f w -> well_behaved func -> returns_None func ->
  default VNone (_saved w !! f) = VNone ->
  let o := call_n (compute_or_return_saved cls f func recompute return_saved) n w in
  res o = Ok tt /\ calls o = replicate n f.
Proof.
  intros Hwr Hready Hwb Hnone. revert w Hready.
  induction n as [|n IH]; intros w Hready Hsaved; [done|].
  destruct (None_call_runs cls f func recompute return_saved w Hwr Hready Hwb Hnone Hsaved)
    as (w1 & Hrun & Hs1 & Hready1).
  rewrite (call_n_S _ n _ _ _ _ Hrun). simpl.
  destruct (IH w1 Hready1) as [Hres Hcalls]; [by rewrite Hs1|].
  by rewrite Hres, Hcalls.
Qed.

(** C10.  The sweep stores [None] under the key of each operation it
    evicts: the key is in [keys()] and indexing returns [None] without
    raising, right after the sweep and after the whole call of another
    operation.  A stored [None] reads as not cached: an operation whose
    function returns [None] runs its function on every call, whatever the
    flags of the call. *)
Theorem C10_None_is_stored_and_never_served
    (cls : registry) (f g x : string) (lx : loc) (func_f func_g : computation)
    (recompute return_saved : bool) (n : nat) (w : World) :
  well_registered cls -> f <> g ->
  registered cls f x -> registered cls g x ->
  ready cls f w -> ready cls g w ->
  well_behaved func_f -> well_behaved func_g ->
  (attr_loc w x = Some lx -> modified_at w lx = Some true ->
     let ws := final (sweep cls f w) in
     let w1 := final (compute_or_return_saved cls f func_f recompute false w) in
     g ∈ dom (_saved ws) /\
     DataHolder.__getitem__ g ws = Out (Ok VNone) ws [] /\
     g ∈ dom (_saved w1) /\
     DataHolder.__getitem__ g w1 = Out (Ok VNone) w1 []) /\
  (returns_None func_g -> default VNone (_saved w !! g) = VNone ->
     let o := call_n (compute_or_return_saved cls g func_g recompute return_saved) n w in
     res o = Ok tt /\ calls o = replicate n g).
Proof.
  intros Hwr Hfg Hrf Hrg Hready_f Hready_g Hwf Hwg. split.
  - intros Hlx Hm ws w1.
    pose proof (swept_evicts cls f x lx f w Hrf Hrf Hlx Hm) as Hsf.
    pose proof (swept_evicts cls f x lx g w Hrf Hrg Hlx Hm) as Hsg.
    assert (Hws : ws = swept cls f w).
    { unfold ws. by rewrite (sweep_run cls f w Hwr Hready_f). }
    assert (Hg1 : _saved w1 !! g = Some VNone).
    { destruct (compute_run cls f func_f recompute false w Hwr Hready_f Hwf)
        as (v & w' & w1' & _ & Hrun & Hs1 & _); [by rewrite Hsf|done|].
      unfold w1. rewrite Hrun. simpl. rewrite Hs1, lookup_insert_ne by done. exact Hsg. }
    rewrite <- Hws in Hsg.
    split; [apply elem_of_dom; by eexists|].
    split; [unfold DataHolder.__getitem__, bind, gets; simpl; by rewrite Hsg|].
    split; [apply elem_of_dom; by eexists|].
    unfold DataHolder.__getitem__, bind, gets; simpl; by rewrite Hg1.
  - intros Hnone Hsaved. by apply None_calls_run.
Qed.

Lemma C10_witness :
  let ws := final (sweep cls_fg "f" helpee_123) in
  let w1 := final (compute_or_return_saved cls_fg "f" func_sum false false helpee_123) in
  ("g" ∈ dom (_saved ws) /\
   DataHolder.__getitem__ "g" ws = Out (Ok VNone) ws [] /\
   "g" ∈ dom (_saved w1) /\
   DataHolder.__getitem__ "g" w1 = Out (Ok VNone) w1 []) /\
  (let o := call_n (compute_or_return_saved cls_fg "g" func_none false false) 3 helpee_123 in
   res o = Ok tt /\ calls o = ["g"; "g"; "g"]).
Proof.
  destruct (C10_None_is_stored_and_never_served
              cls_fg "f" "g" "x" 2%nat func_sum func_none false false 3 helpee_123)
    as [Ha Hb].
  - apply cls_fg_well_registered.
  - discriminate.
  - apply cls_fg_registered_f.
  - apply cls_fg_registered_g.
  - apply helpee_123_ready. apply elem_of_cons. by left.
  - apply helpee_123_ready. apply elem_of_cons. right. by apply list_elem_of_singleton.
  - apply func_sum_well_behaved.
  - apply func_none_well_behaved.
  - split.
    + apply Ha; by vm_compute.
    + apply Hb; [done|by vm_compute].
Defined.

(** ** The claims on tracked arrays *)

Lemma is_tracked_source w l src : source_at w l = Some src -> is_tracked w l.
Proof.
  unfold source_at, is_tracked, modified_at.
  destruct (arrays w !! l) as [a|]; [|done]. simpl.
  destruct (tracked a); [by eexists|done].
Qed.

(** The flags [_set_modified] does not touch. *)
Lemma modified_at_set_modified_other self w l :
  l <> self -> source_at w self <> Some (Some l) ->
  modified_at (flag_source (default None (source_at w self)) (flag true self w)) l
  = modified_at w l.
Proof.
  intros Hl Hsrc.
  destruct (source_at w self) as [[src|]|]; simpl.
  - case_decide; [|by apply modified_at_flag_ne].
    rewrite modified_at_flag_ne by congruence. by apply modified_at_flag_ne.
  - by apply modified_at_flag_ne.
  - by apply modified_at_flag_ne.
Qed.

Lemma mutate_flags_no_other `{Ufuncs} m self w l :
  is_tracked w self -> l <> self -> source_at w self <> Some (Some l) ->
  modified_at (final (mutate m self w)) l = modified_at w l.
Proof.
  intros Ht Hl Hsrc. destruct (mutate_run m self w Ht) as (r & w' & -> & Ha & _). simpl.
  rewrite (modified_at_arrays _ _ _ Ha). by apply modified_at_set_modified_other.
Qed.

(** C3 (amended).  Every in-place mutator (the in-place operators,
    [__idiv__], item and slice assignment) sets [_modified] on the array
    it is applied to and on the source that array records, whether the
    operation of the base class succeeds or raises, and leaves the flag of
    every other array as it was.  A view [a] of [b] records as its source
    [b] when [b] has no source, and the source of [b] otherwise; it is
    that array which a mutation of [a] flags, and when it is not [b] the
    flag of [b] is left as it was. *)
Theorem C3_mutators_flag_array_and_recorded_source `{Ufuncs}
    (m : mutator) (w : World) (b : loc) :
  is_tracked w b ->
  (forall src, source_at w b = Some (Some src) -> is_tracked w src) ->
  modified_at (final (mutate m b w)) b = Some true /\
  (forall src, source_at w b = Some (Some src) ->
               modified_at (final (mutate m b w)) src = Some true) /\
  (forall l, l <> b -> source_at w b <> Some (Some l) ->
             modified_at (final (mutate m b w)) l = modified_at w l) /\
  exists a w1 root,
    TrackedArray.view b w = Out (Ok a) w1 [] /\
    root = default b (default None (source_at w b)) /\
    source_at w1 a = Some (Some root) /\
    modified_at (final (mutate m a w1)) a = Some true /\
    modified_at (final (mutate m a w1)) root = Some true /\
    (root <> b -> modified_at (final (mutate m a w1)) b = modified_at w b).
Proof.
  intros Ht Hsrc. split; [by apply mutate_flags_self|].
  split; [intros src Hs; apply mutate_flags_source; auto|].
  split; [intros l Hl Hs; by apply mutate_flags_no_other|].
  destruct (is_tracked_lookup w b Ht) as (ab & sb & Hab & Hsb).
  set (w1 := with_arrays (fun h => h ++ [view_of b ab]) w).
  set (root := default b (default None (source_at w b))).
  assert (Hnew : arrays w1 !! length (arrays w) = Some (view_of b ab)).
  { unfold w1. simpl. rewrite lookup_app_r by done.
    by rewrite Nat.sub_diag. }
  assert (Hroot : source_at w1 (length (arrays w)) = Some (Some root)).
  { unfold source_at. rewrite Hnew. simpl. unfold root.
    rewrite (source_at_lookup w b ab Hab), Hsb. done. }
  assert (Hold : forall l, is_tracked w l -> is_tracked w1 l).
  { intros l [bl Hl]. exists bl. unfold modified_at in *. unfold w1. simpl.
    destruct (arrays w !! l) as [al|] eqn:Hal; [|done].
    by rewrite (lookup_app_l_Some _ _ _ _ Hal). }
  assert (Htroot : is_tracked w1 root).
  { apply Hold. unfold root. rewrite (source_at_lookup w b ab Hab), Hsb. simpl.
    destruct (_source sb) as [src|] eqn:Hsrcb; simpl; [|done].
    apply Hsrc. by rewrite (source_at_lookup w b ab Hab), Hsb, <- Hsrcb. }
  assert (Hta : is_tracked w1 (length (arrays w)))
    by (by apply (is_tracked_source _ _ (Some root))).
  exists (length (arrays w)), w1, root.
  split; [by apply (view_run b ab sb)|]. split; [done|]. split; [done|].
  split; [by apply mutate_flags_self|]. split; [by apply mutate_flags_source|].
  intros Hne. rewrite mutate_flags_no_other; [|done| |].
  - unfold modified_at, w1. simpl. by rewrite (lookup_app_l_Some _ _ _ _ Hab), Hab.
  - apply lookup_lt_Some in Hab. lia.
  - rewrite Hroot. congruence.
Qed.

Lemma C3_witness :
  let w := helpee_view_consumed in
  is_tracked w 3%nat /\ source_at w 3%nat = Some (Some 2%nat) /\
  modified_at (final (mutate (H := sample_ufuncs) (MSetitem (Idx 0) 9) 3%nat w)) 3%nat
    = Some true /\
  modified_at (final (mutate (H := sample_ufuncs) (MSetitem (Idx 0) 9) 3%nat w)) 2%nat
    = Some true.
Proof.
  intros w.
  assert (Ht : is_tracked w 3%nat) by (exists false; by vm_compute).
  assert (Hs : source_at w 3%nat = Some (Some 2%nat)) by (by vm_compute).
  split; [exact Ht|]. split; [exact Hs|].
  destruct (C3_mutators_flag_array_and_recorded_source (H := sample_ufuncs)
              (MSetitem (Idx 0) 9) w 3%nat Ht) as (Hself & Hsource & _).
  - intros src Hsrc. rewrite Hs in Hsrc. injection Hsrc as <-.
    exists true. by vm_compute.
  - split; [exact Hself|]. by apply Hsource.
Defined.

(** C3, as stated, fails: [b] is a view of [c] whose flag the cache has
    lowered, and [a] is created as a view of [b].  The in-place addition on
    [a] succeeds and flags [a] and [c]; [b] stays not modified. *)
Lemma C3_counterexample :
  let w := helpee_view_consumed in
  let o := (a <- TrackedArray.view 3%nat ;;
            TrackedArray.set_mutable a true ;;
            TrackedArray.__iadd__ (H := sample_ufuncs) a 5 ;;
            ret a) w in
  modified_at w 3%nat = Some false /\
  res o = Ok 4%nat /\
  modified_at (final o) 4%nat = Some true /\
  modified_at (final o) 2%nat = Some true /\
  modified_at (final o) 3%nat = Some false.
Proof. by vm_compute. Qed.

(** C9.  Item assignment on a write-protected tracked array raises the
    [ValueError] of the base class; the flags of the array and of its
    source are set all the same, and no element is written. *)
Theorem C9_rejected_write_still_flags
    (w : World) (v : loc) (key : index) (x : Z) :
  is_tracked w v -> writeable_at w v = Some false ->
  exists w',
    TrackedArray.__setitem__ v key x w = Out (Raise ValueError) w' [] /\
    modified_at w' v = Some true /\
    (forall b, source_at w v = Some (Some b) -> is_tracked w b ->
               modified_at w' b = Some true) /\
    buffers w' = buffers w.
Proof.
  intros Ht Hw.
  set (w1 := flag_source (default None (source_at w v)) (flag true v w)).
  exists w1. split; [|split; [|split]].
  - unfold TrackedArray.__setitem__.
    eapply (bind_run _ _ _ _ _ []); [by apply set_modified_run|].
    apply nd_setitem_read_only. unfold w1.
    by rewrite writeable_at_flag_source, writeable_at_flag.
  - apply modified_at_flag_source_mono. by apply modified_at_flag_eq.
  - intros b Hb Htb. unfold w1. rewrite Hb. simpl.
    rewrite decide_True by by apply is_tracked_flag.
    apply modified_at_flag_eq. by apply is_tracked_flag.
  - unfold w1. by destruct (flag_source_frame (default None (source_at w v)) (flag true v w))
      as (_ & _ & ->).
Qed.

Lemma C9_witness :
  let w := helpee_view_consumed in
  is_tracked w 3%nat /\ writeable_at w 3%nat = Some false /\
  exists w',
    TrackedArray.__setitem__ 3%nat (Idx 0) 9 w = Out (Raise ValueError) w' [] /\
    modified_at w' 3%nat = Some true /\
    (forall b, source_at w 3%nat = Some (Some b) -> is_tracked w b ->
               modified_at w' b = Some true) /\
    buffers w' = buffers w.
Proof.
  intros w.
  assert (Ht : is_tracked w 3%nat) by (exists false; by vm_compute).
  assert (Hw : writeable_at w 3%nat = Some false) by (by vm_compute).
  split; [exact Ht|]. split; [exact Hw|].
  exact (C9_rejected_write_still_flags w 3%nat (Idx 0) 9 Ht Hw).
Defined.

(** C5: the code at the failing input.  In Python 3 the read [a[0:2]] is
    [__getitem__] of the base class: the slice is a tracked array with the
    source [a], and it is writeable, so that the assignment through it
    succeeds and changes the elements of [a].  Only an explicit call of
    [__getslice__] yields the write-protected slice the claim describes. *)
Theorem C5_subscript_slice_is_writeable :
  let assign_through (read : loc -> index -> py value) : py loc :=
    (s <- read 2%nat (Slice 0 2) ;;
     match s with
     | VRef l => TrackedArray.__setitem__ l (Idx 0) 9 ;; ret l
     | _ => raise TypeError
     end) in
  let o := assign_through TrackedArray.subscript helpee_123 in
  let o' := assign_through TrackedArray.__getslice__ helpee_123 in
  (res o = Ok 3%nat /\
   writeable_at (final o) 3%nat = Some true /\
   source_at (final o) 3%nat = Some (Some 2%nat) /\
   attr_elements "x" helpee_123 = [1; 2; 3] /\
   attr_elements "x" (final o) = [9; 2; 3]) /\
  (res o' = Raise ValueError /\
   writeable_at (final o') 3%nat = Some false /\
   source_at (final o') 3%nat = Some (Some 2%nat) /\
   attr_elements "x" (final o') = [1; 2; 3]).
Proof. by vm_compute. Qed.

(** ** The factory *)

Lemma lookup_new {A} (h : list A) (x : A) : (h ++ [x]) !! length h = Some x.
Proof. rewrite lookup_app_r by done. by rewrite Nat.sub_diag. Qed.

Lemma alloc_array_run a w :
  alloc_array a w = Out (Ok (length (arrays w))) (with_arrays (fun h => h ++ [a]) w) [].
Proof. done. Qed.

(** The plain array [np.ascontiguousarray] allocates. *)
Lemma ascontiguousarray_run `{Numpy} array dtype w s d :
  np_ascontiguousarray array dtype = Ok (s, d) ->
  ascontiguousarray array dtype w
  = Out (Ok (length (arrays w)))
        (with_arrays (fun h => h ++ [
           {| tracked := None; writeable := true; shape := s;
              buffer := length (buffers w); offset := 0 |}])
           (with_buffers (fun h => h ++ [d]) w)) [].
Proof. intros Hc. unfold ascontiguousarray. by rewrite Hc. Qed.

(** Without [copy] the factory returns the plain array as it is: an array
    that is not tracked and has no [_modified]. *)
Lemma make_tracked_array_no_copy `{Numpy} array dtype w s d :
  np_ascontiguousarray (match array with ANone => ASeq [] | _ => array end) dtype
  = Ok (s, d) ->
  exists l w',
    make_tracked_array array dtype false w = Out (Ok l) w' [] /\
    (tracked <$> arrays w' !! l) = Some None /\
    modified_at w' l = None.
Proof.
  intros Hc. unfold make_tracked_array.
  eexists _, _. split.
  - eapply (bind_run _ _ _ _ _ []); [by apply ascontiguousarray_run|].
    eapply (bind_run _ _ _ _ _ []); done.
  - unfold modified_at. simpl. by rewrite lookup_new.
Qed.

(** With [copy] set the factory returns a tracked array: modified, without
    a source and writeable. *)
Lemma make_tracked_array_copy `{Numpy} array dtype w s d :
  np_ascontiguousarray (match array with ANone => ASeq [] | _ => array end) dtype
  = Ok (s, d) ->
  exists l w',
    make_tracked_array array dtype true w = Out (Ok l) w' [] /\
    modified_at w' l = Some true /\ source_at w' l = Some None /\
    writeable_at w' l = Some true.
Proof.
  intros Hc. unfold make_tracked_array.
  set (p := {| tracked := None; writeable := true; shape := s;
               buffer := length (buffers w); offset := 0 |}).
  remember (with_arrays (fun h => h ++ [p]) (with_buffers (fun h => h ++ [d]) w))
    as w1 eqn:Hw1.
  assert (Hp : arrays w1 !! length (arrays w) = Some p) by (subst w1; apply lookup_new).
  set (p2 := {| tracked := None; writeable := true; shape := shape p;
                buffer := length (buffers w1); offset := 0 |}).
  remember (with_arrays (fun h => h ++ [p2])
              (with_buffers (fun h => h ++ [elements_of p w1]) w1)) as w2 eqn:Hw2.
  assert (Hp2 : arrays w2 !! length (arrays w1) = Some p2) by (subst w2; apply lookup_new).
  set (t0 := {| tracked := Some {| _modified := false; _source := None |};
                writeable := writeable p2; shape := shape p2;
                buffer := buffer p2; offset := offset p2 |}).
  set (t := {| tracked := Some {| _modified := true; _source := None |};
               writeable := true; shape := shape p2;
               buffer := buffer p2; offset := offset p2 |}).
  exists (length (arrays w2)), (with_arrays (fun h => h ++ [t]) w2).
  split; [|unfold modified_at, source_at, writeable_at; simpl; by rewrite lookup_new].
  eapply (bind_run _ _ _ _ w1 []); [subst w1; by apply ascontiguousarray_run|].
  eapply (bind_run _ _ _ _ _ []); [|done].
  eapply (bind_run _ _ _ _ w2 []).
  - unfold nd.copy.
    eapply (bind_run _ _ _ _ _ []); [by apply get_array_Some|].
    eapply (bind_run _ _ _ _ _ []); [done|].
    eapply (bind_run _ _ _ _ _ []); [done|]. subst w2. done.
  - unfold view_as_TrackedArray.
    eapply (bind_run _ _ _ _ _ []); [by apply get_array_Some|].
    eapply (bind_run _ _ _ _ _ []); [apply alloc_array_run|].
    fold t0.
    eapply (bind_run _ _ _ _ (with_arrays (fun h => h ++ [t]) w2) []); [|done].
    unfold TrackedArray.__array_finalize__.
    eapply (bind_run _ _ _ _ (with_arrays (fun h => h ++ [t]) w2) []).
    + unfold set_slots, modify, with_arrays. cbn [arrays buffers attrs _saved].
      by rewrite alter_new.
    + eapply (bind_run _ _ _ _ _ []).
      * apply get_array_Some. cbn [arrays with_arrays].
        apply lookup_app_l_Some. exact Hp2.
      * done.
Qed.

(** Input that numpy cannot coerce makes the factory raise what numpy
    raises, whatever [copy] is. *)
Lemma make_tracked_array_ragged `{Numpy} array dtype copy w e :
  np_ascontiguousarray (match array with ANone => ASeq [] | _ => array end) dtype
  = Raise e ->
  make_tracked_array array dtype copy w = Out (Raise e) w [].
Proof.
  intros Hc. unfold make_tracked_array, ascontiguousarray, bind. by rewrite Hc.
Qed.

(** ** Slices *)

Lemma finalize_new_run h self a s (t0 : ndarray) w :
  arrays w = h ++ [t0] -> h !! self = Some a -> tracked a = Some s ->
  TrackedArray.__array_finalize__ (length h) self w
  = Out (Ok tt)
        (with_arrays (fun _ => h ++ [
           {| tracked := Some {| _modified := true;
                                 _source := Some (default self (_source s)) |};
              writeable := writeable t0; shape := shape t0;
              buffer := buffer t0; offset := offset t0 |}]) w) [].
Proof.
  intros Hw Ha Hs. destruct w as [arr bufs ats sv]. simpl in Hw. subst arr.
  unfold TrackedArray.__array_finalize__.
  eapply (bind_run _ _ _ _ _ []); [done|].
  eapply (bind_run _ _ _ _ _ []).
  - apply get_array_Some. cbn [arrays with_arrays]. rewrite alter_new.
    by apply lookup_app_l_Some.
  - rewrite Hs. unfold with_arrays. cbn [arrays buffers attrs _saved].
    rewrite alter_new.
    destruct (_source s) as [src|]; unfold set_slots, modify, with_arrays;
      cbn [arrays buffers attrs _saved]; by rewrite alter_new.
Qed.

(** The read [a[start:stop]] of a tracked array allocates one object, the
    slice, and changes nothing else: no flag is set and none of the write
    permissions is taken away. *)
Lemma subscript_slice_run self a s n rest start stop w :
  arrays w !! self = Some a -> tracked a = Some s -> shape a = n :: rest ->
  TrackedArray.subscript self (Slice start stop) w
  = Out (Ok (VRef (length (arrays w))))
        (with_arrays (fun h => h ++ [slice_of self a n rest start stop]) w) [].
Proof.
  intros Ha Hs Hshape. unfold TrackedArray.subscript, nd.__getitem__.
  eapply (bind_run _ _ _ _ _ []); [by apply get_array_Some|].
  rewrite Hshape. cbn iota.
  eapply (bind_run _ _ _ _ _ []); [|done].
  unfold nd.new_view.
  eapply (bind_run _ _ _ _ _ []); [by apply get_array_Some|].
  eapply (bind_run _ _ _ _ _ []); [apply alloc_array_run|].
  rewrite Hs.
  eapply (bind_run _ _ _ _ _ []); [|done].
  erewrite (finalize_new_run (arrays w) self a s); [|done..].
  unfold slice_of, with_arrays. rewrite Hs. done.
Qed.

Lemma lookup_flag b l l' w :
  arrays (flag b l w) !! l'
  = (if decide (l = l') then assign_modified b else id) <$> arrays w !! l'.
Proof.
  unfold flag. simpl. case_decide as E.
  - subst. by rewrite list_lookup_alter_eq.
  - rewrite list_lookup_alter_ne by done. by destruct (arrays w !! l').
Qed.

(** [_set_modified] changes slots only. *)
Lemma set_modified_keeps_layout self w l a :
  is_tracked w self -> arrays w !! l = Some a ->
  exists a',
    arrays (flag_source (default None (source_at w self)) (flag true self w)) !! l
    = Some a' /\
    writeable a' = writeable a /\ shape a' = shape a /\
    buffer a' = buffer a /\ offset a' = offset a.
Proof.
  intros Ht Ha.
  assert (H1 : exists a1, arrays (flag true self w) !! l = Some a1 /\
             writeable a1 = writeable a /\ shape a1 = shape a /\
             buffer a1 = buffer a /\ offset a1 = offset a).
  { rewrite lookup_flag, Ha.
    destruct (decide (self = l)); simpl; eexists; (split; [reflexivity|]); by repeat split. }
  destruct H1 as (a1 & Ha1 & Hw1 & Hs1 & Hb1 & Ho1).
  destruct (default None (source_at w self)) as [src|]; simpl; [|by eauto 10].
  case_decide; [|by eauto 10].
  rewrite lookup_flag, Ha1.
  destruct (decide (src = l)); simpl; eexists; (split; [reflexivity|]);
    simpl; by rewrite ?Hw1, ?Hs1, ?Hb1, ?Ho1.
Qed.

(** In Python 3 a slice read by [a[start:stop]] from a writeable tracked
    array is writeable, and the assignment to its first row succeeds. *)
Lemma subscript_slice_accepts_assignment self a n rest start stop v w :
  arrays w !! self = Some a -> is_tracked w self ->
  writeable a = true -> shape a = n :: rest ->
  (start < stop)%nat -> (start < n)%nat ->
  exists l w1 w2,
    TrackedArray.subscript self (Slice start stop) w = Out (Ok (VRef l)) w1 [] /\
    writeable_at w1 l = Some true /\
    TrackedArray.__setitem__ l (Idx 0) v w1 = Out (Ok tt) w2 [].
Proof.
  intros Ha Ht Hw Hshape Hlt Hn.
  destruct (is_tracked_lookup w self Ht) as (a0 & s & Ha0 & Hs).
  rewrite Ha in Ha0. injection Ha0 as <-.
  set (new := slice_of self a n rest start stop).
  set (w1 := with_arrays (fun h => h ++ [new]) w).
  assert (Hnew : arrays w1 !! length (arrays w) = Some new) by apply lookup_new.
  assert (Htn : is_tracked w1 (length (arrays w))).
  { exists true. unfold modified_at. by rewrite Hnew. }
  destruct (set_modified_keeps_layout _ w1 _ new Htn Hnew)
    as (new' & Hnew' & Hw' & Hs' & _).
  eexists (length (arrays w)), w1, _. split; [by apply (subscript_slice_run self a s)|].
  split; [unfold writeable_at; rewrite Hnew; simpl; by rewrite Hw|].
  unfold TrackedArray.__setitem__.
  eapply (bind_run _ _ _ _ _ []); [by apply set_modified_run|].
  unfold nd.__setitem__.
  eapply (bind_run _ _ _ _ _ []); [by apply get_array_Some|].
  rewrite Hw', Hs'. simpl. rewrite Hw. simpl.
  replace (normalise (Nat.min stop n - Nat.min start n) 0) with (Some 0%nat); [done|].
  unfold normalise. simpl.
  replace (0 <? Z.of_nat (Nat.min stop n - Nat.min start n)) with true; [done|].
  symmetry. apply Z.ltb_lt. lia.
Qed.

(** C6: the code at the failing input.  Without [copy] the factory returns
    the plain array of [np.ascontiguousarray]: it is not a tracked array
    and has no [_modified] flag.  With [copy] the same input gives a
    tracked array that is modified. *)
Theorem C6_without_copy_the_result_is_not_tracked `{Numpy} :
  let input := ASeq [ANum 1; ANum 2; ANum 3] in
  let o := make_tracked_array input None false new_world in
  let o' := make_tracked_array input None true new_world in
  (res o = Ok 0%nat /\
   (tracked <$> arrays (final o) !! 0%nat) = Some None /\
   modified_at (final o) 0%nat = None) /\
  (res o' = Ok 2%nat /\ modified_at (final o') 2%nat = Some true).
Proof. by vm_compute. Qed.

(** ** [unique_rows] *)

(** *** The byte strings of rows *)

Lemma length_le_bytes n z : length (le_bytes n z) = n.
Proof. revert z. induction n as [|n IH]; intros z; simpl; [done|]. by rewrite IH. Qed.

(** The bytes of an element determine it modulo [256 ^ itemsize]. *)
Lemma le_bytes_mod n z z' :
  le_bytes n z = le_bytes n z' -> z mod 256 ^ Z.of_nat n = z' mod 256 ^ Z.of_nat n.
Proof.
  revert z z'. induction n as [|n IH]; intros z z' E.
  - simpl. by rewrite !Z.mod_1_r.
  - simpl in E. injection E as E0 E1. apply IH in E1.
    rewrite Nat2Z.inj_succ, Z.pow_succ_r by lia.
    rewrite !Z.rem_mul_r by lia. by rewrite E0, E1.
Qed.

Lemma in_range_bounds n z :
  (0 < n)%nat -> in_range n z = true ->
  - (256 ^ Z.of_nat n) <= 2 * z < 256 ^ Z.of_nat n.
Proof.
  intros Hn H. unfold in_range in H.
  apply andb_true_iff in H as [H1 H2].
  apply Z.leb_le in H1. apply Z.ltb_lt in H2.
  assert (E : 256 ^ Z.of_nat n = 2 * 2 ^ (8 * Z.of_nat n - 1)).
  { change 256 with (2 ^ 8). rewrite <- Z.pow_mul_r by lia.
    rewrite <- Z.pow_succ_r by lia. f_equal. lia. }
  lia.
Qed.

(** Two elements the dtype can hold have the same bytes only when they
    are equal. *)
Lemma le_bytes_inj n z z' :
  (0 < n)%nat -> in_range n z = true -> in_range n z' = true ->
  le_bytes n z = le_bytes n z' -> z = z'.
Proof.
  intros Hn Hz Hz' E. apply le_bytes_mod in E.
  pose proof (in_range_bounds n z Hn Hz) as B.
  pose proof (in_range_bounds n z' Hn Hz') as B'.
  set (M := 256 ^ Z.of_nat n) in *.
  assert (HM : 0 < M) by (apply Z.pow_pos_nonneg; lia).
  assert (Hd : (z - z') mod M = 0).
  { rewrite Zminus_mod, E, Z.sub_diag. by apply Z.mod_0_l, Z.neq_sym, Z.lt_neq. }
  apply Z.mod_divide in Hd; [|lia]. destruct Hd as [c Hc].
  assert (c = 0) as ->; [|lia].
  destruct (Z.lt_trichotomy c 0) as [Hlt|[Heq|Hgt]]; [exfalso|done|exfalso].
  - assert (c * M <= - M) by nia. lia.
  - assert (M <= c * M) by nia. lia.
Qed.

Lemma row_bytes_inj n (r r' : list Z) :
  (0 < n)%nat -> length r = length r' ->
  Forall (fun z => in_range n z = true) r ->
  Forall (fun z => in_range n z = true) r' ->
  row_bytes n r = row_bytes n r' -> r = r'.
Proof.
  intros Hn. revert r'. induction r as [|z r IH]; intros [|z' r'] Hlen Hr Hr' E;
    simpl in Hlen; try done.
  apply Forall_cons in Hr as [Hz Hr]. apply Forall_cons in Hr' as [Hz' Hr'].
  unfold row_bytes in E. simpl in E.
  apply app_inj_1 in E as [E1 E2]; [|by rewrite !length_le_bytes].
  f_equal; [by apply (le_bytes_inj n)|]. apply IH; [lia|done..].
Qed.

(** *** The coercion of a list of rows *)

Lemma stack_numbers (r : list Z) :
  stack (map coerce (ANum <$> r))
  = Ok (if r is [] then None else Some [], Some <$> r).
Proof.
  induction r as [|z r IH]; [done|]. simpl. fold (fmap (M := list) ANum r).
  rewrite IH. by destruct r.
Qed.

Lemma coerce_row (r : list Z) :
  coerce (ASeq (ANum <$> r)) = Ok ([length r], Some <$> r).
Proof.
  simpl. rewrite stack_numbers. destruct r; [done|]. by rewrite length_fmap.
Qed.

Lemma stack_rows m (rows : list (list Z)) :
  rows <> [] -> Forall (fun r => length r = m) rows ->
  stack (map coerce ((fun r => ASeq (ANum <$> r)) <$> rows))
  = Ok (Some [m], Some <$> mjoin rows).
Proof.
  induction rows as [|r rows IH]; intros Hne Hlen; [done|].
  apply Forall_cons in Hlen as [Hr Hlen].
  cbn [fmap list_fmap map]. rewrite coerce_row. cbn [stack].
  fold (fmap (M := list) (fun r => ASeq (ANum <$> r)) rows).
  destruct rows as [|r' rows].
  - simpl. rewrite Hr. by rewrite app_nil_r.
  - rewrite IH by done. rewrite Hr, decide_True by done.
    cbn [mjoin list_join]. by rewrite !fmap_app.
Qed.

Lemma coerce_rows m (rows : list (list Z)) :
  rows <> [] -> Forall (fun r => length r = m) rows ->
  coerce (rows_literal rows) = Ok ([length rows; m], Some <$> mjoin rows).
Proof.
  intros Hne Hlen. unfold rows_literal. cbn [coerce].
  rewrite (stack_rows m) by done. by rewrite length_fmap.
Qed.

(** *** The conversion to an integer dtype *)

(** A number the dtype can hold is its own cast. *)
Lemma wrap_in_range n z : in_range n z = true -> wrap n z = z.
Proof.
  unfold in_range, wrap. intros H.
  apply andb_true_iff in H as [H1 H2]. apply Z.leb_le in H1. apply Z.ltb_lt in H2.
  destruct n as [|n].
  { simpl in *. change (2 ^ (-1)) with 0 in *. lia. }
  set (k := 8 * Z.of_nat (S n)) in *.
  assert (Hk : 0 < k) by (unfold k; lia).
  assert (E : 2 ^ k = 2 * 2 ^ (k - 1)).
  { rewrite <- Z.pow_succ_r by lia. f_equal. lia. }
  assert (Hp : 0 < 2 ^ (k - 1)) by (apply Z.pow_pos_nonneg; lia).
  cbv zeta. rewrite E.
  destruct (Z.leb_spec 0 z) as [Hz|Hz].
  - rewrite Z.mod_small by lia. by rewrite (proj2 (Z.ltb_lt _ _)) by lia.
  - assert (Hm : z mod (2 * 2 ^ (k - 1)) = z + 2 * 2 ^ (k - 1)).
    { symmetry. apply Z.mod_unique with (-1); lia. }
    rewrite Hm. rewrite (proj2 (Z.ltb_ge _ _)) by lia. lia.
Qed.

(** Cells that are numbers the dtype can hold are converted to
    themselves, whatever the version of numpy and whether they come from
    an array or not. *)
Lemma convert_all_in_range `{Numpy} from_array n (zs : list Z) :
  Forall (fun z => in_range n z = true) zs ->
  convert_all from_array n (Some <$> zs) = Ok zs.
Proof.
  induction 1 as [|z zs Hz _ IH]; [done|].
  cbn [fmap list_fmap convert_all convert]. rewrite Hz.
  fold (fmap (M := list) (@Some Z) zs). by rewrite IH.
Qed.

Lemma astype_in_range `{Numpy} from_array dtype (zs : list Z) :
  (forall n, dtype = Some n -> Forall (fun z => in_range n z = true) zs) ->
  astype from_array dtype (Some <$> zs) = Ok zs.
Proof.
  intros Hfit. destruct dtype as [n|]; simpl.
  - by apply convert_all_in_range, Hfit.
  - rewrite <- list_fmap_compose. by rewrite list_fmap_id.
Qed.

Lemma reshape_rows m (rows : list (list Z)) :
  Forall (fun r => length r = m) rows ->
  reshape (replicate (length rows) m) (mjoin rows) = rows.
Proof.
  induction 1 as [|r rows Hr Hlen IH]; [done|]. simpl.
  rewrite take_app_length', drop_app_length' by done. by rewrite IH.
Qed.

(** *** [np.unique] *)

Lemma first_index_lookup (k : list Z) (l : list (list Z)) :
  k ∈ l -> l !! first_index k l = Some k.
Proof.
  intros Hk. unfold first_index.
  destruct (list_find_elem_of (fun x => x = k) l k Hk eq_refl) as [[i x] Hf].
  rewrite Hf. apply list_find_Some in Hf as (Hi & -> & _). done.
Qed.

Lemma elem_of_uniq (k : list Z) (ar : list (list Z)) :
  k ∈ merge_sort bytes_le (remove_dups ar) <-> k ∈ ar.
Proof. by rewrite merge_sort_Permutation, elem_of_remove_dups. Qed.


(** [make_c_contiguous] on rows of one length of numbers the dtype can
    hold, passed as a list of lists or as an integer array: the array of
    the rows. *)
Lemma make_c_contiguous_rows `{Numpy} itemsize m (rows : list (list Z)) in_arr :
  rows <> [] ->
  Forall (fun r => length r = m /\ Forall (fun z => in_range itemsize z = true) r) rows ->
  rows_input in_arr rows ->
  make_c_contiguous in_arr (Some itemsize) = Ok (Some ([length rows; m], mjoin rows)).
Proof.
  intros Hne Hrows Hin.
  assert (Hlen : Forall (fun r => length r = m) rows).
  { eapply Forall_impl; [exact Hrows|]. by intros r [? _]. }
  assert (Hrange : Forall (fun z => in_range itemsize z = true) (mjoin rows)).
  { apply Forall_forall. intros z Hz.
    apply list_elem_of_join in Hz as (r & Hz & Hr).
    rewrite Forall_forall in Hrows. destruct (Hrows r Hr) as [_ Hr'].
    rewrite Forall_forall in Hr'. by apply Hr'. }
  destruct Hin as [-> | ->]; unfold make_c_contiguous, np_ascontiguousarray.
  - unfold rows_literal at 1. rewrite (coerce_rows m) by done.
    by rewrite astype_in_range by (by intros n [= <-]).
  - rewrite (coerce_rows m) by done.
    by rewrite astype_in_range by (by intros n [= <-]).
Qed.





(** * Further properties *)

(** ** [is_shape] and [is_one_of_shapes] *)

Lemma is_shape_loop_fits (s : list nat) (shape : list Z) (strict : bool) :
  is_shape_loop (zip s shape) strict
  = if forallb (fun p => (p.2 <? 0) || (Z.of_nat p.1 =? p.2)) (zip s shape)
    then Ok true else if strict then Raise ValueError else Ok false.
Proof.
  generalize (zip s shape). intros pairs.
  induction pairs as [|[a p] pairs IH]; [done|]. simpl.
  destruct (p <? 0); simpl; [exact IH|].
  destruct (Z.of_nat a =? p); simpl; [exact IH|done].
Qed.

(** [is_shape] on an input numpy can take the shape of. *)
Lemma is_shape_run (arr : array_like) (arr_shape : list nat)
    (shape : list Z) (strict : bool) :
  asanyarray_shape arr = Ok arr_shape ->
  is_shape arr shape strict
  = if fits arr_shape shape then Ok true
    else if strict then Raise ValueError else Ok false.
Proof.
  intros Hs. unfold is_shape, fits. rewrite Hs.
  destruct (length arr_shape =? length shape)%nat; simpl; [|done].
  apply is_shape_loop_fits.
Qed.

(** X1: [is_shape] decides whether the shape fits the pattern.  Without
    [strict] it answers; with [strict] it returns [True] or raises
    [ValueError], and never returns [False]. *)
Theorem is_shape_decides_fits (arr : array_like) (arr_shape : list nat)
    (shape : list Z) (strict : bool) :
  asanyarray_shape arr = Ok arr_shape ->
  is_shape arr shape strict
  = if fits arr_shape shape then Ok true
    else if strict then Raise ValueError else Ok false.
Proof. apply is_shape_run. Qed.

Lemma is_shape_decides_fits_witness :
  asanyarray_shape (rows_literal [[1; 2]; [3; 4]; [5; 6]]) = Ok [3; 2]%nat /\
  is_shape (rows_literal [[1; 2]; [3; 4]; [5; 6]]) [-1; 2] true = Ok true /\
  is_shape (rows_literal [[1; 2]; [3; 4]; [5; 6]]) [-1; 3] true = Raise ValueError /\
  is_shape (rows_literal [[1; 2]; [3; 4]; [5; 6]]) [-1; 3] false = Ok false.
Proof.
  assert (Hs : asanyarray_shape (rows_literal [[1; 2]; [3; 4]; [5; 6]]) = Ok [3; 2]%nat)
    by reflexivity.
  split; [exact Hs|].
  split; [exact (is_shape_decides_fits _ _ [-1; 2] true Hs)|].
  split; [exact (is_shape_decides_fits _ _ [-1; 3] true Hs)|].
  exact (is_shape_decides_fits _ _ [-1; 3] false Hs).
Defined.

Lemma fits_own_shape (s : list nat) (shape : list Z) :
  Forall2 (fun a p => p < 0 \/ p = Z.of_nat a) s shape -> fits s shape = true.
Proof.
  intros H. unfold fits. rewrite (Forall2_length _ _ _ H), Nat.eqb_refl. simpl.
  induction H as [|a p s shape Hap H IH]; [done|]. simpl. rewrite IH, andb_true_r.
  destruct Hap as [Hneg| ->].
  - apply orb_true_iff. left. by apply Z.ltb_lt.
  - apply orb_true_iff. right. by apply Z.eqb_eq.
Qed.

(** X2: an array has its own shape, and a negative entry of the pattern is a
    wild card: [is_shape] returns [True], strict or not, whenever each
    entry of the pattern is negative or the length of its axis. *)
Theorem is_shape_accepts_own_shape_and_wild_cards (arr : array_like)
    (arr_shape : list nat) (shape : list Z) (strict : bool) :
  asanyarray_shape arr = Ok arr_shape ->
  Forall2 (fun a p => p < 0 \/ p = Z.of_nat a) arr_shape shape ->
  is_shape arr shape strict = Ok true.
Proof.
  intros Hs Hfit. rewrite (is_shape_run arr arr_shape shape strict Hs).
  by rewrite fits_own_shape.
Qed.

Lemma is_shape_accepts_own_shape_and_wild_cards_witness :
  is_shape (rows_literal [[1; 2]; [3; 4]; [5; 6]]) [3; -7] true = Ok true.
Proof.
  apply (is_shape_accepts_own_shape_and_wild_cards _ [3; 2]%nat); [reflexivity|].
  constructor; [right; reflexivity|].
  constructor; [left; lia|]. constructor.
Defined.

Lemma is_one_of_shapes_loop_exists arr arr_shape shapes matches :
  asanyarray_shape arr = Ok arr_shape ->
  is_one_of_shapes_loop arr shapes matches
  = Ok (matches || existsb (fits arr_shape) shapes).
Proof.
  intros Hs. revert matches.
  induction shapes as [|s shapes IH]; intros matches; simpl.
  - by rewrite orb_false_r.
  - rewrite (is_shape_run arr arr_shape s false Hs).
    destruct (fits arr_shape s); simpl; rewrite IH.
    + by rewrite orb_true_r.
    + done.
Qed.

(** X3: [is_one_of_shapes] returns [True] exactly when one of the patterns
    fits; when none does (in particular when there is no pattern) it
    returns [False], or raises [ValueError] under [strict]. *)
Theorem is_one_of_shapes_decides (arr : array_like) (arr_shape : list nat)
    (shapes : list (list Z)) (strict : bool) :
  asanyarray_shape arr = Ok arr_shape ->
  is_one_of_shapes arr shapes strict
  = if existsb (fits arr_shape) shapes then Ok true
    else if strict then Raise ValueError else Ok false.
Proof.
  intros Hs. unfold is_one_of_shapes. rewrite Hs.
  rewrite (is_one_of_shapes_loop_exists arr arr_shape shapes false Hs). simpl.
  by destruct (existsb (fits arr_shape) shapes).
Qed.

Lemma is_one_of_shapes_decides_witness :
  is_one_of_shapes (rows_literal [[1; 2]; [3; 4]; [5; 6]]) [[2; 2]; [-1; 2]] true = Ok true /\
  is_one_of_shapes (rows_literal [[1; 2]; [3; 4]; [5; 6]]) [] true = Raise ValueError.
Proof.
  assert (Hs : asanyarray_shape (rows_literal [[1; 2]; [3; 4]; [5; 6]]) = Ok [3; 2]%nat)
    by reflexivity.
  split.
  - exact (is_one_of_shapes_decides _ [3; 2]%nat [[2; 2]; [-1; 2]] true Hs).
  - exact (is_one_of_shapes_decides _ [3; 2]%nat [] true Hs).
Defined.

(** ** [select_with_ranges] *)

Lemma where_true_cons (j : nat) (b : bool) (mask : list bool) :
  (filter (fun p => p.2 = true) (zip (seq j (length (b :: mask))) (b :: mask))).*1
  = (if b then [j] else [])
    ++ (filter (fun p => p.2 = true) (zip (seq (S j) (length mask)) mask)).*1.
Proof.
  simpl. destruct b.
  - by rewrite filter_cons_True.
  - by rewrite filter_cons_False.
Qed.

Lemma elem_of_where_from (j k : nat) (mask : list bool) :
  k ∈ (filter (fun p => p.2 = true) (zip (seq j (length mask)) mask)).*1
  <-> (j <= k)%nat /\ mask !! (k - j)%nat = Some true.
Proof.
  revert j. induction mask as [|b mask IH]; intros j.
  - simpl. split; [by intros ?%elem_of_nil|by intros [_ ?]].
  - rewrite where_true_cons, elem_of_app, IH. split.
    + intros [Hk|[Hle Hk]].
      * destruct b; [|by apply elem_of_nil in Hk].
        apply list_elem_of_singleton in Hk as ->. by rewrite Nat.sub_diag.
      * split; [lia|]. by replace (k - j)%nat with (S (k - S j)) by lia.
    + intros [Hle Hk]. destruct (decide (k = j)) as [->|Hne].
      * left. rewrite Nat.sub_diag in Hk. injection Hk as ->.
        by apply list_elem_of_singleton.
      * right. split; [lia|].
        by replace (k - j)%nat with (S (k - S j)) in Hk by lia.
Qed.

Lemma where_from_sorted (j : nat) (mask : list bool) :
  StronglySorted lt
    (filter (fun p => p.2 = true) (zip (seq j (length mask)) mask)).*1.
Proof.
  revert j. induction mask as [|b mask IH]; intros j; [constructor|].
  rewrite where_true_cons. destruct b; simpl; [|apply IH].
  constructor; [apply IH|]. apply Forall_forall. intros k Hk.
  apply elem_of_where_from in Hk. lia.
Qed.

Lemma elem_of_where_true (k : nat) (mask : list bool) :
  k ∈ where_true mask <-> mask !! k = Some true.
Proof.
  unfold where_true. rewrite elem_of_where_from, Nat.sub_0_r. split; [by intros [_ ?]|].
  intros H. split; [lia|done].
Qed.

Lemma lookup_zip_with_true (f : bool -> bool -> bool) (a b : list bool) (k : nat) :
  zip_with f a b !! k = Some true
  <-> exists x y, a !! k = Some x /\ b !! k = Some y /\ f x y = true.
Proof.
  rewrite lookup_zip_with. split.
  - destruct (a !! k) as [x|]; simpl; [|done].
    destruct (b !! k) as [y|]; simpl; [|done]. intros [= H]. eauto.
  - intros (x & y & -> & -> & H). simpl. by rewrite H.
Qed.

Lemma window_mask_lookup ncols rows i r0 r1 col k :
  column ncols rows i = Ok col ->
  (if r0 <? r1
   then zip_with andb ((fun x => r0 <? x) <$> col) ((fun x => x <? r1) <$> col)
   else zip_with orb ((fun x => r0 <? x) <$> col) ((fun x => x <? r1) <$> col)) !! k
  = Some true
  <-> exists row, rows !! k = Some row /\ in_window (r0, r1) (default 0 (row !! i)) = true.
Proof.
  unfold column. destruct (i <? ncols)%nat; [|done]. intros [= <-].
  unfold in_window. simpl.
  destruct (r0 <? r1); rewrite lookup_zip_with_true, !list_lookup_fmap;
    (split;
     [intros (x & y & Hx & Hy & H); destruct (rows !! k) as [row|]; [|done];
      simpl in *; injection Hx as <-; injection Hy as <-; by exists row
     |intros (row & -> & H); simpl; by eexists _, _]).
Qed.

Lemma window_mask_length ncols rows i r0 r1 col :
  column ncols rows i = Ok col ->
  length (if r0 <? r1
          then zip_with andb ((fun x => r0 <? x) <$> col) ((fun x => x <? r1) <$> col)
          else zip_with orb ((fun x => r0 <? x) <$> col) ((fun x => x <? r1) <$> col))
  = length rows.
Proof.
  unfold column. destruct (i <? ncols)%nat; [|done]. intros [= <-].
  destruct (r0 <? r1); rewrite length_zip_with, !length_fmap; lia.
Qed.

(** The masks of the first loop, when every range names a column of the
    array. *)
Lemma range_masks_run ncols rows ranges i :
  (forall c r, ranges !! c = Some (Some r) -> (i + c < ncols)%nat) ->
  exists masks,
    range_masks ncols rows i ranges = Ok masks /\
    Forall (fun m => length m = length rows) masks /\
    (masks = [] <-> Forall (fun r => r = None) ranges) /\
    forall k,
      (forall m, m ∈ masks -> m !! k = Some true)
      <-> (forall c r, ranges !! c = Some (Some r) ->
             exists row, rows !! k = Some row /\
                         in_window r (default 0 (row !! (i + c)%nat)) = true).
Proof.
  revert i. induction ranges as [|[[r0 r1]|] ranges IH]; intros i Hcols.
  - exists []. split; [done|]. split; [constructor|]. split; [done|].
    intros k. split; [by intros _ c r ?|by intros _ m ?%elem_of_nil].
  - assert (Hi : (i <? ncols)%nat = true).
    { apply Nat.ltb_lt. specialize (Hcols 0%nat (r0, r1) eq_refl). lia. }
    destruct (IH (S i)) as (masks & Hrun & Hlen & _ & Hk).
    { intros c r Hc. specialize (Hcols (S c) r Hc). lia. }
    simpl. destruct (column ncols rows i) as [col|e] eqn:Hcol;
      [|unfold column in Hcol; by rewrite Hi in Hcol].
    rewrite Hrun. eexists. split; [done|].
    split; [constructor; [by apply (window_mask_length ncols rows i)|done]|].
    split; [split; [done|by intros [? _]%Forall_cons_1]|].
    intros k. split.
    + intros Hall [|c] r Hc.
      * simpl in Hc. injection Hc as <-. rewrite Nat.add_0_r.
        apply (window_mask_lookup ncols rows i r0 r1 col k Hcol).
        apply Hall. by left.
      * replace (i + S c)%nat with (S i + c)%nat by lia.
        apply (proj1 (Hk k)); [|done]. intros m Hm. apply Hall. by right.
    + intros Hall m Hm. apply elem_of_cons in Hm as [->|Hm].
      * apply (window_mask_lookup ncols rows i r0 r1 col k Hcol).
        specialize (Hall 0%nat (r0, r1) eq_refl). by rewrite Nat.add_0_r in Hall.
      * apply (proj2 (Hk k)); [|done]. intros c r Hc.
        specialize (Hall (S c) r Hc). by replace (S i + c)%nat with (i + S c)%nat by lia.
  - destruct (IH (S i)) as (masks & Hrun & Hlen & Hnil & Hk).
    { intros c r Hc. specialize (Hcols (S c) r Hc). lia. }
    simpl. exists masks. split; [done|]. split; [done|]. split.
    + rewrite Hnil. split; [by constructor|by intros [_ ?]%Forall_cons_1].
    + intros k. rewrite Hk. split.
      * intros Hall [|c] r Hc; [done|].
        specialize (Hall c r Hc). by replace (i + S c)%nat with (S i + c)%nat by lia.
      * intros Hall c r Hc. specialize (Hall (S c) r Hc).
        by replace (S i + c)%nat with (i + S c)%nat by lia.
Qed.

Lemma fold_masks_and (i : nat) (mask : list bool) (masks : list (list bool)) (k : nat) :
  fold_masks (S i) mask masks !! k = Some true
  <-> mask !! k = Some true /\ forall m, m ∈ masks -> m !! k = Some true.
Proof.
  revert i mask. induction masks as [|m masks IH]; intros i mask; simpl.
  - split; [intros H; split; [done|by intros m ?%elem_of_nil]|by intros [? _]].
  - rewrite IH, lookup_zip_with_true. split.
    + intros [(x & y & Hx & Hy & Hxy) Hrest]. apply andb_true_iff in Hxy as [-> ->].
      split; [done|]. intros m' Hm'. apply elem_of_cons in Hm' as [->|Hm']; auto.
    + intros [Hmask Hall]. split.
      * exists true, true. split; [done|]. split; [|done]. apply Hall. by left.
      * intros m' Hm'. apply Hall. by right.
Qed.

Lemma fold_masks_all (n : nat) (masks : list (list bool)) (k : nat) :
  masks <> [] -> Forall (fun m => length m = n) masks ->
  fold_masks 0 (replicate n false) masks !! k = Some true
  <-> forall m, m ∈ masks -> m !! k = Some true.
Proof.
  intros Hne Hlen. destruct masks as [|m masks]; [done|].
  apply Forall_cons_1 in Hlen as [Hm _]. simpl.
  rewrite fold_masks_and, lookup_zip_with_true. split.
  - intros [(x & y & Hx & Hy & Hxy) Hrest]. apply lookup_replicate in Hx as [-> _].
    simpl in Hxy. subst y. intros m' Hm'. apply elem_of_cons in Hm' as [->|Hm']; auto.
  - intros Hall. assert (Hmk : m !! k = Some true) by (apply Hall; by left).
    split.
    + exists false, true. split; [|done]. apply lookup_replicate. split; [done|].
      apply lookup_lt_Some in Hmk. lia.
    + intros m' Hm'. apply Hall. by right.
Qed.

(** The selection, with an absent element read as [0]. *)
Lemma select_with_ranges_run (ncols : nat) (rows : list (list Z))
    (ranges : list (option (Z * Z))) :
  (forall c r, ranges !! c = Some (Some r) -> (c < ncols)%nat) ->
  (exists c r, ranges !! c = Some (Some r)) ->
  exists ids,
    select_with_ranges ncols rows ranges = Ok ids /\
    StronglySorted lt ids /\
    forall k, k ∈ ids <->
      exists row, rows !! k = Some row /\
        forall c r, ranges !! c = Some (Some r) ->
                    in_window r (default 0 (row !! c)) = true.
Proof.
  intros Hcols (c0 & r0 & Hc0).
  destruct (range_masks_run ncols rows ranges 0 Hcols) as (masks & Hrun & Hlen & Hnil & Hk).
  assert (Hne : masks <> []).
  { intros E. apply Hnil in E. rewrite Forall_forall in E.
    apply list_elem_of_lookup_2 in Hc0. by apply E in Hc0. }
  assert (Hsel : forall k,
    (forall m, m ∈ masks -> m !! k = Some true) <->
    exists row, rows !! k = Some row /\
      forall c r, ranges !! c = Some (Some r) ->
                  in_window r (default 0 (row !! c)) = true).
  { intros k. rewrite Hk. split.
    - intros Hall. destruct (Hall c0 r0 Hc0) as (row & Hrow & _). exists row.
      split; [done|]. intros c r Hc. destruct (Hall c r Hc) as (row' & Hrow' & Hw).
      rewrite Hrow in Hrow'. injection Hrow' as <-. exact Hw.
    - intros (row & Hrow & Hall) c r Hc. exists row. split; [done|]. by apply Hall. }
  unfold select_with_ranges. rewrite Hrun.
  destruct (1 <? length masks)%nat eqn:Hmany.
  - eexists. split; [done|]. split; [apply where_from_sorted|].
    intros k. by rewrite elem_of_where_true, (fold_masks_all _ _ _ Hne Hlen), Hsel.
  - destruct masks as [|m [|m' masks]]; [done| |done].
    eexists. split; [done|]. split; [apply where_from_sorted|].
    intros k. rewrite elem_of_where_true, <- Hsel. split.
    + intros H m' Hm'. by apply list_elem_of_singleton in Hm' as ->.
    + intros H. apply H. by apply list_elem_of_singleton.
Qed.

(** X4: for an array of [ncols] columns, when every range names a column
    and at least one range is given, [select_with_ranges] returns, in
    ascending order and without repetition, exactly the indices of the rows
    whose elements lie in every given window: strictly between the two ends
    of an ascending range, strictly outside them otherwise. *)
Theorem select_with_ranges_selects (ncols : nat) (rows : list (list Z))
    (ranges : list (option (Z * Z))) :
  Forall (fun row => length row = ncols) rows ->
  (forall c r, ranges !! c = Some (Some r) -> (c < ncols)%nat) ->
  (exists c r, ranges !! c = Some (Some r)) ->
  exists ids,
    select_with_ranges ncols rows ranges = Ok ids /\
    StronglySorted lt ids /\
    forall k, k ∈ ids <->
      exists row, rows !! k = Some row /\
        forall c r, ranges !! c = Some (Some r) ->
                    exists x, row !! c = Some x /\ in_window r x = true.
Proof.
  intros Hrect Hcols Hsome.
  destruct (select_with_ranges_run ncols rows ranges Hcols Hsome) as (ids & Hrun & Hs & Hk).
  exists ids. split; [done|]. split; [done|]. intros k. rewrite Hk.
  split; intros (row & Hrow & Hall); exists row; (split; [done|]); intros c r Hc.
  - pose proof (Forall_lookup_1 _ _ _ _ Hrect Hrow) as Hlen. simpl in Hlen.
    destruct (lookup_lt_is_Some_2 row c) as [x Hx]; [rewrite Hlen; by apply (Hcols c r)|].
    exists x. split; [done|]. specialize (Hall c r Hc). by rewrite Hx in Hall.
  - destruct (Hall c r Hc) as (x & Hx & Hw). by rewrite Hx.
Qed.

Lemma select_with_ranges_selects_witness :
  let rows := [[1; 10]; [5; 20]; [9; 30]; [5; 40]] in
  let ranges := [Some (2, 8); None] in
  exists ids,
    select_with_ranges 2 rows ranges = Ok ids /\
    StronglySorted lt ids /\
    forall k, k ∈ ids <->
      exists row, rows !! k = Some row /\
        forall c r, ranges !! c = Some (Some r) ->
                    exists x, row !! c = Some x /\ in_window r x = true.
Proof.
  apply (select_with_ranges_selects 2 [[1; 10]; [5; 20]; [9; 30]; [5; 40]]
           [Some (2, 8); None]).
  - by repeat constructor.
  - intros [|[|c]] r H; simpl in H; [lia|discriminate|discriminate].
  - by exists 0%nat, (2, 8).
Defined.

(** X5: [select_with_ranges] raises [IndexError] when no range is given
    (every entry is [None], or there is none), and when a range names a
    column the array does not have. *)
Theorem select_with_ranges_raises (ncols : nat) (rows : list (list Z))
    (ranges : list (option (Z * Z))) :
  Forall (fun r => r = None) ranges \/
  (exists c r, ranges !! c = Some (Some r) /\ (ncols <= c)%nat) ->
  select_with_ranges ncols rows ranges = Raise IndexError.
Proof.
  intros [Hnone|(c & r & Hc & Hle)].
  - destruct (range_masks_run ncols rows ranges 0) as (masks & Hrun & _ & Hnil & _).
    { intros c r Hc. rewrite Forall_forall in Hnone.
      apply list_elem_of_lookup_2 in Hc. by apply Hnone in Hc. }
    unfold select_with_ranges. rewrite Hrun.
    apply Hnil in Hnone. by subst masks.
  - unfold select_with_ranges.
    assert (H : forall i, (ncols <= i + c)%nat ->
              range_masks ncols rows i ranges = Raise IndexError).
    { clear Hle. revert c Hc.
      induction ranges as [|[[r0 r1]|] ranges IH]; intros c Hc i Hle; [done| |].
      - simpl. unfold column. destruct (i <? ncols)%nat eqn:Hi; [|done].
        destruct c as [|c]; [apply Nat.ltb_lt in Hi; lia|].
        rewrite (IH c Hc (S i)) by lia. done.
      - simpl. destruct c as [|c]; [done|]. apply (IH c Hc). lia. }
    by rewrite H.
Qed.

Lemma select_with_ranges_raises_witness :
  select_with_ranges 2 [[1; 10]; [5; 20]] [None; None] = Raise IndexError /\
  select_with_ranges 2 [[1; 10]; [5; 20]] [None; None; Some (0, 1)] = Raise IndexError.
Proof.
  split.
  - apply select_with_ranges_raises. left. by repeat constructor.
  - apply select_with_ranges_raises. right. exists 2%nat, (0, 1). split; [done|lia].
Defined.

(** ** [bounds] *)

Section Reduce.

Variable f : Z -> Z -> Z.
Variable R : Z -> Z -> Prop.
Hypothesis f_l : forall x y, R (f x y) x.
Hypothesis f_r : forall x y, R (f x y) y.
Hypothesis f_one : forall x y, f x y = x \/ f x y = y.
Hypothesis R_trans : forall x y z, R x y -> R y z -> R x z.
Hypothesis R_refl : forall x, R x x.

(** A column-wise reduction of rows of one length: each result is related
    to every element of its column, and is one of them. *)
Lemma reduce_columns (acc : list Z) (rest : list (list Z)) :
  Forall (fun r => length r = length acc) rest ->
  length (foldl (zip_with f) acc rest) = length acc /\
  forall c l, foldl (zip_with f) acc rest !! c = Some l ->
    (forall row, row ∈ acc :: rest -> exists x, row !! c = Some x /\ R l x) /\
    (exists row, row ∈ acc :: rest /\ row !! c = Some l).
Proof.
  revert acc. induction rest as [|r rest IH]; intros acc Hlen; simpl.
  - split; [done|]. intros c l Hl. split.
    + intros row Hrow. apply list_elem_of_singleton in Hrow as ->. eauto.
    + exists acc. split; [by left|done].
  - apply Forall_cons_1 in Hlen as [Hr Hlen].
    assert (Hz : length (zip_with f acc r) = length acc)
      by (rewrite length_zip_with; lia).
    destruct (IH (zip_with f acc r)) as [Hl IHc]; [by rewrite Hz|].
    split; [by rewrite Hl|]. intros c l Hc.
    destruct (IHc c l Hc) as [Hall (row0 & Hrow0 & Hat)].
    destruct (Hall (zip_with f acc r)) as (m & Hm & Hlm); [by left|].
    apply lookup_zip_with_Some in Hm as (a & b & -> & Ha & Hb).
    split.
    + intros row Hrow. apply elem_of_cons in Hrow as [->|Hrow].
      { exists a. split; [done|]. eapply R_trans; [exact Hlm|apply f_l]. }
      apply elem_of_cons in Hrow as [->|Hrow].
      { exists b. split; [done|]. eapply R_trans; [exact Hlm|apply f_r]. }
      apply Hall. by right.
    + apply elem_of_cons in Hrow0 as [->|Hrow0].
      * apply lookup_zip_with_Some in Hat as (a' & b' & -> & Ha' & Hb').
        destruct (f_one a' b') as [E|E]; rewrite E.
        -- exists acc. split; [by left|done].
        -- exists r. split; [right; by left|done].
      * exists row0. split; [by do 2 right|done].
Qed.

End Reduce.

Lemma min_is_one x y : Z.min x y = x \/ Z.min x y = y.
Proof. lia. Qed.

Lemma max_is_one x y : Z.max x y = x \/ Z.max x y = y.
Proof. lia. Qed.

(** X6: for an array with at least one row, rows of one length, [bounds]
    returns two rows of that length: in every column the first is at most,
    and the second at least, every element of the column, and both are
    elements of the column. *)
Theorem bounds_are_attained_extremes (r : list Z) (rest : list (list Z)) :
  Forall (fun r' => length r' = length r) rest ->
  exists lo hi,
    bounds (r :: rest) = Ok [lo; hi] /\
    length lo = length r /\ length hi = length r /\
    (forall c row x, row ∈ r :: rest -> row !! c = Some x ->
       exists l h, lo !! c = Some l /\ hi !! c = Some h /\ l <= x <= h) /\
    (forall c l, lo !! c = Some l -> exists row, row ∈ r :: rest /\ row !! c = Some l) /\
    (forall c h, hi !! c = Some h -> exists row, row ∈ r :: rest /\ row !! c = Some h).
Proof.
  intros Hlen.
  destruct (reduce_columns Z.min Z.le Z.le_min_l Z.le_min_r
              min_is_one Z.le_trans Z.le_refl r rest Hlen)
    as [Hllo Hlo].
  destruct (reduce_columns Z.max (fun a b => b <= a) Z.le_max_l Z.le_max_r
              max_is_one (fun x y z Hxy Hyz => Z.le_trans z y x Hyz Hxy)
              Z.le_refl r rest Hlen)
    as [Hlhi Hhi].
  assert (Hrect : forallb (fun r' => (length r' =? length r)%nat) rest = true).
  { apply forallb_forall. intros r' Hr'. apply list_elem_of_In in Hr'.
    rewrite Forall_forall in Hlen. apply Nat.eqb_eq. by apply Hlen. }
  eexists _, _. split; [unfold bounds; by rewrite Hrect|]. split; [done|]. split; [done|].
  split; [|split].
  - intros c row x Hrow Hx.
    assert (Hc : (c < length r)%nat).
    { apply lookup_lt_Some in Hx. apply elem_of_cons in Hrow as [->|Hrow]; [done|].
      rewrite Forall_forall in Hlen. by rewrite <- (Hlen row Hrow). }
    destruct (lookup_lt_is_Some_2 (foldl (zip_with Z.min) r rest) c) as [l Hl];
      [by rewrite Hllo|].
    destruct (lookup_lt_is_Some_2 (foldl (zip_with Z.max) r rest) c) as [h Hh];
      [by rewrite Hlhi|].
    exists l, h. split; [done|]. split; [done|].
    destruct (proj1 (Hlo c l Hl) row Hrow) as (x1 & Hx1 & Hle).
    destruct (proj1 (Hhi c h Hh) row Hrow) as (x2 & Hx2 & Hge).
    rewrite Hx in Hx1, Hx2. injection Hx1 as <-. injection Hx2 as <-. lia.
  - intros c l Hl. apply (Hlo c l Hl).
  - intros c h Hh. apply (Hhi c h Hh).
Qed.

Lemma bounds_are_attained_extremes_witness :
  exists lo hi,
    bounds [[3; -1]; [0; 7]; [2; 2]] = Ok [lo; hi] /\
    length lo = 2%nat /\ length hi = 2%nat /\
    (forall c row x, row ∈ [[3; -1]; [0; 7]; [2; 2]] -> row !! c = Some x ->
       exists l h, lo !! c = Some l /\ hi !! c = Some h /\ l <= x <= h) /\
    (forall c l, lo !! c = Some l ->
       exists row, row ∈ [[3; -1]; [0; 7]; [2; 2]] /\ row !! c = Some l) /\
    (forall c h, hi !! c = Some h ->
       exists row, row ∈ [[3; -1]; [0; 7]; [2; 2]] /\ row !! c = Some h).
Proof.
  apply (bounds_are_attained_extremes [3; -1] [[0; 7]; [2; 2]]).
  by repeat constructor.
Defined.

(** ** [unique_rows], continued *)

Lemma bytes_le_cons x a y b :
  bytes_le (x :: a) (y :: b) <-> x < y \/ (x = y /\ bytes_le a b).
Proof.
  unfold bytes_le. simpl. rewrite orb_True, andb_True.
  rewrite !Is_true_true, Z.ltb_lt, Z.eqb_eq. done.
Qed.

Lemma bytes_le_total : Total bytes_le.
Proof.
  intros a. induction a as [|x a IH]; intros [|y b].
  - by left.
  - by left.
  - by right.
  - rewrite !bytes_le_cons.
    destruct (Z.lt_trichotomy x y) as [?|[->|?]]; [by left; left| |by right; left].
    destruct (IH b); [left|right]; by right.
Qed.

Lemma bytes_le_trans : Transitive bytes_le.
Proof.
  intros a. induction a as [|x a IH]; intros [|y b] [|z c] Hab Hbc; try done.
  apply bytes_le_cons in Hab, Hbc. apply bytes_le_cons.
  destruct Hab as [?|[-> Hab]], Hbc as [?|[-> Hbc]]; [left; lia..|].
  right. split; [done|]. by apply (IH b).
Qed.

Lemma integer_rows_inj itemsize m rows :
  integer_rows itemsize m rows ->
  forall r r', r ∈ rows -> r' ∈ rows ->
    row_bytes itemsize r = row_bytes itemsize r' -> r = r'.
Proof.
  intros (Hsize & _ & _ & Hrows) r r' Hr Hr' E. rewrite Forall_forall in Hrows.
  destruct (Hrows r Hr) as [Hl Hin]. destruct (Hrows r' Hr') as [Hl' Hin'].
  apply (row_bytes_inj itemsize); auto. by rewrite Hl, Hl'.
Qed.

(** What [unique_rows] returns on well-formed input, for every choice of
    the three flags. *)
Lemma unique_rows_run `{Numpy} INT_DTYPE dtype_name rows m in_arr
    (return_index return_inverse return_counts : bool) :
  integer_rows (default INT_DTYPE dtype_name) m rows -> rows_input in_arr rows ->
  unique_rows INT_DTYPE in_arr
    return_index return_inverse return_counts dtype_name
  = let '(_, ids, inverse, counts) :=
      np_unique (row_bytes (default INT_DTYPE dtype_name) <$> rows) in
    Ok ([Rows (default [] (take_rows rows ids))]
          ++ (if return_index then [Ints ids] else [])
          ++ (if return_inverse
              then [if numpy2 then Column inverse else Ints inverse] else [])
          ++ (if return_counts then [Ints counts] else [])).
Proof.
  intros (Hsize & Hm & Hne & Hrows) Hin.
  set (itemsize := default INT_DTYPE dtype_name) in *.
  assert (Hlen : Forall (fun r => length r = m) rows).
  { eapply Forall_impl; [exact Hrows|]. by intros r [? _]. }
  unfold unique_rows. fold itemsize.
  rewrite (make_c_contiguous_rows itemsize m rows in_arr Hne Hrows Hin).
  replace (itemsize * m =? 0)%nat with false by (symmetry; apply Nat.eqb_neq; nia).
  rewrite (reshape_rows m) by done.
  destruct (np_unique (row_bytes itemsize <$> rows)) as [[[uniq ids] inverse] counts].
  by destruct return_index, return_inverse, return_counts.
Qed.

(** The rows at the first occurrences of the distinct keys. *)
Lemma unique_values (key : list Z -> list Z) (rows : list (list Z)) :
  let ar := key <$> rows in
  let uniq := merge_sort bytes_le (remove_dups ar) in
  exists values,
    take_rows rows ((fun k => first_index k ar) <$> uniq) = Some values /\
    key <$> values = uniq /\
    Forall2 (fun k v => rows !! first_index k ar = Some v) uniq values.
Proof.
  intros ar uniq.
  assert (Hrow : forall k, k ∈ uniq ->
            exists r, rows !! first_index k ar = Some r /\ key r = k).
  { intros k Hk. apply (elem_of_uniq k ar) in Hk.
    pose proof (first_index_lookup k ar Hk) as Hl.
    change ((key <$> rows) !! first_index k ar = Some k) in Hl.
    rewrite list_lookup_fmap in Hl.
    destruct (rows !! first_index k ar) as [r|]; [|done].
    injection Hl as Hl. by exists r. }
  exists ((fun k => default [] (rows !! first_index k ar)) <$> uniq).
  split; [|split].
  - unfold take_rows. apply mapM_Some_2. apply Forall2_fmap.
    apply Forall_Forall2_diag, Forall_forall. intros k Hk.
    destruct (Hrow k Hk) as (r & Hr & _). by rewrite Hr.
  - rewrite <- list_fmap_compose. rewrite <- (list_fmap_id uniq) at 2.
    apply list_fmap_ext. intros i k Hk. simpl.
    destruct (Hrow k) as (r & Hr & Hkey); [by apply list_elem_of_lookup_2 in Hk|].
    by rewrite Hr.
  - apply Forall2_fmap_r. apply Forall_Forall2_diag, Forall_forall. intros k Hk.
    destruct (Hrow k Hk) as (r & Hr & _). simpl. by rewrite Hr.
Qed.

Lemma unique_rows_full `{Numpy} INT_DTYPE dtype_name rows m in_arr values ids
    (inverse : nparray) counts :
  integer_rows (default INT_DTYPE dtype_name) m rows -> rows_input in_arr rows ->
  unique_rows INT_DTYPE in_arr true true true dtype_name
  = Ok [Rows values; Ints ids; inverse; Ints counts] ->
  let key := row_bytes (default INT_DTYPE dtype_name) in
  let ar := key <$> rows in
  let uniq := merge_sort bytes_le (remove_dups ar) in
  key <$> values = uniq /\
  Forall2 (fun k v => rows !! first_index k ar = Some v) uniq values /\
  ids = (fun k => first_index k ar) <$> uniq /\
  inverse = (if numpy2 then Column ((fun k => first_index k uniq) <$> ar)
             else Ints ((fun k => first_index k uniq) <$> ar)) /\
  counts = (fun k => length (filter (fun x => x = k) ar)) <$> uniq.
Proof.
  intros Hwf Hin Hrun key ar uniq.
  rewrite (unique_rows_run INT_DTYPE dtype_name rows m in_arr true true true Hwf Hin)
    in Hrun.
  unfold np_unique in Hrun. fold key ar uniq in Hrun. simpl in Hrun.
  destruct (unique_values key rows) as (values' & Htake & Hkeys & Hat).
  fold ar uniq in Htake, Hkeys, Hat. rewrite Htake in Hrun. simpl in Hrun.
  injection Hrun as <- <- <- <-. done.
Qed.

(** The values are the rows, each once. *)
Lemma unique_rows_distinct `{Numpy}
    INT_DTYPE dtype_name rows m in_arr values ids (inverse : nparray) counts :
  integer_rows (default INT_DTYPE dtype_name) m rows -> rows_input in_arr rows ->
  unique_rows INT_DTYPE in_arr true true true dtype_name
  = Ok [Rows values; Ints ids; inverse; Ints counts] ->
  NoDup values /\ forall r, r ∈ values <-> r ∈ rows.
Proof.
  intros Hwf Hkind Hrun.
  destruct (unique_rows_full _ _ _ _ _ _ _ _ _ Hwf Hkind Hrun) as (Hkeys & Hat & _).
  pose proof (integer_rows_inj _ _ _ Hwf) as Hinj.
  set (key := row_bytes (default INT_DTYPE dtype_name)) in *.
  set (ar := key <$> rows) in *.
  set (uniq := merge_sort bytes_le (remove_dups ar)) in *.
  assert (Hin : forall v, v ∈ values -> v ∈ rows).
  { intros v Hv. apply list_elem_of_lookup in Hv as [j Hj].
    destruct (Forall2_lookup_r _ _ _ _ _ Hat Hj) as (k & _ & Hk).
    by apply list_elem_of_lookup_2 in Hk. }
  split.
  - apply (NoDup_fmap_1 key). rewrite Hkeys. unfold uniq.
    rewrite merge_sort_Permutation. apply NoDup_remove_dups.
  - intros r. split; [apply Hin|]. intros Hr.
    assert (Hk : key r ∈ uniq) by (apply elem_of_uniq; by apply list_elem_of_fmap_2).
    rewrite <- Hkeys in Hk. apply list_elem_of_fmap in Hk as (v & Hkv & Hv).
    assert (r = v) as -> by (apply Hinj; auto). done.
Qed.

(** X7: for a two-dimensional integer input (a list of rows or an integer
    array; at least one row, rows of one positive length) whose numbers
    the dtype can hold, the values [unique_rows] returns are the rows of
    the input without repetition: no row occurs twice among them, and a
    row is among them exactly when it is a row of the input.  (A number
    the dtype cannot hold is cast or refused, see C8.) *)
Theorem unique_rows_values_are_the_distinct_rows `{Numpy}
    INT_DTYPE dtype_name rows m in_arr values ids (inverse : nparray) counts :
  integer_rows (default INT_DTYPE dtype_name) m rows -> rows_input in_arr rows ->
  unique_rows INT_DTYPE in_arr true true true dtype_name
  = Ok [Rows values; Ints ids; inverse; Ints counts] ->
  NoDup values /\ forall r, r ∈ values <-> r ∈ rows.
Proof. apply unique_rows_distinct. Qed.

Lemma first_index_least (k : list Z) (l : list (list Z)) (j : nat) (y : list Z) :
  k ∈ l -> l !! j = Some y -> (j < first_index k l)%nat -> y <> k.
Proof.
  intros Hk Hj Hlt. unfold first_index in Hlt.
  destruct (list_find_elem_of (fun x => x = k) l k Hk eq_refl) as [[i x] Hf].
  rewrite Hf in Hlt. apply list_find_Some in Hf as (_ & _ & Hmin).
  by apply (Hmin j y).
Qed.

(** X8: for a two-dimensional integer input (a list of rows or an integer
    array; at least one row, rows of one positive length) whose numbers
    the dtype can hold, the indices [unique_rows] returns are those of the
    first occurrences: each index holds the value it stands for, and no
    earlier row of the input equals that value. *)
Theorem unique_rows_ids_are_first_occurrences `{Numpy}
    INT_DTYPE dtype_name rows m in_arr values ids (inverse : nparray) counts :
  integer_rows (default INT_DTYPE dtype_name) m rows -> rows_input in_arr rows ->
  unique_rows INT_DTYPE in_arr true true true dtype_name
  = Ok [Rows values; Ints ids; inverse; Ints counts] ->
  Forall2 (fun i v => rows !! i = Some v /\
                      forall j r, (j < i)%nat -> rows !! j = Some r -> r <> v)
          ids values.
Proof.
  intros Hwf Hkind Hrun.
  destruct (unique_rows_full _ _ _ _ _ _ _ _ _ Hwf Hkind Hrun) as (Hkeys & Hat & -> & _).
  set (key := row_bytes (default INT_DTYPE dtype_name)) in *.
  set (ar := key <$> rows) in *.
  set (uniq := merge_sort bytes_le (remove_dups ar)) in *.
  apply Forall2_fmap_l.
  apply Forall2_same_length_lookup_2; [by apply Forall2_length in Hat|].
  intros j k v Hk Hv. simpl.
  pose proof (Forall2_lookup_lr _ _ _ _ _ _ Hat Hk Hv) as Hkv. simpl in Hkv.
  assert (Hin : k ∈ ar).
  { apply (elem_of_uniq k ar). by apply list_elem_of_lookup_2 in Hk. }
  split; [done|]. intros j' r Hlt Hr Heq. subst r.
  assert (Hkv' : key v = k).
  { pose proof (first_index_lookup k ar Hin) as Hl.
    change ((key <$> rows) !! first_index k ar = Some k) in Hl.
    rewrite list_lookup_fmap, Hkv in Hl. by injection Hl. }
  apply (first_index_least k ar j' (key v) Hin); [|done|done].
  change ((key <$> rows) !! j' = Some (key v)). by rewrite list_lookup_fmap, Hr.
Qed.

Lemma count_by_key (key : list Z -> list Z) (rows : list (list Z)) (v : list Z) :
  (forall r, r ∈ rows -> key r = key v -> r = v) ->
  length (filter (fun x => x = key v) (key <$> rows))
  = length (filter (fun r => r = v) rows).
Proof.
  induction rows as [|r rows IH]; intros Hinj; [done|].
  rewrite fmap_cons, !filter_cons.
  assert (IH' : length (filter (fun x => x = key v) (key <$> rows))
                = length (filter (fun r => r = v) rows)).
  { apply IH. intros r' Hr'. apply Hinj. by right. }
  destruct (decide (r = v)) as [->|Hne].
  - rewrite decide_True by done. simpl. by rewrite IH'.
  - rewrite decide_False; [exact IH'|]. intros E. apply Hne, Hinj; [by left|done].
Qed.

(** The occurrences of the elements of a list without repetition that
    covers [ar] add up to the length of [ar]. *)
Lemma counts_add_up (ar l : list (list Z)) :
  NoDup l -> (forall x, x ∈ ar -> x ∈ l) ->
  sum_list ((fun k => length (filter (fun x => x = k) ar)) <$> l) = length ar.
Proof.
  intros Hnd. induction ar as [|x ar IH]; intros Hcover.
  - clear. induction l as [|k l IHl]; [done|exact IHl].
  - assert (Hx : x ∈ l) by (apply Hcover; by left).
    change (length (x :: ar)) with (S (length ar)).
    rewrite <- IH by (intros y Hy; apply Hcover; by right).
    clear IH Hcover. induction Hnd as [|k l Hk Hnd IHl]; [by apply elem_of_nil in Hx|].
    rewrite !fmap_cons. cbn [sum_list sum_list_with].
    rewrite filter_cons. destruct (decide (x = k)) as [->|Hne].
    + cbn [length id].
      replace ((fun k0 => length (filter (fun x => x = k0) (k :: ar))) <$> l)
        with ((fun k0 => length (filter (fun x => x = k0) ar)) <$> l); [lia|].
      apply list_fmap_ext. intros i k' Hk'. simpl.
      rewrite filter_cons, decide_False; [done|].
      intros ->. apply Hk. by apply list_elem_of_lookup_2 in Hk'.
    + apply elem_of_cons in Hx as [?|Hx]; [done|].
      rewrite (IHl Hx). cbn [id]. lia.
Qed.

(** X9: for a two-dimensional integer input (a list of rows or an integer
    array; at least one row, rows of one positive length) whose numbers
    the dtype can hold, the counts [unique_rows] returns are the numbers of
    occurrences: each value has, as its count, the number of rows of the
    input equal to it, which is at least one, and the counts add up to the
    number of rows. *)
Theorem unique_rows_counts_occurrences `{Numpy}
    INT_DTYPE dtype_name rows m in_arr values ids (inverse : nparray) counts :
  integer_rows (default INT_DTYPE dtype_name) m rows -> rows_input in_arr rows ->
  unique_rows INT_DTYPE in_arr true true true dtype_name
  = Ok [Rows values; Ints ids; inverse; Ints counts] ->
  Forall2 (fun c v => c = length (filter (fun r => r = v) rows) /\ (0 < c)%nat)
          counts values /\
  sum_list counts = length rows.
Proof.
  intros Hwf Hkind Hrun.
  destruct (unique_rows_distinct _ _ _ _ _ _ _ _ _ Hwf Hkind Hrun) as [_ Hsame].
  destruct (unique_rows_full _ _ _ _ _ _ _ _ _ Hwf Hkind Hrun) as (Hkeys & Hat & _ & _ & ->).
  pose proof (integer_rows_inj _ _ _ Hwf) as Hinj.
  set (key := row_bytes (default INT_DTYPE dtype_name)) in *.
  set (ar := key <$> rows) in *.
  set (uniq := merge_sort bytes_le (remove_dups ar)) in *.
  split.
  - rewrite <- Hkeys, <- list_fmap_compose. apply Forall2_fmap_l.
    apply Forall_Forall2_diag, Forall_forall. intros v Hv. simpl.
    assert (Hvr : v ∈ rows) by (by apply Hsame).
    assert (Hc : length (filter (fun x => x = key v) ar)
                 = length (filter (fun r => r = v) rows)).
    { apply count_by_key. intros r Hr E. by apply Hinj. }
    split; [done|]. rewrite Hc.
    assert (Hf : v ∈ filter (fun r => r = v) rows) by (by apply list_elem_of_filter).
    destruct (filter (fun r => r = v) rows); [by apply elem_of_nil in Hf|simpl; lia].
  - replace (length rows) with (length ar) by apply length_fmap.
    apply counts_add_up.
    + unfold uniq. rewrite merge_sort_Permutation. apply NoDup_remove_dups.
    + intros x Hx. by apply (elem_of_uniq x ar).
Qed.

(** X10: the values [unique_rows] returns are in ascending order of their
    byte strings (the order of the view [|S...] that [np.unique] sorts),
    each before all the later ones. *)
Theorem unique_rows_values_sorted_by_bytes `{Numpy}
    INT_DTYPE dtype_name rows m values ids (inverse : nparray) counts :
  integer_rows (default INT_DTYPE dtype_name) m rows ->
  unique_rows INT_DTYPE (rows_literal rows) true true true dtype_name
  = Ok [Rows values; Ints ids; inverse; Ints counts] ->
  StronglySorted bytes_le (row_bytes (default INT_DTYPE dtype_name) <$> values).
Proof.
  intros Hwf Hrun.
  destruct (unique_rows_full _ _ _ _ _ _ _ _ _ Hwf (or_introl eq_refl) Hrun) as (-> & _).
  apply (@StronglySorted_merge_sort _ bytes_le _ bytes_le_trans bytes_le_total).
Qed.

(** X11: the three flags only choose which outputs are returned.  The values
    always come first; the indices, the inverse and the counts follow in
    this order, each present exactly when its flag is set, and each equal
    to what the call with all flags set returns. *)
Theorem unique_rows_flags_select_outputs `{Numpy}
    INT_DTYPE dtype_name rows m values ids (inverse : nparray) counts
    (return_index return_inverse return_counts : bool) :
  integer_rows (default INT_DTYPE dtype_name) m rows ->
  unique_rows INT_DTYPE (rows_literal rows) true true true dtype_name
  = Ok [Rows values; Ints ids; inverse; Ints counts] ->
  unique_rows INT_DTYPE (rows_literal rows)
    return_index return_inverse return_counts dtype_name
  = Ok ([Rows values]
          ++ (if return_index then [Ints ids] else [])
          ++ (if return_inverse then [inverse] else [])
          ++ (if return_counts then [Ints counts] else [])).
Proof.
  intros Hwf Hrun.
  rewrite (unique_rows_run _ _ _ _ _ true true true Hwf (or_introl eq_refl)) in Hrun.
  rewrite (unique_rows_run _ _ _ _ _ return_index return_inverse return_counts Hwf
             (or_introl eq_refl)).
  destruct (np_unique _) as [[[uniq ids'] inverse'] counts'].
  simpl in Hrun. injection Hrun as <- <- <- <-. done.
Qed.

Lemma sample_rows_are_integer_rows :
  integer_rows (default 4%nat None) 2 [[256; 2]; [1; 2]; [-3; 4]; [1; 2]].
Proof.
  split; [simpl; lia|]. split; [lia|]. split; [discriminate|]. by repeat constructor.
Qed.

Lemma sample_rows_run :
  unique_rows (H := numpy_1) 4 (rows_literal [[256; 2]; [1; 2]; [-3; 4]; [1; 2]])
    true true true None
  = Ok [Rows [[256; 2]; [1; 2]; [-3; 4]]; Ints [0; 1; 2]%nat;
        Ints [0; 1; 2; 1]%nat; Ints [1; 2; 1]%nat].
Proof. by vm_compute. Qed.

Lemma unique_rows_values_are_the_distinct_rows_witness :
  NoDup [[256; 2]; [1; 2]; [-3; 4]] /\
  forall r, r ∈ [[256; 2]; [1; 2]; [-3; 4]] <-> r ∈ [[256; 2]; [1; 2]; [-3; 4]; [1; 2]].
Proof.
  exact (unique_rows_values_are_the_distinct_rows 4 None _ 2 _ _ _ _ _
           sample_rows_are_integer_rows (or_introl eq_refl) sample_rows_run).
Defined.

Lemma unique_rows_ids_are_first_occurrences_witness :
  Forall2 (fun i v => [[256; 2]; [1; 2]; [-3; 4]; [1; 2]] !! i = Some v /\
                      forall j r, (j < i)%nat ->
                        [[256; 2]; [1; 2]; [-3; 4]; [1; 2]] !! j = Some r -> r <> v)
          [0; 1; 2]%nat [[256; 2]; [1; 2]; [-3; 4]].
Proof.
  exact (unique_rows_ids_are_first_occurrences 4 None _ 2 _ _ _ _ _
           sample_rows_are_integer_rows (or_introl eq_refl) sample_rows_run).
Defined.

Lemma unique_rows_counts_occurrences_witness :
  Forall2 (fun c v =>
             c = length (filter (fun r => r = v) [[256; 2]; [1; 2]; [-3; 4]; [1; 2]]) /\
             (0 < c)%nat)
          [1; 2; 1]%nat [[256; 2]; [1; 2]; [-3; 4]] /\
  sum_list [1; 2; 1]%nat = length [[256; 2]; [1; 2]; [-3; 4]; [1; 2]].
Proof.
  exact (unique_rows_counts_occurrences 4 None _ 2 _ _ _ _ _
           sample_rows_are_integer_rows (or_introl eq_refl) sample_rows_run).
Defined.

Lemma unique_rows_values_sorted_by_bytes_witness :
  StronglySorted bytes_le (row_bytes 4 <$> [[256; 2]; [1; 2]; [-3; 4]]).
Proof.
  exact (unique_rows_values_sorted_by_bytes 4 None _ 2 _ _ _ _
           sample_rows_are_integer_rows sample_rows_run).
Defined.

Lemma unique_rows_flags_select_outputs_witness :
  unique_rows (H := numpy_1) 4 (rows_literal [[256; 2]; [1; 2]; [-3; 4]; [1; 2]])
    false true false None
  = Ok [Rows [[256; 2]; [1; 2]; [-3; 4]]; Ints [0; 1; 2; 1]%nat].
Proof.
  exact (unique_rows_flags_select_outputs 4 None _ 2 _ _ _ _ false true false
           sample_rows_are_integer_rows sample_rows_run).
Defined.

Lemma stack_cons_row (r : list Z) (rest : list (list Z)) :
  stack (map coerce ((fun r => ASeq (ANum <$> r)) <$> (r :: rest)))
  = match stack (map coerce ((fun r => ASeq (ANum <$> r)) <$> rest)) with
    | Raise e => Raise e
    | Ok (None, _) => Ok (Some [length r], Some <$> r)
    | Ok (Some s', d') =>
        if decide ([length r] = s') then Ok (Some [length r], (Some <$> r) ++ d')
        else Raise ValueError
    end.
Proof.
  rewrite fmap_cons.
  change (map coerce (ASeq (ANum <$> r) :: ((fun r => ASeq (ANum <$> r)) <$> rest)))
    with (coerce (ASeq (ANum <$> r))
          :: map coerce ((fun r => ASeq (ANum <$> r)) <$> rest)).
  by rewrite coerce_row.
Qed.

(** The coercion of rows that are not all of the length of the first. *)
Lemma stack_rows_ragged (r : list Z) (rows : list (list Z)) :
  ~ Forall (fun r' => length r' = length r) rows ->
  stack (map coerce ((fun r => ASeq (ANum <$> r)) <$> (r :: rows))) = Raise ValueError.
Proof.
  revert r. induction rows as [|r' rows IH]; intros r Hrag.
  - destruct Hrag. constructor.
  - rewrite stack_cons_row.
    destruct (decide (Forall (fun r'' => length r'' = length r') rows)) as [Hsame|Hrag'].
    + rewrite (stack_rows (length r') (r' :: rows)); [|done|by constructor].
      rewrite decide_False; [done|]. intros [= E]. apply Hrag.
      constructor; [done|]. eapply Forall_impl; [exact Hsame|]. intros ? ->. done.
    + by rewrite (IH r' Hrag').
Qed.

(** X12: what [unique_rows] refuses.  [None] has no shape: [AttributeError].
    A flat list of numbers is not two-dimensional: [ValueError].  Rows of
    different lengths are not an array: the [ValueError] of numpy.  This
    holds for every setting of the flags. *)
Theorem unique_rows_refuses `{Numpy} (INT_DTYPE : nat) (dtype_name : option nat)
    (return_index return_inverse return_counts : bool) :
  unique_rows INT_DTYPE ANone return_index return_inverse return_counts dtype_name
  = Raise AttributeError /\
  (forall r : list Z,
     Forall (fun z => in_range (default INT_DTYPE dtype_name) z = true) r ->
     unique_rows INT_DTYPE (ASeq (ANum <$> r))
       return_index return_inverse return_counts dtype_name
     = Raise ValueError) /\
  (forall (r : list Z) (rows : list (list Z)),
     ~ Forall (fun r' => length r' = length r) rows ->
     unique_rows INT_DTYPE (rows_literal (r :: rows))
       return_index return_inverse return_counts dtype_name
     = Raise ValueError).
Proof.
  split; [done|]. split.
  - intros r Hr. unfold unique_rows, make_c_contiguous, np_ascontiguousarray.
    rewrite coerce_row. cbn [astype]. by rewrite convert_all_in_range.
  - intros r rows Hrag.
    unfold unique_rows, make_c_contiguous, np_ascontiguousarray, rows_literal.
    cbn [coerce]. by rewrite (stack_rows_ragged r rows Hrag).
Qed.

Lemma unique_rows_refuses_witness :
  unique_rows (H := numpy_2) 4 (ASeq (ANum <$> [1; 2; 3])) true true true None
  = Raise ValueError /\
  unique_rows (H := numpy_2) 4 (rows_literal [[1; 2]; [3]]) true true true None
  = Raise ValueError.
Proof.
  destruct (unique_rows_refuses (H := numpy_2) 4 None true true true)
    as (_ & Hflat & Hragged).
  split.
  - apply Hflat. by repeat constructor.
  - apply Hragged. intros H. apply Forall_cons_1 in H as [H _]. discriminate.
Defined.

(** ** Views, copies and the write permission *)

Lemma lookup_flag_source src w l a :
  arrays w !! l = Some a ->
  exists a',
    arrays (flag_source src w) !! l = Some a' /\
    writeable a' = writeable a /\ shape a' = shape a /\
    buffer a' = buffer a /\ offset a' = offset a.
Proof.
  intros Ha. destruct src as [s|]; simpl; [|by eauto 10].
  case_decide; [|by eauto 10]. rewrite lookup_flag, Ha.
  destruct (decide (s = l)); simpl; eexists; (split; [reflexivity|]); done.
Qed.

(** A mutator writes into the buffer of the array it is applied to, and
    into no other. *)
Lemma mutate_other_buffers `{Ufuncs} m self a w i :
  arrays w !! self = Some a -> is_tracked w self -> i <> buffer a ->
  buffers (final (mutate m self w)) !! i = buffers w !! i.
Proof.
  intros Ha Ht Hi.
  destruct (set_modified_keeps_layout self w self a Ht Ha) as (a' & Ha' & Hw' & Hs' & Hb' & Ho').
  pose proof (set_modified_run self w Ht) as Hrun.
  assert (Hbuf : buffers (flag_source (default None (source_at w self)) (flag true self w))
                 = buffers w).
  { by destruct (flag_source_frame (default None (source_at w self))
                   (flag true self w)) as (_ & _ & ->). }
  remember (flag_source (default None (source_at w self)) (flag true self w)) as w1 eqn:Hw1.
  clear Hw1.
  assert (Hstore : forall start new,
    buffers (final (store_elements a' start new w1)) !! i = buffers w !! i).
  { intros start new. unfold store_elements, modify. cbn [final buffers with_buffers].
    rewrite list_lookup_alter_ne by congruence. by rewrite Hbuf. }
  assert (Hraise : forall e, buffers (final (@raise unit e w1)) !! i = buffers w !! i).
  { intros e. cbn [final raise]. by rewrite Hbuf. }
  destruct m as [op other|other|key v|start stop v]; cbn [mutate].
  - unfold TrackedArray.inplace. rewrite (bind_Ok _ _ _ _ _ _ Hrun). cbn [final].
    unfold nd.inplace. rewrite (bind_Ok _ _ _ _ _ _ (get_array_Some _ _ _ Ha')). cbn [final].
    destruct (writeable a'); cbn [negb]; [|apply Hraise].
    unfold bind at 1. unfold gets at 1. cbn [final].
    destruct (elementwise op other (elements_of a' w1)); [apply Hstore|apply Hraise].
  - unfold TrackedArray.__idiv__. rewrite (bind_Ok _ _ _ _ _ _ Hrun). cbn [final].
    apply Hraise.
  - unfold TrackedArray.__setitem__. rewrite (bind_Ok _ _ _ _ _ _ Hrun). cbn [final].
    unfold nd.__setitem__. rewrite (bind_Ok _ _ _ _ _ _ (get_array_Some _ _ _ Ha')). cbn [final].
    destruct (writeable a'); cbn [negb]; [|apply Hraise].
    destruct (shape a') as [|n rest]; [apply Hraise|].
    destruct key as [j|start stop]; [|apply Hstore].
    destruct (normalise n j); [apply Hstore|apply Hraise].
  - unfold TrackedArray.__setslice__. rewrite (bind_Ok _ _ _ _ _ _ Hrun). cbn [final].
    apply Hraise.
Qed.

(** The layout of every array object survives a mutator. *)
Lemma mutate_keeps_layout `{Ufuncs} m self w l a :
  is_tracked w self -> arrays w !! l = Some a ->
  exists a',
    arrays (final (mutate m self w)) !! l = Some a' /\
    writeable a' = writeable a /\ shape a' = shape a /\
    buffer a' = buffer a /\ offset a' = offset a.
Proof.
  intros Ht Ha. destruct (mutate_run m self w Ht) as (r & w' & -> & Harr & _). simpl.
  rewrite Harr. by apply set_modified_keeps_layout.
Qed.

Lemma elements_at_same_window w l l' a a' :
  arrays w !! l = Some a -> arrays w !! l' = Some a' ->
  shape a = shape a' -> buffer a = buffer a' -> offset a = offset a' ->
  elements_at w l = elements_at w l'.
Proof.
  intros Ha Ha' Hs Hb Ho. unfold elements_at, elements_of.
  rewrite Ha, Ha'. simpl. by rewrite Hs, Hb, Ho.
Qed.

(** X13: [view] of a tracked array [b] returns a new tracked array that is
    write-protected and flagged modified, and leaves every existing object
    as it was.  The view shares the storage of [b]: after any in-place
    mutator applied to [b], whether it succeeds or not, the elements read
    through the view are the elements of [b]. *)
Theorem view_is_read_only_and_aliases `{Ufuncs} (m : mutator) (w : World) (b : loc) :
  is_tracked w b ->
  exists v w1,
    TrackedArray.view b w = Out (Ok v) w1 [] /\
    v = length (arrays w) /\
    writeable_at w1 v = Some false /\
    modified_at w1 v = Some true /\
    (forall l, (l < length (arrays w))%nat -> arrays w1 !! l = arrays w !! l) /\
    buffers w1 = buffers w /\
    elements_at w1 v = elements_at w b /\
    elements_at (final (mutate m b w1)) v = elements_at (final (mutate m b w1)) b.
Proof.
  intros Ht. destruct (is_tracked_lookup w b Ht) as (a & s & Ha & Hs).
  set (w1 := with_arrays (fun h => h ++ [view_of b a]) w).
  assert (Hv : arrays w1 !! length (arrays w) = Some (view_of b a)) by apply lookup_new.
  assert (Hb : arrays w1 !! b = Some a) by (by apply lookup_app_l_Some).
  assert (Ht1 : is_tracked w1 b).
  { exists (_modified s). unfold modified_at. rewrite Hb. simpl. by rewrite Hs. }
  exists (length (arrays w)), w1.
  split; [by apply (view_run b a s)|]. split; [done|].
  split; [unfold writeable_at; by rewrite Hv|].
  split; [unfold modified_at; by rewrite Hv|].
  split; [intros l Hl; unfold w1; simpl; by rewrite lookup_app_l|].
  split; [done|]. split.
  - unfold elements_at. rewrite Hv, Ha. done.
  - destruct (mutate_keeps_layout m b w1 _ _ Ht1 Hv) as (v' & Hv' & _ & Hsv & Hbv & Hov).
    destruct (mutate_keeps_layout m b w1 _ _ Ht1 Hb) as (b' & Hb' & _ & Hsb & Hbb & Hob).
    apply (elements_at_same_window _ _ _ v' b'); [done|done|..].
    + by rewrite Hsv, Hsb.
    + by rewrite Hbv, Hbb.
    + by rewrite Hov, Hob.
Qed.

Lemma view_is_read_only_and_aliases_witness :
  is_tracked helpee_123 2%nat /\
  exists v w1,
    TrackedArray.view 2%nat helpee_123 = Out (Ok v) w1 [] /\
    v = length (arrays helpee_123) /\
    writeable_at w1 v = Some false /\
    modified_at w1 v = Some true /\
    (forall l, (l < length (arrays helpee_123))%nat ->
               arrays w1 !! l = arrays helpee_123 !! l) /\
    buffers w1 = buffers helpee_123 /\
    elements_at w1 v = elements_at helpee_123 2%nat /\
    elements_at (final (mutate (H := sample_ufuncs) (MInplace Iadd 5) 2%nat w1)) v
    = elements_at (final (mutate (H := sample_ufuncs) (MInplace Iadd 5) 2%nat w1)) 2%nat.
Proof.
  assert (Ht : is_tracked helpee_123 2%nat) by (exists true; by vm_compute).
  split; [exact Ht|].
  exact (view_is_read_only_and_aliases (H := sample_ufuncs) (MInplace Iadd 5)
           helpee_123 2%nat Ht).
Defined.

(** X14: [copy] of a tracked array gives a plain array (not tracked, so
    without [_modified]) that is writeable and holds the same elements on
    storage of its own: an in-place mutator applied to the original
    afterwards does not change the elements of the copy. *)
Theorem copy_is_untracked_and_independent `{Ufuncs} (m : mutator) (w : World)
    (b : loc) (a : ndarray) :
  arrays w !! b = Some a -> is_tracked w b ->
  (buffer a < length (buffers w))%nat ->
  exists c w1,
    TrackedArray.copy b w = Out (Ok c) w1 [] /\
    modified_at w1 c = None /\ (tracked <$> arrays w1 !! c) = Some None /\
    writeable_at w1 c = Some true /\
    elements_at w1 c = elements_at w b /\
    (forall l, (l < length (arrays w))%nat -> arrays w1 !! l = arrays w !! l) /\
    elements_at (final (mutate m b w1)) c = elements_at w b.
Proof.
  intros Ha Ht Hlive.
  set (d := elements_of a w).
  set (p := {| tracked := None; writeable := true; shape := shape a;
               buffer := length (buffers w); offset := 0 |}).
  set (w1 := with_arrays (fun h => h ++ [p]) (with_buffers (fun h => h ++ [d]) w)).
  assert (Hc : arrays w1 !! length (arrays w) = Some p) by apply lookup_new.
  assert (Hb : arrays w1 !! b = Some a) by (by apply lookup_app_l_Some).
  assert (Hd : buffers w1 !! length (buffers w) = Some d) by apply lookup_new.
  assert (Ht1 : is_tracked w1 b).
  { destruct Ht as [x Hx]. exists x. unfold modified_at in *. by rewrite Hb, Ha in *. }
  assert (Hel : take (product (shape a)) (drop 0 d) = d).
  { rewrite drop_0. unfold d, elements_of. rewrite take_take. f_equal. lia. }
  exists (length (arrays w)), w1. split; [|split; [|split; [|split; [|split; [|split]]]]].
  - unfold TrackedArray.copy, nd.copy.
    eapply (bind_run _ _ _ _ _ []); [by apply get_array_Some|].
    eapply (bind_run _ _ _ _ _ []); [done|].
    eapply (bind_run _ _ _ _ _ []); [done|]. done.
  - unfold modified_at. by rewrite Hc.
  - by rewrite Hc.
  - unfold writeable_at. by rewrite Hc.
  - unfold elements_at. rewrite Hc, Ha. simpl. unfold elements_of at 1.
    cbn [shape buffer offset p]. rewrite Hd. simpl. exact (f_equal Some Hel).
  - intros l Hl. unfold w1. simpl. by rewrite lookup_app_l.
  - destruct (mutate_keeps_layout m b w1 _ _ Ht1 Hc) as (c' & Hc' & _ & Hsc & Hbc & Hoc).
    unfold elements_at. rewrite Hc', Ha. simpl. unfold elements_of at 1.
    rewrite Hsc, Hbc, Hoc. cbn [shape buffer offset p].
    rewrite (mutate_other_buffers m b a w1 (length (buffers w)) Hb Ht1) by lia.
    rewrite Hd. simpl. exact (f_equal Some Hel).
Qed.

Lemma copy_is_untracked_and_independent_witness :
  exists a, arrays helpee_123 !! 2%nat = Some a /\ is_tracked helpee_123 2%nat /\
    (buffer a < length (buffers helpee_123))%nat /\
    exists c w1,
      TrackedArray.copy 2%nat helpee_123 = Out (Ok c) w1 [] /\
      modified_at w1 c = None /\ (tracked <$> arrays w1 !! c) = Some None /\
      writeable_at w1 c = Some true /\
      elements_at w1 c = elements_at helpee_123 2%nat /\
      (forall l, (l < length (arrays helpee_123))%nat ->
                 arrays w1 !! l = arrays helpee_123 !! l) /\
      elements_at (final (mutate (H := sample_ufuncs) (MInplace Iadd 5) 2%nat w1)) c
      = elements_at helpee_123 2%nat.
Proof.
  eexists. 
  assert (Ha : arrays helpee_123 !! 2%nat
               = Some {| tracked := Some {| _modified := true; _source := None |};
                         writeable := true; shape := [3%nat]; buffer := 1; offset := 0 |})
    by (by vm_compute).
  assert (Ht : is_tracked helpee_123 2%nat) by (exists true; by vm_compute).
  assert (Hl : (1 < length (buffers helpee_123))%nat) by (vm_compute; lia).
  split; [exact Ha|]. split; [exact Ht|]. split; [exact Hl|].
  exact (copy_is_untracked_and_independent (H := sample_ufuncs) (MInplace Iadd 5)
           helpee_123 2%nat _ Ha Ht Hl).
Defined.




(** X16: the hook [__getslice__] flags the array it reads from (and the
    source the array records) before it takes the slice, and hands back a
    tracked, write-protected view whose source is the root.  A read
    through this hook therefore marks the data as modified although no
    element changes. *)
Theorem getslice_flags_the_array_it_reads (w : World) (self : loc) (a : ndarray)
    (n : nat) (rest : list nat) (start stop : nat) :
  arrays w !! self = Some a -> is_tracked w self ->
  (forall src, source_at w self = Some (Some src) -> is_tracked w src) ->
  shape a = n :: rest ->
  let root := default self (default None (source_at w self)) in
  let o := TrackedArray.__getslice__ self (Slice start stop) w in
  let v := length (arrays w) in
  res o = Ok (VRef v) /\ calls o = [] /\
  modified_at (final o) self = Some true /\
  modified_at (final o) root = Some true /\
  modified_at (final o) v = Some true /\
  source_at (final o) v = Some (Some root) /\
  writeable_at (final o) v = Some false /\
  buffers (final o) = buffers w.
Proof.
  intros Ha Ht Hsrc Hshape root o v.
  destruct (is_tracked_lookup w self Ht) as (a0 & s & Ha0 & Hs).
  rewrite Ha in Ha0. injection Ha0 as <-.
  pose proof (set_modified_run self w Ht) as Hrun.
  destruct (set_modified_keeps_layout self w self a Ht Ha)
    as (a1 & Ha1 & Hw1 & Hs1 & Hb1 & Ho1).
  remember (flag_source (default None (source_at w self)) (flag true self w)) as w1 eqn:Ew1.
  assert (Hlen : length (arrays w1) = length (arrays w)).
  { subst w1. destruct (default None (source_at w self)) as [src|]; simpl;
      [case_decide; simpl|]; by rewrite ?length_alter. }
  assert (Hbuf : buffers w1 = buffers w).
  { subst w1. destruct (default None (source_at w self)) as [src|]; simpl;
      [case_decide; simpl|]; done. }
  assert (Hm1 : modified_at w1 self = Some true).
  { subst w1. apply modified_at_flag_source_mono. by apply modified_at_flag_eq. }
  assert (Ht1 : is_tracked w1 self) by (by exists true).
  destruct (is_tracked_lookup w1 self Ht1) as (a1' & s1 & Ha1' & Htr1).
  rewrite Ha1 in Ha1'. injection Ha1' as <-.
  assert (Hsrc1 : source_at w1 self = source_at w self).
  { subst w1. destruct (default None (source_at w self)) as [src|]; simpl;
      [case_decide; simpl|]; by rewrite ?source_at_flag. }
  assert (Hroot1 : modified_at w1 root = Some true).
  { unfold root. destruct (source_at w self) as [[src|]|] eqn:E; simpl; [|done|done].
    subst w1. simpl.
    destruct (Hsrc src eq_refl) as [x Hx].
    rewrite decide_True.
    - apply modified_at_flag_eq. apply is_tracked_flag. by exists x.
    - apply is_tracked_flag. by exists x. }
  pose proof (subscript_slice_run self a1 s1 n rest start stop w1 Ha1 Htr1
                ltac:(by rewrite Hs1)) as Hsub.
  set (sl := slice_of self a1 n rest start stop) in *.
  remember (with_arrays (fun h => h ++ [sl]) w1) as w2 eqn:Ew2.
  set (sl' := {| tracked := tracked sl; writeable := false; shape := shape sl;
                 buffer := buffer sl; offset := offset sl |}).
  assert (Ho : o = Out (Ok (VRef v)) (with_arrays (fun h => h ++ [sl']) w1) []).
  { unfold o, TrackedArray.__getslice__.
    eapply (bind_run _ _ _ _ _ []); [exact Hrun|]. rewrite <- ?Ew1.
    eapply (bind_run _ _ _ _ _ []); [exact Hsub|]. rewrite <- ?Ew2.
    rewrite Hlen. fold v.
    unfold set_writeable, modify, bind, ret. simpl. subst w2. unfold with_arrays. simpl.
    unfold v. rewrite <- Hlen, alter_new. done. }
  rewrite Ho. cbn [res final calls].
  assert (Hv : arrays (with_arrays (fun h => h ++ [sl']) w1) !! v = Some sl').
  { unfold v. rewrite <- Hlen. apply lookup_new. }
  assert (Hkeep : forall l x, modified_at w1 l = Some x ->
                    modified_at (with_arrays (fun h => h ++ [sl']) w1) l = Some x).
  { intros l x Hl. unfold modified_at in *. simpl.
    destruct (arrays w1 !! l) as [al|] eqn:Hal; [|done].
    by rewrite (lookup_app_l_Some _ _ _ _ Hal). }
  split; [done|]. split; [done|]. split; [by apply Hkeep|]. split; [by apply Hkeep|].
  split; [|split; [|split]].
  - unfold modified_at. rewrite Hv. unfold sl', sl, slice_of. simpl. done.
  - unfold source_at. rewrite Hv. unfold sl', sl, slice_of. simpl. rewrite Htr1. simpl.
    unfold root. rewrite <- Hsrc1. unfold source_at. rewrite Ha1. simpl. by rewrite Htr1.
  - unfold writeable_at. by rewrite Hv.
  - done.
Qed.

Lemma getslice_flags_the_array_it_reads_witness :
  let w := flag false 2%nat helpee_123 in
  let o := TrackedArray.__getslice__ 2%nat (Slice 0 2) w in
  modified_at w 2%nat = Some false /\
  res o = Ok (VRef 3%nat) /\ calls o = [] /\
  modified_at (final o) 2%nat = Some true /\
  modified_at (final o) 2%nat = Some true /\
  modified_at (final o) 3%nat = Some true /\
  source_at (final o) 3%nat = Some (Some 2%nat) /\
  writeable_at (final o) 3%nat = Some false /\
  buffers (final o) = buffers w.
Proof.
  intros w o. split; [by vm_compute|].
  assert (Ha : arrays w !! 2%nat
               = Some {| tracked := Some {| _modified := false; _source := None |};
                         writeable := true; shape := [3%nat]; buffer := 1; offset := 0 |})
    by (by vm_compute).
  assert (Ht : is_tracked w 2%nat) by (exists false; by vm_compute).
  assert (Hsrc : forall src, source_at w 2%nat = Some (Some src) -> is_tracked w src)
    by (intros src E; vm_compute in E; done).
  exact (getslice_flags_the_array_it_reads w 2%nat _ 3%nat [] 0%nat 2%nat
           Ha Ht Hsrc eq_refl).
Defined.

(** ** The cache, continued *)

(** The computing path of the wrapper, with the world it ends in. *)
Lemma compute_world cls name func recompute return_saved w v w1 :
  well_registered cls -> ready cls name w ->
  func (swept cls name w) = (Ok v, w1) ->
  attrs w1 = attrs w -> (forall l, is_tracked w l -> is_tracked w1 l) ->
  is_not_None (default VNone (_saved (swept cls name w) !! name)) && negb recompute = false ->
  (return_saved = true ->
   is_not_None (default VNone (_saved w !! name)) && negb recompute = false) ->
  compute_or_return_saved cls name func recompute return_saved w
  = Out (Ok v) (unflagged (default [] (_depends cls !! name))
                  (with_saved (insert name v) (protect v w1))) [name].
Proof.
  intros Hwr Hready Hf Ha1 Ht1 Hstale Hesc.
  set (w2 := with_saved (insert name v) (protect v w1)).
  assert (Ha2 : attrs w2 = attrs w) by (destruct v; simpl; by rewrite ?Ha1).
  assert (Ht2 : forall l, is_tracked w l -> is_tracked w2 l).
  { intros l Hl. unfold w2.
    assert (is_tracked (protect v w1) l) as H by (apply is_tracked_protect, Ht1, Hl).
    exact H. }
  assert (Hready2 : ready cls name w2) by (by apply (ready_keep cls name w)).
  unfold compute_or_return_saved.
  eapply (bind_run _ _ _ _ _ [] _ _ [name]); [apply escape_run|].
  replace (return_saved
           && (is_not_None (default VNone (_saved w !! name)) && negb recompute))
    with false by (destruct return_saved; [by rewrite Hesc|done]).
  eapply (bind_run _ _ _ _ _ []); [by apply sweep_run|].
  eapply (bind_run _ _ _ _ _ []); [apply saved_get_run|]. rewrite Hstale.
  eapply (bind_run _ _ _ _ _ [name] _ _ []).
  { unfold call. by rewrite Hf. }
  eapply (bind_run _ _ _ _ _ []); [apply protect_run|].
  eapply (bind_run _ _ _ _ _ []); [done|].
  eapply (bind_run _ _ _ _ _ []); [by apply press_run|]. done.
Qed.

(** With [recompute] set, or with nothing cached, neither cache test
    passes. *)
Lemma nothing_usable cls name (recompute : bool) w :
  recompute = true \/ default VNone (_saved w !! name) = VNone ->
  is_not_None (default VNone (_saved (swept cls name w) !! name)) && negb recompute = false /\
  is_not_None (default VNone (_saved w !! name)) && negb recompute = false.
Proof.
  intros [->|H]; [by rewrite !andb_false_r|].
  by rewrite (swept_None_stays _ _ _ _ H), H.
Qed.

Lemma unflagged_lookup deps w l a :
  arrays w !! l = Some a ->
  exists a',
    arrays (unflagged deps w) !! l = Some a' /\
    writeable a' = writeable a /\ shape a' = shape a /\
    buffer a' = buffer a /\ offset a' = offset a.
Proof.
  revert w a. induction deps as [|d deps IH]; intros w a Ha; [by eauto 10|].
  unfold unflagged. cbn [foldl]. fold (unflagged deps).
  destruct (attr_loc w d) as [l'|]; [|by apply IH].
  destruct (IH (flag false l' w)
              ((if decide (l' = l) then assign_modified false else id) a))
    as (a' & Ha' & Hw & Hs & Hb & Ho).
  { by rewrite lookup_flag, Ha. }
  exists a'. split; [done|].
  rewrite Hw, Hs, Hb, Ho. case_decide; [|done].
  unfold assign_modified. by destruct (tracked a).
Qed.

(** An assignment to a write-protected array, through the [__setitem__] of
    its class: [ValueError], and no element is written.  On a plain array
    nothing changes; on a tracked array the flag is raised all the same. *)
Lemma assign_item_read_only l key x w a :
  arrays w !! l = Some a -> writeable a = false ->
  let o := assign_item l key x w in
  res o = Raise ValueError /\ calls o = [] /\
  buffers (final o) = buffers w /\
  elements_at (final o) l = elements_at w l /\
  (tracked a = None -> final o = w) /\
  (tracked a <> None -> modified_at (final o) l = Some true).
Proof.
  intros Ha Hw o. unfold o, assign_item.
  rewrite (bind_Ok _ _ _ _ _ _ (get_array_Some _ _ _ Ha)). cbn [res final calls app].
  assert (Hwp : writeable_at w l = Some false)
    by (unfold writeable_at; by rewrite Ha, <- Hw).
  destruct (tracked a) as [sl|] eqn:Htr.
  - assert (Ht : is_tracked w l).
    { exists (_modified sl). unfold modified_at. rewrite Ha. simpl. by rewrite Htr. }
    unfold TrackedArray.__setitem__.
    rewrite (bind_Ok _ _ _ _ _ _ (set_modified_run _ _ Ht)).
    set (w1 := flag_source (default None (source_at w l)) (flag true l w)).
    assert (Hwp1 : writeable_at w1 l = Some false)
      by (unfold w1; by rewrite writeable_at_flag_source, writeable_at_flag).
    rewrite (nd_setitem_read_only l key x w1 Hwp1). cbn [res final calls app].
    assert (Hbuf : buffers w1 = buffers w) by apply (flag_source_frame _ (flag true l w)).
    split; [done|]. split; [done|]. split; [done|]. split; [|split; [done|]].
    + destruct (set_modified_keeps_layout l w l a Ht Ha) as (a' & Ha' & _ & Hs & Hb & Ho).
      fold w1 in Ha'. unfold elements_at, elements_of.
      by rewrite Ha', Ha, Hbuf; simpl; rewrite Hs, Hb, Ho.
    + intros _. unfold w1. apply modified_at_flag_source_mono. by apply modified_at_flag_eq.
  - rewrite (nd_setitem_read_only l key x w Hwp). cbn [res final calls].
    by repeat split.
Qed.

(** X17: an array the wrapped function returns is write-protected by the
    wrapper before it is cached: whenever the function runs (nothing is
    cached, or [recompute] is set) and returns an array, that array is not
    writeable afterwards and its elements are those the function left.  An
    assignment to it then raises [ValueError] and writes no element; when
    the array is a plain [np.ndarray] nothing changes at all, and when it
    is a tracked array (one of the helpee's own, say) the rejected
    assignment still raises its [_modified] flag. *)
Theorem computed_arrays_are_write_protected cls name func (recompute return_saved : bool)
    w l w1 a :
  well_registered cls -> ready cls name w -> well_behaved func ->
  recompute = true \/ default VNone (_saved w !! name) = VNone ->
  func (swept cls name w) = (Ok (VRef l), w1) -> arrays w1 !! l = Some a ->
  let o := compute_or_return_saved cls name func recompute return_saved w in
  res o = Ok (VRef l) /\ calls o = [name] /\
  writeable_at (final o) l = Some false /\
  elements_at (final o) l = elements_at w1 l /\
  forall key x,
    let o' := assign_item l key x (final o) in
    res o' = Raise ValueError /\ calls o' = [] /\
    buffers (final o') = buffers (final o) /\
    elements_at (final o') l = elements_at (final o) l /\
    (tracked a = None -> final o' = final o) /\
    (tracked a <> None -> modified_at (final o') l = Some true).
Proof.
  intros Hwr Hready Hwb Hmust Hf Ha o.
  destruct (nothing_usable cls name recompute w Hmust) as [C1 C2].
  destruct (Hwb (swept cls name w)) as (v' & w1' & Hf' & _ & Ha1 & Ht1).
  rewrite Hf in Hf'. injection Hf' as <- <-.
  pose proof (compute_world cls name func recompute return_saved w _ _
                Hwr Hready Hf Ha1 Ht1 C1 (fun _ => C2)) as Hrun.
  unfold o. rewrite Hrun. cbn [res final calls].
  set (w2 := with_saved (insert name (VRef l)) (protect (VRef l) w1)).
  assert (Ha2 : arrays w2 !! l
                = Some {| tracked := tracked a; writeable := false; shape := shape a;
                          buffer := buffer a; offset := offset a |}).
  { unfold w2. simpl. by rewrite list_lookup_alter_eq, Ha. }
  destruct (unflagged_lookup (default [] (_depends cls !! name)) w2 l _ Ha2)
    as (a' & Ha' & Hw & Hs & Hb & Ho).
  simpl in Hw, Hs, Hb, Ho.
  set (wf := unflagged (default [] (_depends cls !! name)) w2) in *.
  assert (Hwp : writeable_at wf l = Some false).
  { unfold writeable_at. rewrite Ha'. simpl. by rewrite Hw. }
  assert (Hclass : tracked a' = None <-> tracked a = None).
  { pose proof (is_tracked_unflagged (default [] (_depends cls !! name)) w2 l) as Hiff.
    fold wf in Hiff. unfold is_tracked, modified_at in Hiff.
    rewrite Ha', Ha2 in Hiff. simpl in Hiff.
    destruct (tracked a') as [sa'|], (tracked a) as [sa|]; simpl in Hiff; try done.
    - exfalso. destruct (proj1 Hiff) as [? ?]; [by eexists|done].
    - exfalso. destruct (proj2 Hiff) as [? ?]; [by eexists|done]. }
  split; [done|]. split; [done|]. split; [done|]. split.
  - unfold elements_at, elements_of. rewrite Ha', Ha. simpl.
    unfold wf. rewrite (proj2 (proj2 (unflagged_frame _ w2))).
    by rewrite Hs, Hb, Ho.
  - intros key x.
    pose proof (assign_item_read_only l key x wf a' Ha' Hw) as Hassign.
    cbv zeta in Hassign.
    destruct Hassign as (Hres & Hcalls & Hbuf & Hel & Hplain & Htracked).
    split; [done|]. split; [done|]. split; [done|]. split; [done|]. split.
    + intros Hn. apply Hplain. by apply Hclass.
    + intros Hn. apply Htracked. intros Hn'. by apply Hclass in Hn'.
Qed.

Lemma func_x_well_behaved : well_behaved func_x.
Proof. intros w. by eexists _, w. Qed.

Lemma computed_arrays_are_write_protected_witness :
  let o := compute_or_return_saved cls_fg "f" func_x false false helpee_123 in
  writeable_at helpee_123 2%nat = Some true /\
  modified_at (final o) 2%nat = Some false /\
  res o = Ok (VRef 2%nat) /\ calls o = ["f"] /\
  writeable_at (final o) 2%nat = Some false /\
  elements_at (final o) 2%nat = elements_at (swept cls_fg "f" helpee_123) 2%nat /\
  forall key x,
    let o' := assign_item 2%nat key x (final o) in
    res o' = Raise ValueError /\ calls o' = [] /\
    buffers (final o') = buffers (final o) /\
    elements_at (final o') 2%nat = elements_at (final o) 2%nat /\
    (Some {| _modified := true; _source := None |} = None -> final o' = final o) /\
    (Some {| _modified := true; _source := None |} <> None ->
     modified_at (final o') 2%nat = Some true).
Proof.
  split; [by vm_compute|]. split; [by vm_compute|].
  assert (Hf : func_x (swept cls_fg "f" helpee_123)
               = (Ok (VRef 2%nat), swept cls_fg "f" helpee_123)) by (by vm_compute).
  assert (Ha : arrays (swept cls_fg "f" helpee_123) !! 2%nat
               = Some {| tracked := Some {| _modified := true; _source := None |};
                         writeable := true; shape := [3%nat]; buffer := 1; offset := 0 |})
    by (by vm_compute).
  assert (Hr : ready cls_fg "f" helpee_123) by (apply helpee_123_ready; set_solver).
  exact (computed_arrays_are_write_protected cls_fg "f" func_x false false helpee_123
           2%nat _ _ cls_fg_well_registered Hr func_x_well_behaved
           (or_intror eq_refl) Hf Ha).
Defined.

Lemma evict_twice keys m : evict keys (evict keys m) = evict keys m.
Proof.
  apply map_eq. intros k. destruct (decide (k ∈ keys)).
  - by rewrite !evict_lookup_in.
  - by rewrite !evict_lookup_notin.
Qed.

(** The sweep reads the attributes and the flags only, so a second sweep
    evicts the same keys. *)
Lemma swept_swept cls name w : swept cls name (swept cls name w) = swept cls name w.
Proof.
  unfold swept.
  change (sweep_keys cls (with_saved ?f w) ?d) with (sweep_keys cls w d).
  destruct w. unfold with_saved. simpl. by rewrite evict_twice.
Qed.

Lemma sweep_keys_clean cls w deps :
  Forall (fun d => forall l, attr_loc w d = Some l -> modified_at w l = Some false) deps ->
  sweep_keys cls w deps = [].
Proof.
  induction 1 as [|d deps Hd _ IH]; [done|].
  unfold sweep_keys in *. cbn [mbind list_bind]. rewrite IH, app_nil_r.
  unfold stale. destruct (attr_loc w d) as [l|]; [|done]. simpl. by rewrite (Hd l).
Qed.

Lemma swept_clean cls name w :
  Forall (fun d => forall l, attr_loc w d = Some l -> modified_at w l = Some false)
         (default [] (_depends cls !! name)) ->
  swept cls name w = w.
Proof. intros H. unfold swept. rewrite sweep_keys_clean by done. by destruct w. Qed.

(** After the computing path no dependee of the operation is flagged. *)
Lemma computed_world_clean cls name w v w1 :
  ready cls name w -> attrs w1 = attrs w -> (forall l, is_tracked w l -> is_tracked w1 l) ->
  let w' := unflagged (default [] (_depends cls !! name))
              (with_saved (insert name v) (protect v w1)) in
  Forall (fun d => forall l, attr_loc w' d = Some l -> modified_at w' l = Some false)
         (default [] (_depends cls !! name)).
Proof.
  intros (deps & Hdeps & Hres) Ha1 Ht1 w'. unfold w'. rewrite Hdeps. simpl.
  set (w2 := with_saved (insert name v) (protect v w1)).
  assert (Ha2 : attrs w2 = attrs w) by (destruct v; simpl; by rewrite ?Ha1).
  apply Forall_forall. intros d Hd l Hl.
  destruct (unflagged_frame deps w2) as (Hattrs & _ & _).
  rewrite (attr_loc_attrs w2) in Hl by done.
  apply modified_at_unflagged with d; [done|done|].
  rewrite Forall_forall in Hres.
  destruct (proj1 (resolves_attr_loc w d) (Hres d Hd)) as (l' & Hl' & Ht').
  rewrite (attr_loc_attrs w) in Hl by done.
  assert (l = l') as -> by congruence.
  assert (is_tracked (protect v w1) l') as H by (apply is_tracked_protect, Ht1, Ht').
  exact H.
Qed.

(** X18: a call is followed by a cache hit.  After a call without
    [return_saved] that returned a value other than [None] (computed or
    cached, with or without [recompute]), the same call repeated at once
    without [recompute] returns that value, does not invoke the function
    and leaves the state exactly as it is. *)
Theorem repeated_call_is_served_from_the_cache cls name func
    (recompute return_saved' : bool) w v :
  well_registered cls -> ready cls name w -> well_behaved func ->
  let o := compute_or_return_saved cls name func recompute false w in
  res o = Ok v -> v <> VNone ->
  compute_or_return_saved cls name func false return_saved' (final o)
  = Out (Ok v) (final o) [].
Proof.
  intros Hwr Hready Hwb o Hres Hv.
  destruct (is_not_None (default VNone (_saved (swept cls name w) !! name))
            && negb recompute) eqn:E.
  - apply andb_true_iff in E as [E1 E2].
    destruct recompute; [done|].
    destruct (_saved (swept cls name w) !! name) as [v0|] eqn:Hv0; [|done].
    assert (Hnn : v0 <> VNone) by (by intros ->).
    pose proof (cached_run cls name func false w v0 Hwr Hready Hv0 Hnn) as Hrun.
    cbn [andb] in Hrun. unfold o in *. rewrite Hrun in *. cbn [res final] in *.
    injection Hres as ->.
    assert (Hready' : ready cls name (swept cls name w)).
    { apply (ready_keep cls name w); [done| |done]. intros l. by destruct w. }
    rewrite (cached_run cls name func return_saved' (swept cls name w) v Hwr Hready');
      [|by rewrite swept_swept|done].
    rewrite swept_swept. by destruct (return_saved' && _).
  - destruct (Hwb (swept cls name w)) as (v' & w1 & Hf & Hs1 & Ha1 & Ht1).
    pose proof (compute_world cls name func recompute false w v' w1
                  Hwr Hready Hf Ha1 Ht1 E ltac:(done)) as Hrun.
    unfold o in *. rewrite Hrun in *. cbn [res final] in *. injection Hres as ->.
    set (w' := unflagged (default [] (_depends cls !! name))
                 (with_saved (insert name v) (protect v w1))).
    assert (Hclean : swept cls name w' = w').
    { apply swept_clean. by apply (computed_world_clean cls name w). }
    assert (Hready' : ready cls name w').
    { apply (ready_keep cls name (with_saved (insert name v) (protect v w1))).
      - exact (proj1 (unflagged_frame _ _)).
      - intros l. apply is_tracked_unflagged.
      - apply (ready_keep cls name w); [destruct v; simpl; by rewrite ?Ha1| |done].
        intros l Hl.
        assert (is_tracked (protect v w1) l) as H by (apply is_tracked_protect, Ht1, Hl).
        exact H. }
    assert (Hsaved : _saved w' !! name = Some v).
    { unfold w'. rewrite (proj1 (proj2 (unflagged_frame _ _))).
      destruct v; simpl; apply lookup_insert_eq. }
    rewrite (cached_run cls name func return_saved' w' v Hwr Hready');
      [|by rewrite Hclean|done].
    rewrite Hclean. by destruct (return_saved' && _).
Qed.

Lemma repeated_call_is_served_from_the_cache_witness :
  let o := compute_or_return_saved cls_fg "f" func_sum true false helpee_123 in
  res o = Ok (VInt 6) /\ VInt 6 <> VNone /\
  compute_or_return_saved cls_fg "f" func_sum false true (final o)
  = Out (Ok (VInt 6)) (final o) [].
Proof.
  assert (Hr : ready cls_fg "f" helpee_123) by (apply helpee_123_ready; set_solver).
  assert (Hres : res (compute_or_return_saved cls_fg "f" func_sum true false helpee_123)
                 = Ok (VInt 6)) by (by vm_compute).
  assert (Hv : VInt 6 <> VNone) by done.
  split; [exact Hres|]. split; [exact Hv|].
  exact (repeated_call_is_served_from_the_cache cls_fg "f" func_sum true true helpee_123
           (VInt 6) cls_fg_well_registered Hr func_sum_well_behaved Hres Hv).
Defined.

(** X19: what a call of the wrapper returns is what the holder has under the
    operation's name afterwards.  For every setting of [recompute] and
    [return_saved], after a call that returned [v], [__getitem__] of the
    holder returns [v] for the name, and so does [get] whatever default is
    given. *)
Theorem returned_value_is_what_the_holder_serves cls name func
    (recompute return_saved : bool) w v :
  well_registered cls -> ready cls name w -> well_behaved func ->
  let o := compute_or_return_saved cls name func recompute return_saved w in
  res o = Ok v ->
  DataHolder.__getitem__ name (final o) = Out (Ok v) (final o) [] /\
  forall default_values,
    DataHolder.get name default_values (final o) = Out (Ok v) (final o) [].
Proof.
  intros Hwr Hready Hwb o Hres.
  enough (Hs : _saved (final o) !! name = Some v).
  { unfold DataHolder.__getitem__, DataHolder.get, bind, gets, ret. simpl.
    rewrite Hs. simpl. split; [done|]. intros d. done. }
  destruct (is_not_None (default VNone (_saved (swept cls name w) !! name))
            && negb recompute) eqn:E.
  - apply andb_true_iff in E as [E1 E2].
    destruct recompute; [done|].
    destruct (_saved (swept cls name w) !! name) as [v0|] eqn:Hv0; [|done].
    assert (Hnn : v0 <> VNone) by (by intros ->).
    pose proof (cached_run cls name func return_saved w v0 Hwr Hready Hv0 Hnn) as Hrun.
    unfold o in *. rewrite Hrun in *. cbn [res final] in *. injection Hres as ->.
    destruct (return_saved && is_not_None (default VNone (_saved w !! name))) eqn:E;
      [|done].
    apply andb_true_iff in E as [_ E].
    unfold swept in Hv0. simpl in Hv0.
    destruct (decide (name ∈ sweep_keys cls w (default [] (_depends cls !! name)))).
    + rewrite evict_lookup_in in Hv0 by done. congruence.
    + by rewrite evict_lookup_notin in Hv0.
  - destruct (is_not_None (default VNone (_saved w !! name)) && negb recompute) eqn:E'.
    + apply andb_true_iff in E' as [E1 E2].
      destruct recompute; [done|]. rewrite andb_true_r in E.
      destruct (_saved w !! name) as [v0|] eqn:Hv0; [|done].
      destruct return_saved.
      * assert (Ho : compute_or_return_saved cls name func false true w
                     = Out (Ok v0) w []).
        { unfold compute_or_return_saved, bind, saved_get, gets, ret. simpl.
          rewrite Hv0. simpl. by destruct v0. }
        unfold o in *. rewrite Ho in *. cbn [res final] in *. by injection Hres as ->.
      * destruct (Hwb (swept cls name w)) as (v' & w1 & Hf & Hs1 & Ha1 & Ht1).
        pose proof (compute_world cls name func false false w v' w1
                      Hwr Hready Hf Ha1 Ht1 ltac:(by rewrite andb_true_r) ltac:(done)) as Hrun.
        unfold o in *. rewrite Hrun in *. cbn [res final] in *. injection Hres as ->.
        rewrite (proj1 (proj2 (unflagged_frame _ _))).
        destruct v; simpl; apply lookup_insert_eq.
    + destruct (Hwb (swept cls name w)) as (v' & w1 & Hf & Hs1 & Ha1 & Ht1).
      pose proof (compute_world cls name func recompute return_saved w v' w1
                    Hwr Hready Hf Ha1 Ht1 E (fun _ => E')) as Hrun.
      unfold o in *. rewrite Hrun in *. cbn [res final] in *. injection Hres as ->.
      rewrite (proj1 (proj2 (unflagged_frame _ _))).
      destruct v; simpl; apply lookup_insert_eq.
Qed.

Lemma returned_value_is_what_the_holder_serves_witness :
  let o := compute_or_return_saved cls_fg "f" func_sum false true helpee_123 in
  res o = Ok (VInt 6) /\
  DataHolder.__getitem__ "f" (final o) = Out (Ok (VInt 6)) (final o) [] /\
  forall default_values,
    DataHolder.get "f" default_values (final o) = Out (Ok (VInt 6)) (final o) [].
Proof.
  assert (Hr : ready cls_fg "f" helpee_123) by (apply helpee_123_ready; set_solver).
  assert (Hres : res (compute_or_return_saved cls_fg "f" func_sum false true helpee_123)
                 = Ok (VInt 6)) by (by vm_compute).
  split; [exact Hres|].
  exact (returned_value_is_what_the_holder_serves cls_fg "f" func_sum false true
           helpee_123 (VInt 6) cls_fg_well_registered Hr func_sum_well_behaved Hres).
Defined.

(** X20: [recompute=True] forces the computation.  Whatever is cached and
    whether or not a dependee is flagged, with or without [return_saved],
    the function is invoked exactly once, on the swept state, and its value
    is returned and replaces the cached one. *)
Theorem recompute_always_runs_the_function cls name func (return_saved : bool) w :
  well_registered cls -> ready cls name w -> well_behaved func ->
  let o := compute_or_return_saved cls name func true return_saved w in
  exists v,
    (func (swept cls name w)).1 = Ok v /\
    res o = Ok v /\ calls o = [name] /\
    _saved (final o) !! name = Some v /\
    forall k, k <> name -> _saved (final o) !! k = _saved (swept cls name w) !! k.
Proof.
  intros Hwr Hready Hwb o.
  destruct (Hwb (swept cls name w)) as (v & w1 & Hf & Hs1 & Ha1 & Ht1).
  pose proof (compute_world cls name func true return_saved w v w1
                Hwr Hready Hf Ha1 Ht1 ltac:(by rewrite andb_false_r)
                ltac:(by rewrite andb_false_r)) as Hrun.
  exists v. unfold o. rewrite Hrun, Hf. cbn [res final calls fst].
  rewrite (proj1 (proj2 (unflagged_frame _ _))).
  split; [done|]. split; [done|]. split; [done|]. split.
  - destruct v; simpl; apply lookup_insert_eq.
  - intros k Hk. rewrite <- Hs1. destruct v; simpl; by rewrite lookup_insert_ne.
Qed.

Lemma recompute_always_runs_the_function_witness :
  let o := compute_or_return_saved cls_fg "f" func_len true true helpee_f_cached in
  _saved helpee_f_cached !! "f" = Some (VInt 6) /\
  exists v,
    (func_len (swept cls_fg "f" helpee_f_cached)).1 = Ok v /\
    res o = Ok v /\ calls o = ["f"] /\
    _saved (final o) !! "f" = Some v /\
    forall k, k <> "f" -> _saved (final o) !! k = _saved (swept cls_fg "f" helpee_f_cached) !! k.
Proof.
  split; [by vm_compute|].
  assert (Hr : ready cls_fg "f" helpee_f_cached).
  { exists ["x"]. split; [by vm_compute|].
    repeat constructor. exists 2%nat. split; [by vm_compute|]. exists false. by vm_compute. }
  exact (recompute_always_runs_the_function cls_fg "f" func_len true helpee_f_cached
           cls_fg_well_registered Hr func_len_well_behaved).
Defined.

(** X21: when the wrapped function raises, the wrapper lets the exception
    through right after the call: nothing is stored for the operation and
    no flag is lowered, the state is the one the function left. *)
Theorem failing_computation_stores_nothing cls name func (recompute return_saved : bool)
    w e w1 :
  well_registered cls -> ready cls name w ->
  recompute = true \/ default VNone (_saved w !! name) = VNone ->
  func (swept cls name w) = (Raise e, w1) ->
  compute_or_return_saved cls name func recompute return_saved w
  = Out (Raise e) w1 [name].
Proof.
  intros Hwr Hready Hmust Hf.
  destruct (nothing_usable cls name recompute w Hmust) as [C1 C2].
  unfold compute_or_return_saved.
  eapply (bind_run _ _ _ _ _ [] _ _ [name]); [apply escape_run|].
  rewrite C2, andb_false_r.
  eapply (bind_run _ _ _ _ _ [] _ _ [name]); [by apply sweep_run|].
  eapply (bind_run _ _ _ _ _ [] _ _ [name]); [apply saved_get_run|]. rewrite C1.
  apply bind_Raise. unfold call. by rewrite Hf.
Qed.

Lemma failing_computation_stores_nothing_witness :
  compute_or_return_saved cls_fg "f" func_fails false false helpee_123
  = Out (Raise ValueError) (swept cls_fg "f" helpee_123) ["f"].
Proof.
  assert (Hr : ready cls_fg "f" helpee_123) by (apply helpee_123_ready; set_solver).
  exact (failing_computation_stores_nothing cls_fg "f" func_fails false false helpee_123
           ValueError _ cls_fg_well_registered Hr (or_intror eq_refl) eq_refl).
Defined.

(** The first loop stops at the first dependency it cannot read. *)
Lemma sweep_loop_unreadable cls w pre d post :
  Forall (resolves w) pre ->
  Forall (fun d => is_Some (_inv_depends cls !! d)) pre ->
  unreadable w d ->
  forall f,
    for_each (pre ++ d :: post) (fun d =>
      dependee <- getattr d ;;
      m <- get_modified dependee ;;
      if m then
        invs <- lookup_inv_depends cls d ;;
        for_each invs (fun inv => save inv VNone)
      else ret tt) (with_saved f w)
    = Out (Raise AttributeError)
          (with_saved (evict (sweep_keys cls w pre)) (with_saved f w)) [].
Proof.
  induction 1 as [|p pre Hp Hpre IH]; intros Hinv Hd f.
  - cbn [app for_each]. apply bind_Raise.
    unfold unreadable in Hd. unfold getattr, get_modified, get_array, bind, gets, ret, raise.
    destruct w as [arr bufs ats sv]. simpl in *.
    destruct (ats !! d) as [[| |l]|]; simpl; [done..| |done].
    destruct (arr !! l) as [a|]; [|done]. simpl. by rewrite Hd.
  - apply Forall_cons in Hinv as [Hi Hinv].
    cbn [app for_each].
    eapply (bind_run _ _ _ _ _ []); [by apply sweep_round|].
    change (with_saved (evict (stale cls w p)) (with_saved f w))
      with (with_saved (evict (stale cls w p) ∘ f) w).
    rewrite (IH Hinv Hd). unfold sweep_keys. simpl. unfold with_saved. simpl.
    by rewrite evict_app.
Qed.

(** X22: a declared dependency that is missing on the helpee, or is not a
    tracked array (a number, [None], or a plain [np.ndarray] such as
    [make_tracked_array(..., copy=False)] returns), makes the call raise
    [AttributeError] in the first loop: the function is not invoked, and
    the arrays, the buffers and the attributes are as before. *)
Theorem unreadable_dependency_raises cls name func (recompute : bool) w pre d post :
  well_registered cls -> _depends cls !! name = Some (pre ++ d :: post) ->
  Forall (resolves w) pre -> unreadable w d ->
  let o := compute_or_return_saved cls name func recompute false w in
  res o = Raise AttributeError /\ calls o = [] /\
  arrays (final o) = arrays w /\ buffers (final o) = buffers w /\
  attrs (final o) = attrs w.
Proof.
  intros Hwr Hdeps Hpre Hd o.
  assert (Hinv : Forall (fun d => is_Some (_inv_depends cls !! d)) pre).
  { pose proof (ready_inv cls name _ Hwr Hdeps) as H.
    by apply Forall_app in H as [H _]. }
  assert (Ho : o = Out (Raise AttributeError)
                 (with_saved (evict (sweep_keys cls w pre)) w) []).
  { unfold o, compute_or_return_saved.
    eapply (bind_run _ _ _ _ _ []); [apply (escape_run name recompute false)|].
    cbn [andb]. apply bind_Raise. unfold sweep.
    eapply (bind_run _ _ _ _ _ []).
    - unfold lookup_depends. by rewrite Hdeps.
    - rewrite <- (with_saved_id w) at 1.
      rewrite (sweep_loop_unreadable cls w pre d post Hpre Hinv Hd).
      by destruct w. }
  rewrite Ho. by destruct w.
Qed.

Lemma unreadable_dependency_raises_witness :
  let o := compute_or_return_saved cls_fg "f" func_sum false false helpee_plain in
  res o = Raise AttributeError /\ calls o = [] /\
  arrays (final o) = arrays helpee_plain /\ buffers (final o) = buffers helpee_plain /\
  attrs (final o) = attrs helpee_plain.
Proof.
  assert (Hdeps : _depends cls_fg !! "f" = Some ([] ++ "x" :: [])) by (by vm_compute).
  assert (Hd : unreadable helpee_plain "x") by (by vm_compute).
  exact (unreadable_dependency_raises cls_fg "f" func_sum false helpee_plain [] "x" []
           cls_fg_well_registered Hdeps (Forall_nil_2 _) Hd).
Defined.

(** ** Registration, continued *)

Lemma register_all_snoc regs vars name :
  register_all (regs ++ [(vars, name)]) = depends_on vars name (register_all regs).
Proof. unfold register_all. by rewrite foldl_app. Qed.

Lemma register_all_well_registered regs : well_registered (register_all regs).
Proof.
  induction regs as [|[vars name] regs IH] using rev_ind.
  - apply no_registry_well_registered.
  - rewrite register_all_snoc. by apply depends_on_well_registered.
Qed.

Lemma depends_on_keeps_names vars name cls n :
  is_Some (_depends cls !! n) -> is_Some (_depends (depends_on vars name cls) !! n).
Proof.
  intros Hn. unfold depends_on. simpl.
  destruct (decide (name = n)) as [->|Hne].
  - rewrite lookup_insert_eq. by eexists.
  - by rewrite lookup_insert_ne.
Qed.

(** X23: the two class attributes the decorator fills are consistent after
    any sequence of registrations.  For every decorated function the
    wrapper's [cls._depends[name]] is found and contains the declared
    variables, and for every variable [d] in it [cls._inv_depends[d]] is
    found and lists the function: neither lookup of the wrapper can raise
    [KeyError]. *)
Theorem registrations_keep_lookups_defined regs vars name w :
  (vars, name) ∈ regs ->
  exists deps,
    lookup_depends (register_all regs) name w = Out (Ok deps) w [] /\
    vars ⊆ deps /\
    forall d, d ∈ deps ->
      exists invs,
        lookup_inv_depends (register_all regs) d w = Out (Ok invs) w [] /\
        name ∈ invs.
Proof.
  intros Hin.
  assert (Hsome : is_Some (_depends (register_all regs) !! name)).
  { induction regs as [|[vars' name'] regs IH] using rev_ind; [by apply elem_of_nil in Hin|].
    rewrite register_all_snoc.
    apply elem_of_app in Hin as [Hin|Hin].
    - by apply depends_on_keeps_names, IH.
    - apply list_elem_of_singleton in Hin. injection Hin as <- <-.
      unfold depends_on. simpl. rewrite lookup_insert_eq. by eexists. }
  assert (Hreg : forall x, x ∈ vars -> registered (register_all regs) name x).
  { induction regs as [|[vars' name'] regs IH] using rev_ind; [by apply elem_of_nil in Hin|].
    intros x Hx. rewrite register_all_snoc.
    apply elem_of_app in Hin as [Hin|Hin].
    - apply registered_keeps; [apply register_all_well_registered|].
      apply IH; [done| |done].
      clear -Hin. induction regs as [|[vars' name'] regs IH] using rev_ind;
        [by apply elem_of_nil in Hin|].
      rewrite register_all_snoc. apply elem_of_app in Hin as [Hin|Hin].
      + by apply depends_on_keeps_names, IH.
      + apply list_elem_of_singleton in Hin. injection Hin as <- <-.
        unfold depends_on. simpl. rewrite lookup_insert_eq. by eexists.
    - apply list_elem_of_singleton in Hin. injection Hin as <- <-.
      by apply depends_on_registered. }
  destruct Hsome as [deps Hdeps]. exists deps.
  split; [unfold lookup_depends; by rewrite Hdeps|]. split.
  - intros x Hx. destruct (Hreg x Hx) as (deps' & invs & Hd' & Hxd & _).
    rewrite Hdeps in Hd'. by injection Hd' as <-.
  - intros d Hd.
    destruct (register_all_well_registered regs name deps d Hdeps Hd)
      as (deps' & invs & _ & _ & Hi & Hn).
    exists invs. unfold lookup_inv_depends. by rewrite Hi.
Qed.

Lemma registrations_keep_lookups_defined_witness :
  exists deps,
    lookup_depends (register_all [(["x"], "f"); (["x"; "y"], "g"); (["y"], "f")]) "f" new_world
    = Out (Ok deps) new_world [] /\
    ["x"] ⊆ deps /\
    forall d, d ∈ deps ->
      exists invs,
        lookup_inv_depends (register_all [(["x"], "f"); (["x"; "y"], "g"); (["y"], "f")])
          d new_world = Out (Ok invs) new_world [] /\
        "f" ∈ invs.
Proof.
  apply (registrations_keep_lookups_defined
           [(["x"], "f"); (["x"; "y"], "g"); (["y"], "f")] ["x"] "f" new_world).
  apply list_elem_of_here.
Defined.

(** ** Source chains *)

Lemma source_at_flag_source src w l : source_at (flag_source src w) l = source_at w l.
Proof. destruct src as [l'|]; simpl; [|done]. case_decide; [|done]. apply source_at_flag. Qed.

Lemma roots_only_same_sources w w' :
  (forall l, source_at w' l = source_at w l) -> roots_only w -> roots_only w'.
Proof. intros E Hr l src. rewrite !E. apply Hr. Qed.

(** New objects whose source, if they have one, is an existing root keep
    the chains one hop long. *)
Lemma roots_only_app w w' new :
  arrays w' = arrays w ++ new -> roots_only w ->
  Forall (fun x => forall s src, tracked x = Some s -> _source s = Some src ->
                                 source_at w src = Some None) new ->
  roots_only w'.
Proof.
  intros Harr Hr Hnew l src Hl.
  assert (Hold : forall l', source_at w l' = Some None -> source_at w' l' = Some None).
  { intros l' H'. unfold source_at in *. rewrite Harr.
    destruct (arrays w !! l') as [a|] eqn:Ha; [|done].
    by rewrite (lookup_app_l_Some _ _ _ _ Ha). }
  unfold source_at in Hl. rewrite Harr in Hl.
  destruct (arrays w !! l) as [a|] eqn:Ha.
  - rewrite (lookup_app_l_Some _ _ _ _ Ha) in Hl. apply Hold, (Hr l).
    unfold source_at. by rewrite Ha.
  - apply lookup_ge_None in Ha. rewrite lookup_app_r in Hl by done.
    destruct (new !! (l - length (arrays w))%nat) as [x|] eqn:Hx; [|done].
    simpl in Hl. destruct (tracked x) as [s|] eqn:Hs; [|done]. simpl in Hl.
    injection Hl as Hsrc. apply Hold.
    rewrite Forall_forall in Hnew.
    apply (Hnew x (proj2 (list_elem_of_lookup _ _) (ex_intro _ _ Hx)) s src Hs Hsrc).
Qed.

Lemma root_is_a_root w b a :
  roots_only w -> arrays w !! b = Some a -> is_tracked w b ->
  source_at w (default b (tracked a ≫= _source)) = Some None.
Proof.
  intros Hr Ha Ht.
  destruct (is_tracked_lookup w b Ht) as (a0 & s & Ha0 & Hs).
  rewrite Ha in Ha0. injection Ha0 as <-. rewrite Hs. simpl.
  pose proof (source_at_lookup w b a Ha) as Hsb. rewrite Hs in Hsb. simpl in Hsb.
  destruct (_source s) as [src|]; simpl; [by apply (Hr b)|done].
Qed.

(** The factory with [copy] set, with the world it ends in: two plain
    arrays (the contiguous one and its copy) and the tracked view of the
    copy. *)
Lemma make_tracked_array_copy_world `{Numpy} array dtype w shp d :
  np_ascontiguousarray (match array with ANone => ASeq [] | _ => array end) dtype
  = Ok (shp, d) ->
  let p := {| tracked := None; writeable := true; shape := shp;
              buffer := length (buffers w); offset := 0 |} in
  let p2 := {| tracked := None; writeable := true; shape := shp;
               buffer := S (length (buffers w)); offset := 0 |} in
  let t := {| tracked := Some {| _modified := true; _source := None |};
              writeable := true; shape := shp;
              buffer := S (length (buffers w)); offset := 0 |} in
  make_tracked_array array dtype true w
  = Out (Ok (S (S (length (arrays w)))))
        {| arrays := arrays w ++ [p; p2; t];
           buffers := buffers w ++ [d; take (product shp) d];
           attrs := attrs w; _saved := _saved w |} [].
Proof.
  intros Hc p p2 t. unfold make_tracked_array.
  remember (with_arrays (fun h => h ++ [p]) (with_buffers (fun h => h ++ [d]) w))
    as w1 eqn:Hw1.
  assert (Hp : arrays w1 !! length (arrays w) = Some p) by (subst w1; apply lookup_new).
  assert (Hl1 : length (arrays w1) = S (length (arrays w))).
  { subst w1. simpl. rewrite length_app. simpl. lia. }
  assert (Hb1 : length (buffers w1) = S (length (buffers w))).
  { subst w1. simpl. rewrite length_app. simpl. lia. }
  assert (He : elements_of p w1 = take (product shp) d).
  { unfold elements_of. subst w1. simpl. by rewrite lookup_new. }
  remember (with_arrays (fun h => h ++ [p2])
              (with_buffers (fun h => h ++ [take (product shp) d]) w1)) as w2 eqn:Hw2.
  assert (Hp2 : arrays w2 !! length (arrays w1) = Some p2) by (subst w2; apply lookup_new).
  assert (Hl2 : length (arrays w2) = S (S (length (arrays w)))).
  { subst w2. simpl. rewrite length_app, Hl1. simpl. lia. }
  assert (Hfinal : with_arrays (fun h => h ++ [t]) w2
                   = {| arrays := arrays w ++ [p; p2; t];
                        buffers := buffers w ++ [d; take (product shp) d];
                        attrs := attrs w; _saved := _saved w |}).
  { subst w2 w1. unfold with_arrays, with_buffers. simpl.
    by rewrite <- !app_assoc. }
  rewrite <- Hfinal, <- Hl2.
  eapply (bind_run _ _ _ _ w1 []); [subst w1; by apply ascontiguousarray_run|].
  eapply (bind_run _ _ _ _ _ []); [|done].
  eapply (bind_run _ _ _ _ w2 []).
  - unfold nd.copy.
    eapply (bind_run _ _ _ _ _ []); [by apply get_array_Some|].
    eapply (bind_run _ _ _ _ _ []); [done|].
    eapply (bind_run _ _ _ _ _ []); [done|].
    unfold alloc_array. rewrite He. cbn [shape p]. subst w2. simpl.
    by rewrite Hb1.
  - unfold view_as_TrackedArray.
    eapply (bind_run _ _ _ _ _ []); [by apply get_array_Some|].
    eapply (bind_run _ _ _ _ _ []); [apply alloc_array_run|].
    eapply (bind_run _ _ _ _ (with_arrays (fun h => h ++ [t]) w2) []); [|done].
    unfold TrackedArray.__array_finalize__.
    eapply (bind_run _ _ _ _ (with_arrays (fun h => h ++ [t]) w2) []).
    + unfold set_slots, modify, with_arrays. cbn [arrays buffers attrs _saved].
      by rewrite alter_new.
    + eapply (bind_run _ _ _ _ _ []).
      * apply get_array_Some. cbn [arrays with_arrays].
        apply lookup_app_l_Some. exact Hp2.
      * done.
Qed.

(** X24: the source recorded on a tracked array is always a root.  If no
    tracked array has a source that itself has a source, this is still so
    after [view], after a slice read, after any in-place mutator and after
    a call of the factory; so the two flags [_set_modified] raises always
    include the one of the array that owns the storage. *)
Theorem source_chains_stay_one_hop `{Ufuncs} `{Numpy} (w : World) (b : loc) :
  roots_only w -> is_tracked w b ->
  roots_only (final (TrackedArray.view b w)) /\
  (forall start stop,
     roots_only (final (TrackedArray.subscript b (Slice start stop) w))) /\
  (forall m, roots_only (final (mutate m b w))) /\
  (forall array dtype copy,
     roots_only (final (make_tracked_array array dtype copy w))).
Proof.
  intros Hr Ht.
  destruct (is_tracked_lookup w b Ht) as (a & s & Ha & Hs).
  split; [|split; [|split]].
  - rewrite (view_run b a s w Ha Hs). cbn [final].
    apply (roots_only_app w _ [view_of b a]); [done|done|].
    constructor; [|done]. intros s' src Hs' Hsrc. simpl in Hs'.
    injection Hs' as <-. simpl in Hsrc. injection Hsrc as <-.
    by apply root_is_a_root.
  - intros start stop. destruct (shape a) as [|n rest] eqn:Hshape.
    + unfold TrackedArray.subscript, nd.__getitem__.
      rewrite (bind_Ok _ _ _ _ _ _ (get_array_Some _ _ _ Ha)). rewrite Hshape. exact Hr.
    + rewrite (subscript_slice_run b a s n rest start stop w Ha Hs Hshape). cbn [final].
      apply (roots_only_app w _ [slice_of b a n rest start stop]); [done|done|].
      constructor; [|done]. intros s' src Hs' Hsrc. simpl in Hs'.
      injection Hs' as <-. simpl in Hsrc. injection Hsrc as <-.
      by apply root_is_a_root.
  - intros m. destruct (mutate_run m b w Ht) as (r & w' & -> & Harr & _). cbn [final].
    apply (roots_only_same_sources w); [|done].
    intros l. unfold source_at at 1. rewrite Harr.
    fold (source_at (flag_source (default None (source_at w b)) (flag true b w)) l).
    by rewrite source_at_flag_source, source_at_flag.
  - intros array dtype copy.
    destruct (np_ascontiguousarray
                (match array with ANone => ASeq [] | _ => array end) dtype)
      as [[s' d]|e] eqn:Hc.
    + destruct copy.
      * rewrite (make_tracked_array_copy_world array dtype w s' d Hc). cbn [final].
        eapply (roots_only_app w); [done|done|].
        repeat constructor; intros s0 src Hs0 Hsrc; simpl in Hs0; [done|done|].
        injection Hs0 as <-. done.
      * unfold make_tracked_array.
        rewrite (bind_Ok _ _ _ _ _ _ (ascontiguousarray_run _ dtype w s' d Hc)).
        cbn [final bind ret].
        eapply (roots_only_app w); [done|done|].
        repeat constructor. intros s0 src Hs0 Hsrc. simpl in Hs0. done.
    + by rewrite (make_tracked_array_ragged array dtype copy w e Hc).
Qed.

Lemma source_chains_stay_one_hop_witness :
  roots_only helpee_123 /\ is_tracked helpee_123 2%nat /\
  roots_only (final (TrackedArray.view 2%nat helpee_123)) /\
  (forall start stop,
     roots_only (final (TrackedArray.subscript 2%nat (Slice start stop) helpee_123))) /\
  (forall m, roots_only (final (mutate (H := sample_ufuncs) m 2%nat helpee_123))) /\
  (forall array dtype copy,
     roots_only (final (make_tracked_array (H := numpy_2) array dtype copy helpee_123))).
Proof.
  assert (Hr : roots_only helpee_123).
  { intros l src Hl. destruct l as [|[|[|l]]]; vm_compute in Hl; done. }
  assert (Ht : is_tracked helpee_123 2%nat) by (exists true; by vm_compute).
  split; [exact Hr|]. split; [exact Ht|].
  exact (source_chains_stay_one_hop (H := sample_ufuncs) (H0 := numpy_2)
           helpee_123 2%nat Hr Ht).
Defined.

(** ** What the factory stores *)




